(** * bo3-client: instance tree, tree manager and wire framing

    A shallow embedding of
      - engine/shared/instances/instance.go     (BaseInstance and its methods),
      - engine/shared/instances/instanceman.go  (instanceManager),
      - engine/shared/instances/Part.go, Werkzeug (the embedding subclasses),
      - engine/shared/network/manager.go        (framing, Connect, readLoop,
                                                  the handler table),
      - engine/shared/datamodel/datamodel.go    (InitManager, CreateInstance),
    followed by the properties of the specification, each settled against
    these definitions, and by further properties of the code.

    Go objects live in a heap of [BaseInstance] records addressed by their
    index.  An [Instance] interface value is [None] (the nil interface) or a
    pair of a dynamic type and an address, because the source decides by type
    assertion (to the base pointer type) and compares interface values with [==].
    [sync.Mutex] is modelled by the list of node locks currently held: taking
    a lock that is already held never returns (Go mutexes are not reentrant).
    The [sync.RWMutex] of a manager is a field of its record.  The recursive
    methods ([Destroy], [GetDescendants], [Clone]) carry a bound on the depth
    of the recursion; the theorems show that a bound under which the
    traversal of the subtree returns is enough for the call to return.

    On the network side one goroutine is followed at a time: a socket is the
    bytes written and the bytes still to come, the [Events] channel is the
    list of events pushed, and every function returns the trace of what it
    did to the outside world.  The accept loop, the registry of accepted
    clients and the blocking of a full channel are not part of the model.
*)

From Stdlib Require Import ZArith Lia String Ascii List Bool Permutation.
From stdpp Require Import base option list gmap strings.
Import ListNotations.
Local Open Scope string_scope.
Local Open Scope list_scope.
Local Open Scope stdpp_scope.

(* ===================================================================== *)
(** ** Package instances                                                 *)
(* ===================================================================== *)

Abbreviation addr := nat (only parsing).

(** The dynamic type carried by a non-nil [Instance] interface value.
    [Part] and [Werkzeug] embed [BaseInstance] as their first field: a
    [*Part] and the [*BaseInstance] of its embedded base share the address
    and differ in the dynamic type. *)
Inductive Kind := KBase | KPart | KWerkzeug.

Record Ref := mkRef { rkind : Kind; raddr : addr }.

(** [Instance] interface values; [None] is nil. *)
Abbreviation Instance := (option Ref) (only parsing).

Definition Kind_eqb (k1 k2 : Kind) : bool :=
  match k1, k2 with
  | KBase, KBase | KPart, KPart | KWerkzeug, KWerkzeug => true
  | _, _ => false
  end.

(** [==] on two non-nil interface values: same dynamic type, same pointer. *)
Definition Ref_eqb (r1 r2 : Ref) : bool :=
  Kind_eqb (rkind r1) (rkind r2) && Nat.eqb (raddr r1) (raddr r2).

(** Converting a [*BaseInstance] receiver [b] to [Instance]. *)
Definition iface (b : addr) : Ref := mkRef KBase b.

(** The type assertion to the base pointer type. *)
Definition asBase (r : Ref) : option addr :=
  match rkind r with
  | KBase => Some (raddr r)
  | _ => None
  end.

(** The fields of [BaseInstance] (the mutex is kept in [held] below).  A
    slice is [None] when nil; the code only ever stores receivers in
    [children], so its elements are non-nil references. *)
Record BaseInstance := mkBaseInstance {
  name : string;
  parent : Instance;
  children : option (list Ref);
  className : string;
  localId : string;
  this : Instance
}.

Definition elems (sl : option (list Ref)) : list Ref := default [] sl.

Definition with_name (o : BaseInstance) (n : string) : BaseInstance :=
  mkBaseInstance n (parent o) (children o) (className o) (localId o) (this o).

Definition with_parent (o : BaseInstance) (p : Instance) : BaseInstance :=
  mkBaseInstance (name o) p (children o) (className o) (localId o) (this o).

Definition with_children (o : BaseInstance) (c : option (list Ref)) : BaseInstance :=
  mkBaseInstance (name o) (parent o) c (className o) (localId o) (this o).

Definition with_className (o : BaseInstance) (c : string) : BaseInstance :=
  mkBaseInstance (name o) (parent o) (children o) c (localId o) (this o).

Abbreviation Heap := (list BaseInstance) (only parsing).

Record State := mkState {
  heap : Heap;
  held : list addr   (* addresses of the nodes whose [mu] is locked *)
}.

(** How a call ends: it returns, blocks for ever on a mutex, panics, or the
    recursion bound of the model is reached. *)
Inductive Outcome (A : Type) :=
| Ret (x : A) (s : State)
| Deadlock
| Panic
| OutOfFuel.

Arguments Ret {A} x s.

Arguments Deadlock {A}.

Arguments Panic {A}.

Arguments OutOfFuel {A}.

Abbreviation M A := (State -> Outcome A) (only parsing).

Definition ret {A} (x : A) : M A := fun s => Ret x s.

Definition bind {A B} (c : M A) (k : A -> M B) : M B :=
  fun s =>
    match c s with
    | Ret x s' => k x s'
    | Deadlock => Deadlock
    | Panic => Panic
    | OutOfFuel => OutOfFuel
    end.

Notation "'let*' x ':=' c 'in' k" := (bind c (fun x => k))
  (at level 10, x name, c at level 100, k at level 200).

Notation "c ';;;' k" := (bind c (fun _ => k))
  (at level 100, k at level 200, right associativity).

Definition load (a : addr) : M BaseInstance :=
  fun s => match heap s !! a with
           | Some o => Ret o s
           | None => Panic
           end.

Definition store (a : addr) (o : BaseInstance) : M unit :=
  fun s => match heap s !! a with
           | Some _ => Ret tt (mkState (<[a := o]> (heap s)) (held s))
           | None => Panic
           end.

Definition update (a : addr) (f : BaseInstance -> BaseInstance) : M unit :=
  let* o := load a in store a (f o).

(** [&T{...}]: a fresh object at the next free address. *)
Definition alloc (o : BaseInstance) : M addr :=
  fun s => Ret (length (heap s)) (mkState (heap s ++ [o]) (held s)).

Definition is_held (a : addr) (l : list addr) : bool := existsb (Nat.eqb a) l.

Definition release (a : addr) (l : list addr) : list addr :=
  List.filter (fun x => negb (Nat.eqb a x)) l.

(** [b.mu.Lock()] *)
Definition lock (a : addr) : M unit :=
  fun s => if is_held a (held s) then Deadlock
           else Ret tt (mkState (heap s) (a :: held s)).

(** [b.mu.Unlock()] *)
Definition unlock (a : addr) : M unit :=
  fun s => if is_held a (held s) then Ret tt (mkState (heap s) (release a (held s)))
           else Panic.

Fixpoint forM {A} (l : list A) (f : A -> M unit) : M unit :=
  match l with
  | [] => ret tt
  | x :: l' => f x ;;; forM l' f
  end.

(** *** instance.go *)

Definition NewBaseInstance_obj (cn : string) : BaseInstance :=
  mkBaseInstance cn None (Some []) cn "" None.

Definition NewBaseInstance (cn : string) : M addr :=
  alloc (NewBaseInstance_obj cn).

Definition GetName (b : addr) : M string :=
  let* o := load b in ret (name o).

Definition SetName (b : addr) (n : string) : M unit :=
  update b (fun o => with_name o n).

Definition GetClassName (b : addr) : M string :=
  let* o := load b in ret (className o).

Definition GetParent (b : addr) : M Instance :=
  let* o := load b in ret (parent o).

Definition addChild (b : addr) (child : Ref) : M unit :=
  lock b ;;;
  update b (fun o => with_children o (Some (elems (children o) ++ [child]))) ;;;
  unlock b.

(** The loop of [removeChild]: drop the first element equal to [child]. *)
Fixpoint remove_first (child : Ref) (l : list Ref) : list Ref :=
  match l with
  | [] => []
  | c :: l' => if Ref_eqb c child then l' else c :: remove_first child l'
  end.

Definition removeChild (b : addr) (child : Ref) : M unit :=
  lock b ;;;
  update b (fun o =>
    if existsb (fun c => Ref_eqb c child) (elems (children o))
    then with_children o (Some (remove_first child (elems (children o))))
    else o) ;;;
  unlock b.

Definition GetChildren (b : addr) : M (list Ref) :=
  lock b ;;;
  let* o := load b in
  unlock b ;;;
  ret (elems (children o)).

Definition SetParent (b : addr) (newParent : Instance) : M unit :=
  lock b ;;;
  let* o := load b in
  match parent o with
  | Some p =>
      match asBase p with
      | Some pbase => removeChild pbase (iface b)
      | None =>
          let* cs := GetChildren (raddr p) in
          let newChildren := List.filter (fun c => negb (Ref_eqb c (iface b))) cs in
          match asBase p with
          | Some pbase2 =>
              update pbase2 (fun po => with_children po (Some newChildren))
          | None => ret tt
          end
      end
  | None => ret tt
  end ;;;
  update b (fun o' => with_parent o' newParent) ;;;
  match newParent with
  | Some p =>
      match asBase p with
      | Some pbase => addChild pbase (iface b)
      | None => ret tt
      end
  | None => ret tt
  end ;;;
  unlock b.

(** First element of [cs] whose name is [n]; [c.GetName()] reads the heap. *)
Fixpoint find_by_name (n : string) (cs : list Ref) : M Instance :=
  match cs with
  | [] => ret None
  | c :: cs' =>
      let* cn := GetName (raddr c) in
      if String.eqb cn n then ret (Some c) else find_by_name n cs'
  end.

Definition FindFirstChild (b : addr) (n : string) : M Instance :=
  lock b ;;;
  let* o := load b in
  let* r := find_by_name n (elems (children o)) in
  unlock b ;;;
  ret r.

Fixpoint Destroy (fuel : nat) (b : addr) : M unit :=
  match fuel with
  | O => fun _ => OutOfFuel
  | S fuel' =>
      lock b ;;;
      let* o := load b in
      let childrenCopy := elems (children o) in
      unlock b ;;;
      forM childrenCopy (fun child => Destroy fuel' (raddr child)) ;;;
      let* o1 := load b in
      match parent o1 with
      | Some p =>
          match asBase p with
          | Some pbase => removeChild pbase (iface b)
          | None => ret tt
          end
      | None => ret tt
      end ;;;
      lock b ;;;
      update b (fun o2 => with_children (with_parent o2 None) None) ;;;
      unlock b
  end.

(** The loops of the two traversals: each child, then what [rec] finds
    below it. *)
Fixpoint collect (rec : Ref -> M (list Ref)) (cs : list Ref) : M (list Ref) :=
  match cs with
  | [] => ret []
  | c :: cs' =>
      let* ds := rec c in
      let* rest := collect rec cs' in
      ret (c :: ds ++ rest)
  end.

Fixpoint getDescendantsInterface (fuel : nat) (inst : Ref) : M (list Ref) :=
  match fuel with
  | O => fun _ => OutOfFuel
  | S fuel' =>
      let* cs := GetChildren (raddr inst) in
      collect (getDescendantsInterface fuel') cs
  end.

Fixpoint GetDescendants (fuel : nat) (b : addr) : M (list Ref) :=
  match fuel with
  | O => fun _ => OutOfFuel
  | S fuel' =>
      lock b ;;;
      let* o := load b in
      let childrenCopy := elems (children o) in
      unlock b ;;;
      collect (fun child =>
                 match asBase child with
                 | Some bi => GetDescendants fuel' bi
                 | None => getDescendantsInterface fuel' child
                 end) childrenCopy
  end.

(** *** Part.go and Werkzeug: the embedding subclasses

    [f := &Part{}] allocates a zero value; the constructor then fills the
    embedded base and returns the [*Part] as an [Instance].  The float
    vectors of [Part] and the [Meta] string of [Werkzeug] play no role in
    the tree operations and are left out. *)

Definition zero_BaseInstance : BaseInstance :=
  mkBaseInstance "" None None "" "" None.

Definition NewPart : M Instance :=
  let* f := alloc zero_BaseInstance in
  update f (fun o => with_name o "ExamplePart") ;;;
  update f (fun o => with_className o "Part") ;;;
  update f (fun o => with_children o (Some [])) ;;;
  update f (fun o => mkBaseInstance (name o) (parent o) (children o)
                       (className o) (localId o) (Some (mkRef KPart f))) ;;;
  ret (Some (mkRef KPart f)).

Definition NewWerkzeug : M Instance :=
  let* f := alloc zero_BaseInstance in
  update f (fun o => with_name o "werkzeug") ;;;
  update f (fun o => with_className o "Workspace") ;;;
  update f (fun o => with_children o (Some [])) ;;;
  update f (fun o => mkBaseInstance (name o) (parent o) (children o)
                       (className o) (localId o) (Some (mkRef KWerkzeug f))) ;;;
  ret (Some (mkRef KWerkzeug f)).

(** *** instanceman.go *)

(** [func() Instance]: a constructor runs on the heap and returns an
    interface value (nil to signal failure). *)
Abbreviation InstanceConstructor := (State -> Outcome (option Ref)) (only parsing).

(** [sync.RWMutex] as seen by one goroutine; [RLocked n] is held by
    [n + 1] readers. *)
Inductive RWMutex := Unlocked | RLocked (more : nat) | WLocked.

Record instanceManager := mkInstanceManager {
  mu : RWMutex;
  registry : gmap string InstanceConstructor;
  root : Instance
}.

Definition with_mu (m : instanceManager) (l : RWMutex) : instanceManager :=
  mkInstanceManager l (registry m) (root m).

Definition with_registry (m : instanceManager)
    (r : gmap string InstanceConstructor) : instanceManager :=
  mkInstanceManager (mu m) r (root m).

Definition with_root (m : instanceManager) (r : Instance) : instanceManager :=
  mkInstanceManager (mu m) (registry m) r.

Definition RLock (m : instanceManager) : M instanceManager :=
  match mu m with
  | Unlocked => ret (with_mu m (RLocked 0))
  | RLocked n => ret (with_mu m (RLocked (S n)))
  | WLocked => fun _ => Deadlock
  end.

Definition RUnlock (m : instanceManager) : M instanceManager :=
  match mu m with
  | RLocked 0 => ret (with_mu m Unlocked)
  | RLocked (S n) => ret (with_mu m (RLocked n))
  | _ => fun _ => Panic
  end.

Definition Lock (m : instanceManager) : M instanceManager :=
  match mu m with
  | Unlocked => ret (with_mu m WLocked)
  | _ => fun _ => Deadlock
  end.

Definition Unlock (m : instanceManager) : M instanceManager :=
  match mu m with
  | WLocked => ret (with_mu m Unlocked)
  | _ => fun _ => Panic
  end.

(** Go's [error]: [None] is nil, [Some msg] an error value. *)
Abbreviation error := (option string) (only parsing).

Definition RegisterClass (m : instanceManager) (cn : string)
    (ctor : option InstanceConstructor) : M (error * instanceManager) :=
  match String.eqb cn "", ctor with
  | false, Some c =>
      let* m1 := Lock m in
      let m2 := with_registry m1 (<[cn := c]> (registry m1)) in
      let* m3 := Unlock m2 in
      ret (None, m3)
  | _, _ => ret (Some "invalid className or constructor", m)
  end.

Definition Create (m : instanceManager) (cn : string) : M Instance :=
  let* m1 := RLock m in
  let entry := registry m1 !! cn in
  let* m2 := RUnlock m1 in
  match entry with
  | None => ret None
  | Some ctor =>
      let* inst := ctor in
      match inst with
      | None => ret None
      | Some r =>
          match asBase r with
          | Some b =>
              let* o := load b in
              match children o with
              | None => update b (fun o' => with_children o' (Some []))
              | Some _ => ret tt
              end ;;;
              let* o1 := load b in
              (if String.eqb (className o1) ""
               then update b (fun o' => with_className o' cn)
               else ret tt) ;;;
              ret (Some r)
          | None => ret (Some r)
          end
      end
  end.

Definition CreateNamed (m : instanceManager) (cn n : string) : M Instance :=
  let* inst := Create m cn in
  match inst with
  | None => ret None
  | Some r => SetName (raddr r) n ;;; ret (Some r)
  end.

Definition GetRoot (m : instanceManager) : M (Instance * instanceManager) :=
  let* m1 := RLock m in
  let r := root m1 in
  let* m2 := RUnlock m1 in
  match r with
  | Some _ => ret (r, m2)
  | None =>
      let* m3 := Lock m2 in
      let* m4 := match root m3 with
                 | None =>
                     let* created := CreateNamed m3 "Instance" "Root" in
                     ret (with_root m3 created)
                 | Some _ => ret m3
                 end in
      let r' := root m4 in
      let* m5 := Unlock m4 in
      ret (r', m5)
  end.

Definition SetRoot (m : instanceManager) (r : Instance) : M instanceManager :=
  let* m1 := Lock m in
  Unlock (with_root m1 r).

(** [strings.Split(s, sep)] for a one-byte separator. *)
Fixpoint Split (s : string) (sep : ascii) : list string :=
  match s with
  | EmptyString => [""]
  | String c s' =>
      if Ascii.eqb c sep then "" :: Split s' sep
      else match Split s' sep with
           | w :: ws => String c w :: ws
           | [] => [String c ""]
           end
  end.

(** The [for _, part := range parts[1:]] loop of [FindByPath]. *)
Fixpoint walk (parts : list string) (cur : Instance) : M Instance :=
  match parts with
  | [] => ret cur
  | part :: rest =>
      match cur with
      | None => ret None
      | Some c =>
          let* nxt := FindFirstChild (raddr c) part in
          walk rest nxt
      end
  end.

Definition FindByPath (m : instanceManager) (path : string)
    : M (Instance * instanceManager) :=
  if String.eqb path "" then ret (None, m)
  else
    let parts := Split path "." in
    let* rm := GetRoot m in
    match fst rm with
    | None => ret (None, snd rm)
    | Some rt =>
        let* rn := GetName (raddr rt) in
        let* cur := if negb (String.eqb rn (hd "" parts))
                    then FindFirstChild (raddr rt) (hd "" parts)
                    else ret (Some rt) in
        match cur with
        | None => ret (None, snd rm)
        | Some _ =>
            let* res := walk (tl parts) cur in
            ret (res, snd rm)
        end
    end.

(** [NewInstanceManager]: an empty registry with the base class. *)
Definition ctor_Instance : InstanceConstructor :=
  let* b := NewBaseInstance "Instance" in
  update b (fun o => with_name o "Instance") ;;;
  ret (Some (iface b)).

Definition NewInstanceManager : instanceManager :=
  mkInstanceManager Unlocked {[ "Instance" := ctor_Instance ]} None.

(** *** Clone (instance.go), which reads the package variable
    [DefaultInstanceManager], here the parameter [dim]. *)
Fixpoint Clone (dim : option instanceManager) (fuel : nat) (b : addr)
    : M Instance :=
  match fuel with
  | O => fun _ => OutOfFuel
  | S fuel' =>
      match dim with
      | Some m =>
          let* o := load b in
          let* created := Create m (className o) in
          let* inst := match created with
                       | Some r => ret r
                       | None =>
                           let* nb := NewBaseInstance (className o) in
                           ret (iface nb)
                       end in
          let* o1 := load b in
          SetName (raddr inst) (name o1) ;;;
          let* cs := GetChildren b in
          forM cs (fun child =>
                     let* cc := Clone dim fuel' (raddr child) in
                     match cc with
                     | Some c => SetParent (raddr c) (Some inst)
                     | None => ret tt
                     end) ;;;
          ret (Some inst)
      | None =>
          let* o := load b in
          let* clone := NewBaseInstance (className o) in
          let* o1 := load b in
          update clone (fun c => with_name c (name o1)) ;;;
          let* cs := GetChildren b in
          forM cs (fun child =>
                     let* cc := Clone dim fuel' (raddr child) in
                     match cc with
                     | Some c => SetParent (raddr c) (Some (iface clone))
                     | None => ret tt
                     end) ;;;
          ret (Some (iface clone))
      end
  end.

(* ===================================================================== *)
(** ** Package network                                                   *)
(* ===================================================================== *)

(** A [net.Conn] as one end of a byte stream: the bytes written so far, the
    bytes still to be read (the whole rest of the stream up to its end),
    whether the socket was closed on this side, and whether writes fail
    (the peer is gone).  Bytes are integers in [0, 256). *)
Record Conn := mkConn {
  sent : list Z;
  pending : list Z;
  closed : bool;
  broken : bool
}.

(** What the calling goroutine does to the outside world, in program order.
    [AGoCloseEvents] is the start of the goroutine of [Close] that sleeps
    and then closes the [Events] channel. *)
Inductive Action :=
| ADial (host : string) (port : Z)
| AGoReadLoop
| AWrite (bs : list Z)
| AClose
| AGoCloseEvents.

(** [conn.Write(bs)] *)
Definition Write (c : Conn) (bs : list Z) : error * Conn * list Action :=
  if closed c || broken c then (Some "write failed", c, [])
  else (None, mkConn (sent c ++ bs) (pending c) (closed c) (broken c), [AWrite bs]).

(** [conn.Close()] *)
Definition Close_conn (c : Conn) : Conn :=
  mkConn (sent c) (pending c) true (broken c).

(** [io.ReadFull(r, buf)] for a buffer of [n] bytes: the bytes and the rest
    of the stream, or an error when the socket is closed or the stream ends
    first. *)
Definition ReadFull (c : Conn) (n : nat) : option (list Z * Conn) :=
  if closed c then None
  else if Nat.leb n (length (pending c))
       then Some (firstn n (pending c),
                  mkConn (sent c) (skipn n (pending c)) (closed c) (broken c))
       else None.

(** The conversion [uint32(x)] and [byte(x)]. *)
Definition uint32 (x : Z) : Z := (x mod 2 ^ 32)%Z.

Definition byte (x : Z) : Z := Z.land x 255.

(** [binary.BigEndian.PutUint32] and [binary.BigEndian.Uint32]. *)
Definition PutUint32 (v : Z) : list Z :=
  [ byte (Z.shiftr v 24); byte (Z.shiftr v 16); byte (Z.shiftr v 8); byte v ].

Definition Uint32 (b : list Z) : Z :=
  match b with
  | [b0; b1; b2; b3] =>
      Z.lor (Z.lor (Z.lor b3 (Z.shiftl b2 8)) (Z.shiftl b1 16)) (Z.shiftl b0 24)
  | _ => 0%Z
  end.

Record PacketEvent := mkPacketEvent {
  PType : Z;
  PSub : Z;
  Payload : list Z;
  Client : option nat      (* the accepting handle, nil in client mode *)
}.

Record ClientConn := mkClientConn {
  cc_conn : option Conn
}.

(** The fields of [NetworkManager] the client path and the read loop use.
    [wg] counts the goroutines added to the wait group; [cancelled] is
    [ctx.Err() != nil]; [Events] is the channel's content, oldest first;
    [dm] stands for the stored datamodel. *)
Record NetworkManager := mkNetworkManager {
  conn : option Conn;
  dm : option instanceManager;
  wg : nat;
  cancelled : bool;
  Events : list PacketEvent
}.

Definition with_conn (nm : NetworkManager) (c : option Conn) : NetworkManager :=
  mkNetworkManager c (dm nm) (wg nm) (cancelled nm) (Events nm).

(** The three writes of a frame on [c] ([sendMu] brackets them; with one
    sender it is free on entry and free again on return). *)
Definition write_frame (c : Conn) (ptype psub : Z) (payload : list Z)
    : error * Conn * list Action :=
  let bodyLen := (2 + Z.of_nat (length payload))%Z in
  let header := PutUint32 (uint32 bodyLen) in
  match Write c header with
  | (Some e, c1, t1) => (Some e, c1, t1)
  | (None, c1, t1) =>
      match Write c1 [ptype; psub] with
      | (Some e, c2, t2) => (Some e, c2, t1 ++ t2)
      | (None, c2, t2) =>
          if Nat.ltb 0 (length payload)
          then match Write c2 payload with
               | (e, c3, t3) => (e, c3, t1 ++ t2 ++ t3)
               end
          else (None, c2, t1 ++ t2)
      end
  end.

(** [ClientConn.SendPacket] *)
Definition ClientConn_SendPacket (c : option ClientConn) (ptype psub : Z)
    (payload : list Z) : error * option ClientConn * list Action :=
  match c with
  | None => (Some "client not connected", c, [])
  | Some cc =>
      match cc_conn cc with
      | None => (Some "client not connected", c, [])
      | Some k =>
          match write_frame k ptype psub payload with
          | (e, k', t) => (e, Some (mkClientConn (Some k')), t)
          end
      end
  end.

(** [NetworkManager.SendPacket] *)
Definition NetworkManager_SendPacket (nm : option NetworkManager)
    (ptype psub : Z) (payload : list Z)
    : error * option NetworkManager * list Action :=
  match nm with
  | None => (Some "nil NetworkManager", nm, [])
  | Some m =>
      match conn m with
      | None => (Some "not connected", nm, [])
      | Some k =>
          match write_frame k ptype psub payload with
          | (e, k', t) => (e, Some (with_conn m (Some k')), t)
          end
      end
  end.

(** [NetworkManager.Close] on the client path: cancel, close the dialed
    socket, start the goroutine that closes [nm.Events] after a pause, wait
    for the readers.  The channel is not yet closed when [Close] returns:
    that is the work of the goroutine, [close_Events] below. *)
Definition NetworkManager_Close (nm : NetworkManager)
    : NetworkManager * list Action :=
  match conn nm with
  | Some k =>
      (mkNetworkManager (Some (Close_conn k)) (dm nm) 0 true (Events nm),
       [AClose; AGoCloseEvents])
  | None =>
      (mkNetworkManager None (dm nm) 0 true (Events nm), [AGoCloseEvents])
  end.



(** [[]byte(key)] *)
Definition bytes_of_string (s : string) : list Z :=
  map (fun c => Z.of_N (N_of_ascii c)) (list_ascii_of_string s).

(** [NetworkManager.Connect]; [dial] is the network: what [net.Dial]
    answers for a host and port. *)
Definition Connect (dial : string -> Z -> option Conn)
    (nm : option NetworkManager) (key : string)
    (datamodel : option instanceManager) (host : string) (port : Z)
    : error * option NetworkManager * list Action :=
  match nm with
  | None => (Some "nil NetworkManager", nm, [])
  | Some m =>
      match dial host port with
      | None => (Some "dial failed", nm, [ADial host port])
      | Some k =>
          let m1 := mkNetworkManager (Some k) datamodel (wg m) (cancelled m) (Events m) in
          let m2 := mkNetworkManager (conn m1) (dm m1) (S (wg m1)) (cancelled m1) (Events m1) in
          match NetworkManager_SendPacket (Some m2) 0 1 (bytes_of_string key) with
          | (Some e, Some m3, t) =>
              let '(m4, t') := NetworkManager_Close m3 in
              (Some "handshake send failed", Some m4,
               [ADial host port; AGoReadLoop] ++ t ++ t')
          | (Some e, None, t) =>
              (Some "handshake send failed", None,
               [ADial host port; AGoReadLoop] ++ t)
          | (None, m3, t) => (None, m3, [ADial host port; AGoReadLoop] ++ t)
          end
      end
  end.

(** How [readLoop] ends. *)
Inductive LoopExit :=
| ExitCancelled       (* [ctx.Done()] *)
| ExitHeaderError     (* the header read failed: end of stream *)
| ExitInvalidLength   (* a length field below 2 *)
| ExitBodyError       (* the body read failed *)
| ExitNoFuel.

(** [NetworkManager.readLoop] on socket [r]: the events pushed, the
    socket as the loop leaves it, and why it left.  Every round reads at
    least six bytes, so [S (length (pending r))] rounds are enough. *)
Fixpoint readLoop_rounds (fuel : nat) (cancelled : bool) (r : Conn)
    (client : option nat) : list PacketEvent * Conn * LoopExit :=
  match fuel with
  | O => ([], r, ExitNoFuel)
  | S fuel' =>
      if cancelled then ([], r, ExitCancelled)
      else
        match ReadFull r 4 with
        | None => ([], Close_conn r, ExitHeaderError)
        | Some (lenBuf, r1) =>
            let bodyLen := Uint32 lenBuf in
            if Z.ltb bodyLen 2 then ([], Close_conn r1, ExitInvalidLength)
            else
              match ReadFull r1 (Z.to_nat bodyLen) with
              | None => ([], Close_conn r1, ExitBodyError)
              | Some (body, r2) =>
                  let evt := mkPacketEvent (nth 0 body 0%Z) (nth 1 body 0%Z)
                               (skipn 2 body) client in
                  let '(evts, r3, ex) :=
                    readLoop_rounds fuel' cancelled r2 client in
                  (evt :: evts, r3, ex)
              end
        end
  end.

Definition readLoop (cancelled : bool) (r : Conn) (client : option nat)
    : list PacketEvent * Conn * LoopExit :=
  readLoop_rounds (S (length (pending r))) cancelled r client.

(* ===================================================================== *)
(** ** Definitions for the statements                                    *)
(* ===================================================================== *)

(** *** Running the primitives *)

#[global] Arguments is_held : simpl never.

#[global] Arguments release : simpl never.

(** The value a call returns, when it returns. *)
Definition result {A} (r : Outcome A) : option A :=
  match r with
  | Ret x _ => Some x
  | _ => None
  end.

#[global] Instance Kind_eq_dec : EqDecision Kind.
Proof. solve_decision. Defined.

#[global] Instance Ref_eq_dec : EqDecision Ref.
Proof. solve_decision. Defined.

(** What [removeChild] leaves in the parent's record. *)
Definition without_child (o : BaseInstance) (child : Ref) : BaseInstance :=
  if existsb (fun c => Ref_eqb c child) (elems (children o))
  then with_children o (Some (remove_first child (elems (children o))))
  else o.

(** *** The registry: RegisterClass and Create *)

(** The record [Create] leaves behind for a plain base node. *)
Definition backfilled (cn : string) (o : BaseInstance) : BaseInstance :=
  mkBaseInstance (name o) (parent o) (Some (elems (children o)))
    (if String.eqb (className o) "" then cn else className o)
    (localId o) (this o).

(** A constructor registered under one name that builds a plain base node
    carrying another class name. *)
Definition ctor_Bar : InstanceConstructor :=
  let* b := NewBaseInstance "Bar" in ret (Some (iface b)).






(** *** Path lookup *)

(** Every reference stored in a child list points into the heap (Go has no
    dangling pointers). *)
Definition closedb (h : Heap) : bool :=
  forallb (fun o => forallb (fun c => Nat.ltb (raddr c) (length h)) (elems (children o))) h.

(** The resolution the specification describes, read off the heap: the name
    of a node, the first child with a given name, the descent through the
    remaining segments (nil as soon as one segment finds nothing), and the
    first segment tried against the root's own name. *)
Definition name_of (h : Heap) (r : Ref) : string :=
  match h !! raddr r with
  | Some o => name o
  | None => ""
  end.

Definition child_named (h : Heap) (b : addr) (n : string) : Instance :=
  match h !! b with
  | Some o => List.find (fun c => String.eqb (name_of h c) n) (elems (children o))
  | None => None
  end.

Fixpoint descend (h : Heap) (cur : Instance) (parts : list string) : Instance :=
  match parts with
  | [] => cur
  | part :: rest =>
      match cur with
      | None => None
      | Some c => descend h (child_named h (raddr c) part) rest
      end
  end.

Definition resolve_path (h : Heap) (rt : Ref) (path : string) : Instance :=
  if String.eqb path "" then None
  else
    let parts := Split path "." in
    descend h
      (if String.eqb (name_of h rt) (hd "" parts) then Some rt
       else child_named h (raddr rt) (hd "" parts))
      (tl parts).

(** The tree of the path scenario, built with the package's own operations:
    a root named "Root", its child "A", and "B" below "A". *)
Definition build_Root_A_B : M unit :=
  let* r := NewBaseInstance "Instance" in
  SetName r "Root" ;;;
  let* a := NewBaseInstance "Instance" in
  SetName a "A" ;;;
  SetParent a (Some (iface r)) ;;;
  let* b := NewBaseInstance "Instance" in
  SetName b "B" ;;;
  SetParent b (Some (iface a)).

Definition tree_Root_A_B : State :=
  mkState
    [ mkBaseInstance "Root" None (Some [iface 1]) "Instance" "" None;
      mkBaseInstance "A" (Some (iface 0)) (Some [iface 2]) "Instance" "" None;
      mkBaseInstance "B" (Some (iface 1)) (Some []) "Instance" "" None ]
    [].

(** *** Reparenting *)

Definition add_child (child : Ref) (o : BaseInstance) : BaseInstance :=
  with_children o (Some (elems (children o) ++ [child])).

(** The heap [SetParent] leaves, phase by phase: the node is taken out of
    the child list of its old parent when that parent is held as a base
    pointer, its parent field is overwritten, and it is appended to the child
    list of the new parent when that one is a base pointer. *)
Definition detach (h : Heap) (a : addr) : Heap :=
  match h !! a with
  | Some oa =>
      match parent oa with
      | Some p =>
          match asBase p with
          | Some pb => alter (fun o => without_child o (iface a)) pb h
          | None => h
          end
      | None => h
      end
  | None => h
  end.

Definition attach (h : Heap) (a : addr) (np : Instance) : Heap :=
  match np with
  | Some p =>
      match asBase p with
      | Some b => alter (add_child (iface a)) b h
      | None => h
      end
  | None => h
  end.

Definition SetParent_heap (h : Heap) (a : addr) (np : Instance) : Heap :=
  attach (alter (fun o => with_parent o np) a (detach h a)) a np.

(** The parent pointer of [a] points into the heap and not at [a] itself. *)
Definition parent_okb (h : Heap) (a : addr) : bool :=
  match h !! a with
  | Some oa =>
      match parent oa with
      | Some p => negb (Nat.eqb (raddr p) a) && Nat.ltb (raddr p) (length h)
      | None => true
      end
  | None => false
  end.

(** A usable new parent for [a]: nil, or a node of the heap other than [a]. *)
Definition target_okb (h : Heap) (a : addr) (np : Instance) : bool :=
  match np with
  | Some p => negb (Nat.eqb (raddr p) a) && Nat.ltb (raddr p) (length h)
  | None => true
  end.

(** The child list and the parent pointer of a node, read off the heap. *)
Definition kids (h : Heap) (q : addr) : list Ref :=
  match h !! q with
  | Some o => elems (children o)
  | None => []
  end.

Definition parent_of (h : Heap) (a : addr) : Instance :=
  match h !! a with
  | Some o => parent o
  | None => None
  end.

(** [a] is listed at most once, and only by the node its parent pointer
    names (as a base pointer). *)
Definition listed_okb (h : Heap) (a : addr) : bool :=
  forallb
    (fun q => Nat.leb (count_occ Ref_eq_dec (kids h q) (iface a))
                (if decide (parent_of h a = Some (iface q)) then 1 else 0))
    (seq 0 (length h)).

(** Two runs of [SetParent] on fresh nodes.  In the first the new parent is
    the [*Werkzeug] its constructor returned; in the second the child is the
    [*Part] its constructor returned and the parent a plain base node.  Each
    returns the parent's child list and the child's parent afterwards. *)
Definition reparent_under_Werkzeug : M (list Ref * Instance) :=
  let* a := NewBaseInstance "Instance" in
  let* w := NewWerkzeug in
  SetParent a w ;;;
  let* cs := match w with
             | Some r => GetChildren (raddr r)
             | None => ret []
             end in
  let* p := GetParent a in
  ret (cs, p).

Definition reparent_Part : M (Instance * list Ref) :=
  let* part := NewPart in
  let* b := NewBaseInstance "Instance" in
  match part with
  | Some r => SetParent (raddr r) (Some (iface b))
  | None => ret tt
  end ;;;
  let* cs := GetChildren b in
  ret (part, cs).

(** A parent with two children, the first of which is then given the same
    parent again; the child list before and after. *)
Definition reparent_same_parent : M (list Ref * list Ref) :=
  let* p := NewBaseInstance "Instance" in
  let* a := NewBaseInstance "Instance" in
  let* c := NewBaseInstance "Instance" in
  SetParent a (Some (iface p)) ;;;
  SetParent c (Some (iface p)) ;;;
  let* before := GetChildren p in
  SetParent a (Some (iface p)) ;;;
  let* after := GetChildren p in
  ret (before, after).

(** A part made its own parent through the handle its constructor
    returned, and the same part then given a plain base node as parent. *)
Definition self_parent_Part : M (option Ref) :=
  let* part := NewPart in
  match part with
  | Some r => SetParent (raddr r) (Some r) ;;; GetParent (raddr r)
  | None => ret None
  end.

Definition reparent_self_parented : M unit :=
  let* part := NewPart in
  let* b := NewBaseInstance "Instance" in
  match part with
  | Some r =>
      SetParent (raddr r) (Some r) ;;;
      SetParent (raddr r) (Some (iface b))
  | None => ret tt
  end.

(** A parent at 0 with the children 1 and 2, in this order. *)
Definition parent_with_two_children : State :=
  mkState
    [ mkBaseInstance "P" None (Some [iface 1; iface 2]) "Instance" "" None;
      mkBaseInstance "A" (Some (iface 0)) (Some []) "Instance" "" None;
      mkBaseInstance "C" (Some (iface 0)) (Some []) "Instance" "" None ]
    [].

(** *** Framing *)

(** The bytes of one frame, as [write_frame] puts them on the wire. *)
Definition frame_bytes (ptype psub : Z) (payload : list Z) : list Z :=
  PutUint32 (uint32 (2 + Z.of_nat (length payload))) ++ [ptype; psub] ++ payload.

(** *** Connect and the unconnected senders *)

Definition is_go (a : Action) : bool :=
  match a with AGoReadLoop => true | _ => false end.

Definition is_write (a : Action) : bool :=
  match a with AWrite _ => true | _ => false end.

Definition is_dial (a : Action) : bool :=
  match a with ADial _ _ => true | _ => false end.

(** Index of the first action of a kind in a trace. *)
Fixpoint position (P : Action -> bool) (tr : list Action) : option nat :=
  match tr with
  | [] => None
  | a :: tr' => if P a then Some 0 else option_map S (position P tr')
  end.

Definition count_actions (P : Action -> bool) (tr : list Action) : nat :=
  length (List.filter P tr).

Definition trace_of {A B} (r : A * B * list Action) : list Action := snd r.

(** A dial that succeeds with a fresh open socket. *)
Definition dial_ok (host : string) (port : Z) : option Conn :=
  Some (mkConn [] [] false false).

Definition idle_manager : NetworkManager :=
  mkNetworkManager None None 0 false [].

(** *** Traversal *)

(** The list [GetDescendants] returns, computed on the heap alone: each
    child followed by its own descendants, in child order.  [None] when the
    bound is reached or a reference dangles. *)
Fixpoint desc_list (rec : addr -> option (list Ref)) (cs : list Ref)
    : option (list Ref) :=
  match cs with
  | [] => Some []
  | c :: cs' =>
      match rec (raddr c) with
      | Some ds =>
          match desc_list rec cs' with
          | Some rest => Some (c :: ds ++ rest)
          | None => None
          end
      | None => None
      end
  end.

Fixpoint desc (fuel : nat) (h : Heap) (b : addr) : option (list Ref) :=
  match fuel with
  | O => None
  | S fuel' =>
      match h !! b with
      | Some o => desc_list (desc fuel' h) (elems (children o))
      | None => None
      end
  end.

(** *** Destroy *)

(** A node that no longer points at a parent and lists no children. *)
Definition dead (h : Heap) (y : addr) : Prop :=
  parent_of h y = None /\ kids h y = [].

(** Below the nodes [ys], children are held as base pointers and point
    back at the node that lists them. *)
Definition tree_links (h : Heap) (ys : list addr) : Prop :=
  forall y c, In y ys -> In c (kids h y) ->
    rkind c = KBase /\ parent_of h (raddr c) = Some (iface y).

Definition parent_valid (h : Heap) (n : addr) : Prop :=
  forall p, parent_of h n = Some p -> raddr p <> n /\ raddr p < length h.

(** What [Destroy] with bound [f] does to a tree-shaped subtree: the call
    returns; the node and its descendants end up dead; outside the subtree
    parent pointers stay, and records stay too, except that the node named
    by the parent pointer loses (the first occurrence of) the node from its
    child list. *)
Definition Destroy_spec (f : nat) : Prop :=
  forall s n ds,
    held s = [] ->
    desc f (heap s) n = Some ds ->
    NoDup (n :: map raddr ds) ->
    tree_links (heap s) (n :: map raddr ds) ->
    parent_valid (heap s) n ->
    exists h',
      Destroy f n s = Ret tt (mkState h' []) /\
      length h' = length (heap s) /\
      (forall y, In y (n :: map raddr ds) -> dead h' y) /\
      (forall y, ~ In y (n :: map raddr ds) ->
                 parent_of h' y = parent_of (heap s) y) /\
      (forall y, ~ In y (n :: map raddr ds) ->
                 parent_of (heap s) n <> Some (iface y) ->
                 h' !! y = heap s !! y) /\
      (forall y, ~ In y (n :: map raddr ds) ->
                 parent_of (heap s) n = Some (iface y) ->
                 kids h' y = remove_first (iface n) (kids (heap s) y)).

(** The record [Destroy] leaves in place of the node. *)
Definition cleared (o : BaseInstance) : BaseInstance :=
  with_children (with_parent o None) None.

(** The heap is consistent: every listed child is held as a base pointer
    whose parent pointer names the lister, and no list repeats a child. *)
Definition child_okb (h : Heap) (q : addr) (c : Ref) : bool :=
  Kind_eqb (rkind c) KBase &&
  match parent_of h (raddr c) with
  | Some p => Ref_eqb p (iface q)
  | None => false
  end.

Fixpoint nodupb (l : list Ref) : bool :=
  match l with
  | [] => true
  | x :: l' => negb (existsb (Ref_eqb x) l') && nodupb l'
  end.

Definition consistentb (h : Heap) : bool :=
  forallb (fun q => forallb (child_okb h q) (kids h q) && nodupb (kids h q))
    (seq 0 (length h)).

(** *** Clone *)

(** The subtree below a node as a value: every node with its address, class
    name and name, children in list order.  [Shape] forgets the addresses:
    two subtrees are isomorphic when their shapes are equal. *)
Unset Elimination Schemes.

Inductive ATree := ANode (a : addr) (cn nm : string) (sub : list ATree).

Inductive Shape := SNode (cn nm : string) (sub : list Shape).

Set Elimination Schemes.

Fixpoint erase (t : ATree) : Shape :=
  match t with
  | ANode _ cn nm sub => SNode cn nm (map erase sub)
  end.

Fixpoint addrs (t : ATree) : list addr :=
  match t with
  | ANode a _ _ sub => a :: flat_map addrs sub
  end.

Fixpoint atree_list (rec : addr -> option ATree) (cs : list Ref)
    : option (list ATree) :=
  match cs with
  | [] => Some []
  | c :: cs' =>
      match rec (raddr c) with
      | Some t =>
          match atree_list rec cs' with
          | Some ts => Some (t :: ts)
          | None => None
          end
      | None => None
      end
  end.

Fixpoint atree (fuel : nat) (h : Heap) (b : addr) : option ATree :=
  match fuel with
  | O => None
  | S fuel' =>
      match h !! b with
      | Some o =>
          match atree_list (atree fuel' h) (elems (children o)) with
          | Some ts => Some (ANode b (className o) (name o) ts)
          | None => None
          end
      | None => None
      end
  end.

(** What the traversal reads of a record. *)
Definition view (h : Heap) (y : addr) : option (string * string * list Ref) :=
  match h !! y with
  | Some o => Some (className o, name o, elems (children o))
  | None => None
  end.

(** A registered constructor that allocates one fresh plain base node, with
    no parent and no children, tagged with the registered class name or
    left untagged. *)
Definition plain_ctor (cn : string) (c : InstanceConstructor) : Prop :=
  forall s, exists o,
    c s = Ret (Some (iface (length (heap s)))) (mkState (heap s ++ [o]) (held s)) /\
    parent o = None /\
    elems (children o) = [] /\
    (className o = "" \/ className o = cn).

(** [DefaultInstanceManager] is nil, or its mutex is not write-locked and
    all its constructors are plain. *)
Definition manager_ok (dim : option instanceManager) : Prop :=
  match dim with
  | None => True
  | Some m =>
      mu m <> WLocked /\
      forall cn c, registry m !! cn = Some c -> plain_ctor cn c
  end.

(** The body of the loop in [Clone]. *)
Definition clone_child (dim : option instanceManager) (f : nat) (inst : Ref)
    (child : Ref) : M unit :=
  let* cc := Clone dim f (raddr child) in
  match cc with
  | Some c => SetParent (raddr c) (Some inst)
  | None => ret tt
  end.

(** What [Clone] with bound [f] does on a source subtree [t]: it returns the
    base pointer of a node allocated at the first free address; the old part
    of the heap is as before; the new node has no parent; the subtree below
    it has the shape of [t] and lies in the newly allocated part. *)
Definition Clone_spec (dim : option instanceManager) (f : nat) : Prop :=
  forall s b t,
    held s = [] ->
    atree f (heap s) b = Some t ->
    exists h' t',
      Clone dim f b s = Ret (Some (iface (length (heap s)))) (mkState h' []) /\
      length (heap s) < length h' /\
      (forall y, y < length (heap s) -> h' !! y = heap s !! y) /\
      parent_of h' (length (heap s)) = None /\
      atree f h' (length (heap s)) = Some t' /\
      erase t' = erase t /\
      (forall x, In x (addrs t') -> length (heap s) <= x).

(** Two clones through a default manager with one more registration.  In
    the first, "Foo" is registered with a constructor that tags its nodes
    "Bar", and a node of class "Foo" is cloned.  In the second, "Workspace"
    is registered with [NewWerkzeug], a workspace gets one child (through
    the base pointer, as the tree hands it out) and is cloned; the result is
    the child list of the source and that of the clone. *)
Definition clone_Foo : M (string * string) :=
  let* em := RegisterClass NewInstanceManager "Foo" (Some ctor_Bar) in
  let* n := NewBaseInstance "Foo" in
  let* c := Clone (Some (snd em)) 1 n in
  let* src := GetClassName n in
  match c with
  | Some r => let* cn := GetClassName (raddr r) in ret (src, cn)
  | None => ret (src, "")
  end.

Definition clone_Workspace : M (list Ref * list Ref) :=
  let* em := RegisterClass NewInstanceManager "Workspace" (Some NewWerkzeug) in
  let* w := NewWerkzeug in
  let* c := NewBaseInstance "Instance" in
  match w with
  | Some wr =>
      SetParent c (Some (iface (raddr wr))) ;;;
      let* cl := Clone (Some (snd em)) 2 (raddr wr) in
      let* src := GetChildren (raddr wr) in
      match cl with
      | Some r => let* ks := GetChildren (raddr r) in ret (src, ks)
      | None => ret (src, [])
      end
  | None => ret ([], [])
  end.

(* ===================================================================== *)
(** ** Further functions of the two packages                             *)
(* ===================================================================== *)

(** *** instance.go: identifiers, lookup by class, full names *)

Definition SetId (b : addr) (id : string) : M unit :=
  update b (fun o => mkBaseInstance (name o) (parent o) (children o)
                       (className o) id (this o)).

Definition GetId (b : addr) : M string :=
  let* o := load b in ret (localId o).

(** First element of [cs] whose class name is [n]; the call of
    [log.Print] on the match leaves the heap alone. *)
Fixpoint find_by_class (n : string) (cs : list Ref) : M Instance :=
  match cs with
  | [] => ret None
  | c :: cs' =>
      let* cn := GetClassName (raddr c) in
      if String.eqb cn n then ret (Some c) else find_by_class n cs'
  end.

Definition FindFirstChildOfClass (b : addr) (n : string) : M Instance :=
  lock b ;;;
  let* o := load b in
  let* r := find_by_class n (elems (children o)) in
  unlock b ;;;
  ret r.

(** [GetFullName] takes no lock and follows the parent pointers up; the
    bound is on the length of the chain. *)
Fixpoint GetFullName (fuel : nat) (b : addr) : M string :=
  match fuel with
  | O => fun _ => OutOfFuel
  | S fuel' =>
      let* o := load b in
      match parent o with
      | None => ret (name o)
      | Some p =>
          let* pn := GetFullName fuel' (raddr p) in
          let* o1 := load b in
          ret (pn ++ "." ++ name o1)%string
      end
  end.

(** *** instance.go: the filtered traversals *)

(** The loop [for _, child := range ... { result = append(result, rec(child)...) }]. *)
Fixpoint gather {A} (rec : Ref -> M (list A)) (cs : list Ref) : M (list A) :=
  match cs with
  | [] => ret []
  | c :: cs' =>
      let* xs := rec c in
      let* rest := gather rec cs' in
      ret (xs ++ rest)
  end.

Fixpoint getAllOfTypeInterface (fuel : nat) (inst : Ref) (cn : string)
    : M (list (option Ref)) :=
  match fuel with
  | O => fun _ => OutOfFuel
  | S fuel' =>
      let* c := GetClassName (raddr inst) in
      let result := if String.eqb c cn then [Some inst] else [] in
      let* cs := GetChildren (raddr inst) in
      let* rest := gather (fun child => getAllOfTypeInterface fuel' child cn) cs in
      ret (result ++ rest)
  end.

(** [GetAllOfType]: the node itself enters the result as its [this] field,
    whatever that holds. *)
Fixpoint GetAllOfType (fuel : nat) (b : addr) (cn : string)
    : M (list (option Ref)) :=
  match fuel with
  | O => fun _ => OutOfFuel
  | S fuel' =>
      lock b ;;;
      let* o := load b in
      let childrenCopy := elems (children o) in
      unlock b ;;;
      let* o1 := load b in
      let result := if String.eqb (className o1) cn then [this o1] else [] in
      let* rest :=
        gather (fun child =>
                  match asBase child with
                  | Some bi => GetAllOfType fuel' bi cn
                  | None => getAllOfTypeInterface fuel' child cn
                  end) childrenCopy in
      ret (result ++ rest)
  end.

(** The type assertion to the [Part] pointer type.  The constructors never
    store a nil pointer behind an interface, so a [Part] handle is a
    non-nil pointer. *)
Definition asPart (r : Ref) : option addr :=
  match rkind r with
  | KPart => Some (raddr r)
  | _ => None
  end.

(** [GetRenderables]: a list of [Part] pointers, given by their addresses. *)
Fixpoint GetRenderables (fuel : nat) (b : addr) : M (list addr) :=
  match fuel with
  | O => fun _ => OutOfFuel
  | S fuel' =>
      lock b ;;;
      let* o := load b in
      let childrenCopy := elems (children o) in
      unlock b ;;;
      let* o1 := load b in
      let result :=
        if String.eqb (className o1) "Part"
        then match this o1 with
             | Some t => match asPart t with
                         | Some p => [p]
                         | None => []
                         end
             | None => []
             end
        else [] in
      let* rest :=
        gather (fun child =>
                  match asBase child with
                  | Some bi => GetRenderables fuel' bi
                  | None =>
                      match asPart child with
                      | Some p => ret [p]
                      | None => ret []
                      end
                  end) childrenCopy in
      ret (result ++ rest)
  end.

(** *** instanceman.go: ListRegistered *)

(** The names come in the order the map is iterated in, which Go leaves
    open; only what does not depend on the order is stated about it. *)
Definition ListRegistered (m : instanceManager)
    : M (list string * instanceManager) :=
  let* m1 := RLock m in
  let out := fst <$> map_to_list (registry m1) in
  let* m2 := RUnlock m1 in
  ret (out, m2).

(** *** manager.go: the handler table *)

(** The conversion [uint16(x)]. *)
Definition uint16 (x : Z) : Z := (x mod 2 ^ 16)%Z.

(** [pktKey]: the type in the high byte, the subtype in the low byte; the
    shift is taken in 16 bits. *)
Definition pktKey (ptype psub : Z) : Z :=
  Z.lor (uint16 (Z.shiftl (uint16 ptype) 8)) (uint16 psub).

(** A [PacketHandler] is a Go function value: [None] is the nil function,
    [Some h] a function that is handed the datamodel, the payload and the
    client, and acts on the world [W] of the goroutine that calls it. *)
Abbreviation PacketHandler W :=
  (option (option instanceManager -> list Z -> option nat -> W -> W))
  (only parsing).

(** The [handlers] map of a [NetworkManager].  [handlersMu] brackets every
    access; followed from the one goroutine that owns the datamodel it is
    free on entry and free again on return. *)
Abbreviation Handlers W := (gmap Z (PacketHandler W)) (only parsing).

Definition RegisterHandler {W} (hs : Handlers W) (ptype psub : Z)
    (handler : PacketHandler W) : Handlers W :=
  <[pktKey ptype psub := handler]> hs.

Definition UnregisterHandler {W} (hs : Handlers W) (ptype psub : Z)
    : Handlers W :=
  delete (pktKey ptype psub) hs.

(** [InvokeHandler]: the world after the call, and whether the "no handler"
    line was logged.  Indexing a Go map with a missing key yields the zero
    value, here the nil function. *)
Definition InvokeHandler {W} (hs : Handlers W) (evt : PacketEvent)
    (dm : option instanceManager) (w : W) : W * bool :=
  match default None (hs !! pktKey (PType evt) (PSub evt)) with
  | Some h => (h dm (Payload evt) (Client evt) w, false)
  | None => (w, true)
  end.


(** *** datamodel.go *)

(** [log.Fatal] and [log.Fatalf] end the process. *)
Definition fatal {A} : M A := fun _ => Panic.

(** The constructor [InitManager] registers for "DataModel". *)
Definition ctor_DataModel : InstanceConstructor :=
  let* b := NewBaseInstance "DataModel" in ret (Some (iface b)).

(** [InitManager]; the package variable [Manager] it sets is the manager
    returned.  A method call on a nil interface panics. *)
Definition InitManager : M instanceManager :=
  let* em1 := RegisterClass NewInstanceManager "Workspace" (Some NewWerkzeug) in
  match fst em1 with
  | Some _ => fatal
  | None =>
      let* em2 := RegisterClass (snd em1) "DataModel" (Some ctor_DataModel) in
      match fst em2 with
      | Some _ => fatal
      | None =>
          let* em3 := RegisterClass (snd em2) "Part" (Some NewPart) in
          match fst em3 with
          | Some _ => fatal
          | None =>
              let* rt := CreateNamed (snd em3) "DataModel" "Root" in
              let* m := SetRoot (snd em3) rt in
              let* werkzeug := CreateNamed m "Workspace" "Werkzeug" in
              match werkzeug with
              | Some w => SetParent (raddr w) rt ;;; ret m
              | None => fun _ => Panic
              end
          end
      end
  end.

Definition CreateInstance (Manager : option instanceManager) (cn n : string)
    : M (option Ref) :=
  match Manager with
  | None => fatal
  | Some m => CreateNamed m cn n
  end.

(* ===================================================================== *)
(** ** Definitions for the further statements                            *)
(* ===================================================================== *)

(** *** Streams of frames *)

(** A packet as the senders take it: type, subtype, payload. *)
Abbreviation Packet := (Z * Z * list Z)%type (only parsing).

Definition frames (ps : list Packet) : list Z :=
  flat_map (fun p => frame_bytes (fst (fst p)) (snd (fst p)) (snd p)) ps.

Definition event_of (client : option nat) (p : Packet) : PacketEvent :=
  mkPacketEvent (fst (fst p)) (snd (fst p)) (snd p) client.

(** The body of a packet fits the 32-bit length field. *)
Definition fits (p : Packet) : Prop :=
  (2 + Z.of_nat (length (snd p)) < 2 ^ 32)%Z.

(** A caller that sends the packets one after the other and stops at the
    first error. *)
Fixpoint send_all (nm : option NetworkManager) (ps : list Packet)
    : error * option NetworkManager * list Action :=
  match ps with
  | [] => (None, nm, [])
  | p :: ps' =>
      match NetworkManager_SendPacket nm (fst (fst p)) (snd (fst p)) (snd p) with
      | (None, nm', t) =>
          let '(e, nm'', t') := send_all nm' ps' in (e, nm'', t ++ t')
      | (Some e, nm', t) => (Some e, nm', t)
      end
  end.


(** A byte. *)
Definition is_byte (x : Z) : Prop := (0 <= x < 256)%Z.

(** A dial that fails, and one that hands out a socket whose peer is gone. *)
Definition dial_refused (host : string) (port : Z) : option Conn := None.


(** *** Lookup by class and full names *)

Definition class_of (h : Heap) (r : Ref) : string :=
  match h !! raddr r with
  | Some o => className o
  | None => ""
  end.

(** A name without the path separator. *)
Definition no_dot (n : string) : bool :=
  forallb (fun c => negb (Ascii.eqb c ".")) (list_ascii_of_string n).

(** One step down a chain of nodes: the parent pointer of [c] names the
    node [p], the first child of [p] that carries the name of [c] is [c]
    itself, and that name holds no separator. *)
Definition link_okb (h : Heap) (p c : addr) : bool :=
  match parent_of h c with
  | Some r => Nat.eqb (raddr r) p
  | None => false
  end &&
  match child_named h p (name_of h (iface c)) with
  | Some r => Nat.eqb (raddr r) c
  | None => false
  end &&
  no_dot (name_of h (iface c)).

Fixpoint chain_okb (h : Heap) (p : addr) (rest : list addr) : bool :=
  match rest with
  | [] => true
  | c :: rest' => link_okb h p c && chain_okb h c rest'
  end.

(** The names along a chain, joined by dots. *)
Definition path_name (h : Heap) (rt : addr) (rest : list addr) : string :=
  fold_left (fun acc c => (acc ++ "." ++ name_of h (iface c))%string) rest
    (name_of h (iface rt)).

(** *** The filtered traversals *)

(** Every handle stored in a child list is a base pointer.  The code only
    ever appends the receiver of [SetParent] to a child list, so this holds
    of every heap it builds. *)
Definition basedb (h : Heap) : bool :=
  forallb (fun o => forallb (fun c => Kind_eqb (rkind c) KBase) (elems (children o))) h.

Definition this_of (h : Heap) (a : addr) : option Ref :=
  match h !! a with
  | Some o => this o
  | None => None
  end.

(** What a node contributes to [GetAllOfType]: its [this] field when its
    class matches; and what a list of nodes contributes. *)
Definition match_of (h : Heap) (cn : string) (r : Ref) : list (option Ref) :=
  if String.eqb (class_of h r) cn then [this_of h (raddr r)] else [].

Definition matching (h : Heap) (cn : string) (rs : list Ref)
    : list (option Ref) :=
  flat_map (match_of h cn) rs.

(** The [Part] pointer behind an interface value, if it holds one. *)
Definition part_ptr (x : option Ref) : list addr :=
  match x with
  | Some t => match asPart t with
              | Some p => [p]
              | None => []
              end
  | None => []
  end.

(** The start of the server program: the package initialiser of
    [instances] creates a node from the default manager, [InitManager]
    builds the root and the workspace, and [main] creates the part
    "baseplate" and puts it under the child of the root of class
    "Workspace". *)
Definition startup : M (instanceManager * option Ref) :=
  CreateNamed NewInstanceManager "Instance" "Root" ;;;
  let* m := InitManager in
  let* test := CreateInstance (Some m) "Part" "baseplate" in
  let* rm := GetRoot m in
  match fst rm, test with
  | Some rt, Some t =>
      let* ws := FindFirstChildOfClass (raddr rt) "Workspace" in
      SetParent (raddr t) ws ;;;
      ret (snd rm, test)
  | _, _ => fun _ => Panic
  end.

(** The heap [startup] leaves: the node of the package initialiser at 0,
    the root at 1, the workspace at 2, the part at 3. *)
Definition startup_state : State :=
  mkState
    [ mkBaseInstance "Root" None (Some []) "Instance" "" None;
      mkBaseInstance "Root" None (Some [iface 2]) "DataModel" "" None;
      mkBaseInstance "Werkzeug" (Some (iface 1)) (Some [iface 3]) "Workspace" ""
        (Some (mkRef KWerkzeug 2));
      mkBaseInstance "baseplate" (Some (iface 2)) (Some []) "Part" ""
        (Some (mkRef KPart 3)) ]
    [].

Definition startup_manager : instanceManager :=
  mkInstanceManager Unlocked
    (<["Part" := NewPart]>
       (<["DataModel" := ctor_DataModel]>
          (<["Workspace" := NewWerkzeug]> (registry NewInstanceManager))))
    (Some (iface 1)).

(** *** The registry and the root *)

(** What [NewPart] leaves on an empty heap. *)
Definition part_state : State :=
  mkState [ mkBaseInstance "ExamplePart" None (Some []) "Part" ""
              (Some (mkRef KPart 0)) ] [].

(** Two fresh nodes, each then made the parent of the other. *)
Definition two_nodes : State :=
  mkState [ NewBaseInstance_obj "Instance"; NewBaseInstance_obj "Instance" ] [].

(** *** The datamodel at start-up *)

(** The records [InitManager] leaves for the root, installed at address
    [r], and for the workspace, installed right after it. *)
Definition root_record (r : addr) : BaseInstance :=
  mkBaseInstance "Root" None (Some [iface (S r)]) "DataModel" "" None.

Definition workspace_record (r : addr) : BaseInstance :=
  mkBaseInstance "Werkzeug" (Some (iface r)) (Some []) "Workspace" ""
    (Some (mkRef KWerkzeug (S r))).

(** The manager [InitManager] returns when the root is installed at [r]. *)
Definition datamodel_manager (r : addr) : instanceManager :=
  mkInstanceManager Unlocked
    (<["Part" := NewPart]>
       (<["DataModel" := ctor_DataModel]>
          (<["Workspace" := NewWerkzeug]> (registry NewInstanceManager))))
    (Some (iface r)).

(* ===================================================================== *)
(** ** Running the primitives                                            *)
(* ===================================================================== *)

Lemma Kind_eqb_eq k1 k2 : Kind_eqb k1 k2 = true <-> k1 = k2.
Proof. destruct k1, k2; simpl; split; congruence. Qed.

Lemma Ref_eqb_eq r1 r2 : Ref_eqb r1 r2 = true <-> r1 = r2.
Proof.
  destruct r1 as [k1 a1], r2 as [k2 a2]; unfold Ref_eqb; simpl.
  rewrite andb_true_iff, Kind_eqb_eq, Nat.eqb_eq.
  split; [intros [-> ->]; reflexivity | intros [= -> ->]; auto].
Qed.

Lemma Ref_eqb_refl r : Ref_eqb r r = true.
Proof. apply Ref_eqb_eq; reflexivity. Qed.

Lemma Ref_eqb_neq r1 r2 : Ref_eqb r1 r2 = false <-> r1 <> r2.
Proof.
  rewrite <- Ref_eqb_eq. destruct (Ref_eqb r1 r2); split; congruence.
Qed.

Lemma asBase_Some r b : asBase r = Some b <-> r = iface b.
Proof.
  destruct r as [[] a]; unfold asBase, iface; simpl; split;
    try congruence; intros [= ->]; reflexivity.
Qed.

Lemma asBase_iface b : asBase (iface b) = Some b.
Proof. reflexivity. Qed.

Lemma release_not_held a l : is_held a l = false -> release a l = l.
Proof.
  unfold is_held, release. induction l as [|x l IH]; simpl; [reflexivity|].
  intros H. apply orb_false_iff in H as [Hx Hl].
  rewrite Hx; simpl. f_equal; auto.
Qed.

Lemma release_cons a l : is_held a l = false -> release a (a :: l) = l.
Proof.
  intros H. unfold release; simpl. rewrite Nat.eqb_refl; simpl.
  apply (release_not_held a l H).
Qed.

Lemma is_held_cons_same a l : is_held a (a :: l) = true.
Proof. unfold is_held; simpl. rewrite Nat.eqb_refl; reflexivity. Qed.

Lemma state_eta s : mkState (heap s) (held s) = s.
Proof. destruct s; reflexivity. Qed.

Lemma load_run s a o : heap s !! a = Some o -> load a s = Ret o s.
Proof. intros H. unfold load. rewrite H. reflexivity. Qed.

Lemma update_run s a o f :
  heap s !! a = Some o ->
  update a f s = Ret tt (mkState (<[a := f o]> (heap s)) (held s)).
Proof.
  intros H. unfold update, bind, load, store. rewrite H; simpl. rewrite H.
  reflexivity.
Qed.

Lemma GetName_run s a o : heap s !! a = Some o -> GetName a s = Ret (name o) s.
Proof. intros H. unfold GetName, bind. rewrite (load_run s a o H). reflexivity. Qed.

Lemma GetParent_run s a o :
  heap s !! a = Some o -> GetParent a s = Ret (parent o) s.
Proof. intros H. unfold GetParent, bind. rewrite (load_run s a o H). reflexivity. Qed.

Lemma GetChildren_run s a o :
  heap s !! a = Some o -> is_held a (held s) = false ->
  GetChildren a s = Ret (elems (children o)) s.
Proof.
  intros H Hfree. unfold GetChildren, bind, lock, load, unlock, ret.
  rewrite Hfree; simpl. rewrite H; simpl.
  rewrite is_held_cons_same, release_cons by assumption.
  rewrite state_eta. reflexivity.
Qed.

Lemma addChild_run s b o c :
  heap s !! b = Some o -> is_held b (held s) = false ->
  addChild b c s =
    Ret tt (mkState (<[b := with_children o (Some (elems (children o) ++ [c]))]> (heap s))
                    (held s)).
Proof.
  intros H Hfree. unfold addChild, bind, lock, unlock.
  rewrite Hfree. rewrite (update_run _ b o) by exact H. simpl.
  rewrite is_held_cons_same, release_cons by assumption. reflexivity.
Qed.

Lemma removeChild_run s b o c :
  heap s !! b = Some o -> is_held b (held s) = false ->
  removeChild b c s =
    Ret tt (mkState (<[b := without_child o c]> (heap s)) (held s)).
Proof.
  intros H Hfree. unfold removeChild, bind, lock, unlock.
  rewrite Hfree. rewrite (update_run _ b o) by exact H. simpl.
  rewrite is_held_cons_same, release_cons by assumption. reflexivity.
Qed.

Lemma elems_without_child o c :
  elems (children (without_child o c)) = remove_first c (elems (children o)).
Proof.
  unfold without_child.
  destruct (existsb _ _) eqn:E; [reflexivity|].
  induction (elems (children o)) as [|x l IH]; simpl in *; [reflexivity|].
  apply orb_false_iff in E as [Ex El]. rewrite Ex. f_equal; auto.
Qed.

Lemma parent_without_child o c : parent (without_child o c) = parent o.
Proof. unfold without_child. destruct (existsb _ _); reflexivity. Qed.

(* ===================================================================== *)
(** ** The registry: RegisterClass and Create                            *)
(* ===================================================================== *)

(** [Create] up to the constructor call: the read lock is taken and given
    back, then the registered constructor runs. *)
Lemma Create_unfold m cn s :
  mu m <> WLocked ->
  Create m cn s =
    match registry m !! cn with
    | None => Ret None s
    | Some ctor =>
        (let* inst := ctor in
         match inst with
         | None => ret None
         | Some r =>
             match asBase r with
             | Some b =>
                 let* o := load b in
                 match children o with
                 | None => update b (fun o' => with_children o' (Some []))
                 | Some _ => ret tt
                 end ;;;
                 let* o1 := load b in
                 (if String.eqb (className o1) ""
                  then update b (fun o' => with_className o' cn)
                  else ret tt) ;;;
                 ret (Some r)
             | None => ret (Some r)
             end
         end) s
    end.
Proof.
  intros Hm. unfold Create, bind at 1, RLock, RUnlock, ret.
  destruct m as [[|n|] reg rt]; simpl in *; try congruence.
  - unfold bind at 1; simpl. destruct (reg !! cn); reflexivity.
  - unfold bind at 1; simpl. destruct (reg !! cn); reflexivity.
Qed.

Lemma list_insert_same {A} (l : list A) i x : l !! i = Some x -> <[i := x]> l = l.
Proof. apply list_insert_id. Qed.

Lemma Create_base_run m cn ctor s s1 b o :
  mu m <> WLocked ->
  registry m !! cn = Some ctor ->
  ctor s = Ret (Some (iface b)) s1 ->
  heap s1 !! b = Some o ->
  Create m cn s =
    Ret (Some (iface b)) (mkState (<[b := backfilled cn o]> (heap s1)) (held s1)).
Proof.
  intros Hm Hreg Hctor Hb.
  rewrite Create_unfold by exact Hm. rewrite Hreg.
  unfold bind at 1. rewrite Hctor. rewrite asBase_iface.
  assert (Hlt : b < length (heap s1)) by (eapply lookup_lt_Some; eauto).
  unfold bind at 1. rewrite (load_run _ _ _ Hb).
  destruct o as [n p [cs|] c l t]; simpl.
  - unfold bind at 1, ret at 1. unfold bind at 1. rewrite (load_run _ _ _ Hb).
    simpl. destruct (String.eqb c "") eqn:Ec.
    + unfold bind. rewrite (update_run _ _ _ _ Hb). unfold backfilled; simpl.
      rewrite Ec. reflexivity.
    + unfold bind, ret. unfold backfilled; simpl. rewrite Ec.
      rewrite list_insert_same by exact Hb. rewrite state_eta. reflexivity.
  - unfold bind at 1. rewrite (update_run _ _ _ _ Hb). simpl.
    unfold with_children; simpl.
    set (o1 := mkBaseInstance n p (Some []) c l t).
    assert (Hb1 : <[b := o1]> (heap s1) !! b = Some o1)
      by (apply list_lookup_insert_eq; exact Hlt).
    unfold bind at 1. unfold load at 1; simpl. rewrite Hb1. simpl.
    destruct (String.eqb c "") eqn:Ec.
    + unfold bind. unfold update, bind, load, store; simpl. rewrite Hb1; simpl.
      rewrite Hb1. unfold ret. rewrite list_insert_insert_eq.
      unfold backfilled; simpl. rewrite Ec. reflexivity.
    + unfold bind, ret. unfold backfilled; simpl. rewrite Ec. reflexivity.
Qed.

(** C9.  [RegisterClass] fails exactly on an empty class name or a nil
    constructor, and then hands the manager back untouched; otherwise it
    succeeds and the registry maps the name to the constructor. *)
Theorem C9_RegisterClass_error_iff_invalid
    (m : instanceManager) (cn : string) (ctor : option InstanceConstructor)
    (s : State) :
  mu m = Unlocked ->
  exists e m',
    RegisterClass m cn ctor s = Ret (e, m') s /\
    (e <> None <-> cn = "" \/ ctor = None) /\
    (e <> None -> m' = m) /\
    (forall c, cn <> "" -> ctor = Some c ->
       e = None /\
       registry m' = <[cn := c]> (registry m) /\
       registry m' !! cn = Some c /\
       mu m' = mu m /\ root m' = root m).
Proof.
  intros Hmu. unfold RegisterClass.
  destruct (String.eqb cn "") eqn:Ecn.
  - apply String.eqb_eq in Ecn. subst cn.
    exists (Some "invalid className or constructor"), m.
    repeat split; auto; try congruence.
    all: intros c Hc; congruence.
  - apply String.eqb_neq in Ecn.
    destruct ctor as [c|].
    + exists None, (with_registry m (<[cn := c]> (registry m))).
      unfold bind, Lock, Unlock, ret. rewrite Hmu; simpl.
      split; [destruct m; simpl in *; subst; reflexivity|].
      split; [split; [congruence | intros [?|?]; congruence]|].
      split; [congruence|].
      intros c' _ [= <-]. repeat split; auto.
      simpl. apply lookup_insert_eq.
    + exists (Some "invalid className or constructor"), m.
      repeat split; auto; try congruence.
      all: intros c Hc; congruence.
Qed.

Lemma C9_RegisterClass_witness :
  exists e m',
    RegisterClass NewInstanceManager "Part" (Some NewPart) (mkState [] [])
      = Ret (e, m') (mkState [] []) /\
    (e <> None <-> "Part" = "" \/ Some NewPart = None) /\
    (e <> None -> m' = NewInstanceManager) /\
    (forall c, "Part" <> "" -> Some NewPart = Some c ->
       e = None /\
       registry m' = <[("Part" : string) := c]> (registry NewInstanceManager) /\
       registry m' !! ("Part" : string) = Some c /\
       mu m' = mu NewInstanceManager /\ root m' = root NewInstanceManager).
Proof.
  apply (C9_RegisterClass_error_iff_invalid NewInstanceManager "Part"
           (Some NewPart) (mkState [] [])).
  reflexivity.
Defined.




(* ===================================================================== *)
(** ** Path lookup                                                       *)
(* ===================================================================== *)

Lemma closedb_child h b o c :
  closedb h = true -> h !! b = Some o -> In c (elems (children o)) ->
  raddr c < length h.
Proof.
  unfold closedb. rewrite forallb_forall. intros Hall Hb Hc.
  assert (Ho : In o h).
  { apply list_elem_of_In, list_elem_of_lookup. eauto. }
  specialize (Hall o Ho). rewrite forallb_forall in Hall.
  apply Nat.ltb_lt. apply Hall. exact Hc.
Qed.

Lemma descend_None h parts : descend h None parts = None.
Proof. destruct parts; reflexivity. Qed.

Lemma descend_app h cur pre post :
  descend h cur (pre ++ post) = descend h (descend h cur pre) post.
Proof.
  revert cur. induction pre as [|p pre IH]; intros cur; simpl; [reflexivity|].
  destruct cur as [c|]; [apply IH | symmetry; apply descend_None].
Qed.

Lemma find_by_name_run s n cs :
  (forall c, In c cs -> raddr c < length (heap s)) ->
  find_by_name n cs s =
    Ret (List.find (fun c => String.eqb (name_of (heap s) c) n) cs) s.
Proof.
  induction cs as [|c cs IH]; intros Hcs; simpl; [reflexivity|].
  destruct (lookup_lt_is_Some_2 (heap s) (raddr c)) as [o Ho];
    [apply Hcs; left; reflexivity|].
  unfold bind. rewrite (GetName_run _ _ _ Ho).
  unfold name_of at 1. rewrite Ho.
  destruct (String.eqb (name o) n); [reflexivity|].
  apply IH. intros c' Hc'. apply Hcs. right; exact Hc'.
Qed.

Lemma FindFirstChild_run s b n :
  held s = [] -> closedb (heap s) = true -> b < length (heap s) ->
  FindFirstChild b n s = Ret (child_named (heap s) b n) s.
Proof.
  intros Hheld Hclosed Hb.
  destruct (lookup_lt_is_Some_2 (heap s) b Hb) as [o Ho].
  unfold FindFirstChild, child_named. rewrite Ho.
  assert (Hfree : is_held b (held s) = false) by (rewrite Hheld; reflexivity).
  unfold bind at 1. unfold lock. rewrite Hfree.
  unfold bind at 1. unfold load at 1; simpl. rewrite Ho.
  unfold bind at 1.
  rewrite (find_by_name_run (mkState (heap s) (b :: held s))).
  - simpl. unfold bind, unlock, ret; simpl.
    rewrite is_held_cons_same, release_cons by assumption.
    rewrite state_eta. reflexivity.
  - simpl. intros c Hc. eapply closedb_child; eauto.
Qed.

Lemma child_named_lt h b n c :
  closedb h = true -> child_named h b n = Some c -> raddr c < length h.
Proof.
  unfold child_named. intros Hclosed.
  destruct (h !! b) as [o|] eqn:Hb; [|discriminate].
  intros Hf. apply find_some in Hf as [Hin _].
  eapply closedb_child; eauto.
Qed.

Lemma walk_run s parts cur :
  held s = [] -> closedb (heap s) = true ->
  (forall c, cur = Some c -> raddr c < length (heap s)) ->
  walk parts cur s = Ret (descend (heap s) cur parts) s.
Proof.
  intros Hheld Hclosed. revert cur.
  induction parts as [|p parts IH]; intros cur Hcur; simpl; [reflexivity|].
  destruct cur as [c|]; [|reflexivity].
  unfold bind. rewrite FindFirstChild_run by auto.
  apply IH. intros c' Hc'. eapply child_named_lt; eauto.
Qed.

Lemma GetRoot_run m s rt :
  mu m <> WLocked -> root m = Some rt -> GetRoot m s = Ret (Some rt, m) s.
Proof.
  intros Hmu Hrt. unfold GetRoot, bind, RLock, RUnlock, ret.
  destruct m as [[|k|] reg r]; simpl in *; subst r;
    first [reflexivity | congruence].
Qed.

(** Without a root, [GetRoot] takes the write lock and then, through
    [CreateNamed] and [Create], asks for the read lock of the same
    mutex: the call never returns. *)
Lemma GetRoot_nil_root_blocks m s :
  mu m = Unlocked -> root m = None -> GetRoot m s = Deadlock.
Proof.
  intros Hmu Hrt. destruct m as [l reg r]; simpl in *; subst l r. reflexivity.
Qed.

Lemma FindByPath_run m s rt path :
  held s = [] -> closedb (heap s) = true ->
  mu m <> WLocked -> root m = Some rt -> raddr rt < length (heap s) ->
  FindByPath m path s = Ret (resolve_path (heap s) rt path, m) s.
Proof.
  intros Hheld Hclosed Hmu Hroot Hrt.
  unfold FindByPath, resolve_path.
  destruct (String.eqb path ""); [reflexivity|].
  unfold bind at 1. rewrite (GetRoot_run m s rt Hmu Hroot). cbn [fst snd].
  destruct (lookup_lt_is_Some_2 (heap s) (raddr rt) Hrt) as [o Ho].
  unfold bind at 1. rewrite (GetName_run _ _ _ Ho).
  unfold name_of at 1. rewrite Ho.
  destruct (String.eqb (name o) (hd "" (Split path "."))) eqn:E; simpl negb; cbv iota.
  - unfold bind at 1, ret at 1.
    unfold bind. rewrite walk_run; auto.
    intros c [= <-]; exact Hrt.
  - unfold bind at 1. rewrite FindFirstChild_run by auto.
    destruct (child_named (heap s) (raddr rt) (hd "" (Split path "."))) as [c|] eqn:Ec.
    + unfold bind. rewrite walk_run; auto.
      intros c' [= <-]. eapply child_named_lt; eauto.
    + rewrite descend_None. reflexivity.
Qed.

Lemma build_Root_A_B_run :
  build_Root_A_B (mkState [] []) = Ret tt tree_Root_A_B.
Proof. vm_compute. reflexivity. Qed.

(** C5.  With a root set, [FindByPath] returns what the segment-by-segment
    resolution through first children gives (nil once a segment finds
    nothing, whatever follows).  When the root is named "Root", its first
    child named "A" is [a], the first child of [a] named "B" is [b] and [a]
    has no child named "C", then "Root.A.B" and "A.B" both give [b] and
    "Root.A.C" gives nil. *)
Theorem C5_FindByPath_resolves_segment_by_segment
    (m : instanceManager) (s : State) (rt a b : Ref) :
  held s = [] ->
  closedb (heap s) = true ->
  mu m <> WLocked ->
  root m = Some rt ->
  raddr rt < length (heap s) ->
  (forall path,
     FindByPath m path s = Ret (resolve_path (heap s) rt path, m) s) /\
  (forall cur pre post,
     descend (heap s) cur pre = None ->
     descend (heap s) cur (pre ++ post) = None) /\
  (name_of (heap s) rt = "Root" ->
   child_named (heap s) (raddr rt) "A" = Some a ->
   child_named (heap s) (raddr a) "B" = Some b ->
   child_named (heap s) (raddr a) "C" = None ->
   FindByPath m "Root.A.B" s = Ret (Some b, m) s /\
   FindByPath m "A.B" s = Ret (Some b, m) s /\
   FindByPath m "Root.A.C" s = Ret (None, m) s).
Proof.
  intros Hheld Hclosed Hmu Hroot Hrt.
  split; [intros path; apply FindByPath_run; auto|].
  split.
  { intros cur pre post Hpre. rewrite descend_app, Hpre. apply descend_None. }
  intros Hname HA HB HC.
  rewrite !(FindByPath_run m s rt) by auto.
  unfold resolve_path. cbn [String.eqb Split hd tl Ascii.eqb Bool.eqb].
  repeat split.
  - rewrite Hname. cbn. rewrite HA. cbn. rewrite HB. reflexivity.
  - rewrite Hname. cbn. rewrite HA. cbn. rewrite HB. reflexivity.
  - rewrite Hname. cbn. rewrite HA. cbn. rewrite HC. reflexivity.
Qed.

Lemma C5_FindByPath_witness :
  let m := mkInstanceManager Unlocked ∅ (Some (iface 0)) in
  let s := tree_Root_A_B in
  FindByPath m "Root.A.B" s = Ret (Some (iface 2), m) s /\
  FindByPath m "A.B" s = Ret (Some (iface 2), m) s /\
  FindByPath m "Root.A.C" s = Ret (None, m) s.
Proof.
  refine (proj2 (proj2 (C5_FindByPath_resolves_segment_by_segment
           (mkInstanceManager Unlocked ∅ (Some (iface 0))) tree_Root_A_B
           (iface 0) (iface 1) (iface 2) _ _ _ _ _)) _ _ _ _).
  - reflexivity.
  - reflexivity.
  - discriminate.
  - reflexivity.
  - simpl. lia.
  - reflexivity.
  - reflexivity.
  - reflexivity.
  - reflexivity.
Defined.

(* ===================================================================== *)
(** ** Reparenting                                                       *)
(* ===================================================================== *)

Lemma insert_alter_same (h : Heap) a o f :
  h !! a = Some o -> <[a := f o]> h = alter f a h.
Proof.
  intros Ha. apply list_eq. intros i.
  destruct (decide (i = a)) as [->|Hne].
  - rewrite list_lookup_insert_eq by (eapply lookup_lt_Some; eauto).
    rewrite list_lookup_alter_eq, Ha. reflexivity.
  - rewrite list_lookup_insert_ne by congruence.
    rewrite list_lookup_alter_ne by congruence. reflexivity.
Qed.

Lemma update_alter s a f :
  a < length (heap s) ->
  update a f s = Ret tt (mkState (alter f a (heap s)) (held s)).
Proof.
  intros Hlt. destruct (lookup_lt_is_Some_2 _ _ Hlt) as [o Ho].
  rewrite (update_run s a o f Ho). rewrite (insert_alter_same _ _ _ _ Ho).
  reflexivity.
Qed.

Lemma addChild_alter s b c :
  b < length (heap s) -> is_held b (held s) = false ->
  addChild b c s = Ret tt (mkState (alter (add_child c) b (heap s)) (held s)).
Proof.
  intros Hlt Hfree. destruct (lookup_lt_is_Some_2 _ _ Hlt) as [o Ho].
  rewrite (addChild_run s b o c Ho Hfree).
  rewrite <- (insert_alter_same _ _ _ (add_child c) Ho). reflexivity.
Qed.

Lemma removeChild_alter s b c :
  b < length (heap s) -> is_held b (held s) = false ->
  removeChild b c s =
    Ret tt (mkState (alter (fun o => without_child o c) b (heap s)) (held s)).
Proof.
  intros Hlt Hfree. destruct (lookup_lt_is_Some_2 _ _ Hlt) as [o Ho].
  rewrite (removeChild_run s b o c Ho Hfree).
  rewrite <- (insert_alter_same _ _ _ (fun o => without_child o c) Ho).
  reflexivity.
Qed.

Lemma length_detach h a : length (detach h a) = length h.
Proof.
  unfold detach. destruct (h !! a) as [oa|]; [|reflexivity].
  destruct (parent oa) as [p|]; [|reflexivity].
  destruct (asBase p); [apply length_alter | reflexivity].
Qed.

Lemma length_attach h a np : length (attach h a np) = length h.
Proof.
  unfold attach. destruct np as [p|]; [|reflexivity].
  destruct (asBase p); [apply length_alter | reflexivity].
Qed.

Lemma length_SetParent_heap h a np : length (SetParent_heap h a np) = length h.
Proof.
  unfold SetParent_heap. rewrite length_attach, length_alter, length_detach.
  reflexivity.
Qed.

Lemma SetParent_run s a np :
  held s = [] ->
  parent_okb (heap s) a = true ->
  target_okb (heap s) a np = true ->
  SetParent a np s = Ret tt (mkState (SetParent_heap (heap s) a np) []).
Proof.
  intros Hheld Hpar Htgt.
  destruct (heap s !! a) as [oa|] eqn:Ha;
    [|unfold parent_okb in Hpar; rewrite Ha in Hpar; discriminate].
  assert (Hlt : a < length (heap s)) by (eapply lookup_lt_Some; eauto).
  unfold SetParent. unfold bind at 1. unfold lock. rewrite Hheld.
  change (is_held a []) with false. cbv iota.
  unfold bind at 1. unfold load at 1. cbn [heap held]. rewrite Ha.
  (* the old parent *)
  assert (Hold :
    match parent oa with
    | Some p =>
        match asBase p with
        | Some pbase => removeChild pbase (iface a)
        | None =>
            let* cs := GetChildren (raddr p) in
            match asBase p with
            | Some pbase2 =>
                update pbase2 (fun po => with_children po
                  (Some (List.filter (fun c => negb (Ref_eqb c (iface a))) cs)))
            | None => ret tt
            end
        end
    | None => ret tt
    end (mkState (heap s) [a]) = Ret tt (mkState (detach (heap s) a) [a])).
  { unfold detach. rewrite Ha. unfold parent_okb in Hpar. rewrite Ha in Hpar.
    destruct (parent oa) as [p|]; [|reflexivity].
    apply andb_true_iff in Hpar as [Hne Hplt].
    apply negb_true_iff in Hne. apply Nat.ltb_lt in Hplt.
    destruct (asBase p) as [pb|] eqn:Hp.
    - apply asBase_Some in Hp. subst p. simpl in Hne, Hplt.
      apply removeChild_alter; [exact Hplt|].
      unfold is_held; simpl. rewrite Hne. reflexivity.
    - destruct (lookup_lt_is_Some_2 _ _ Hplt) as [op Hop].
      unfold bind. rewrite (GetChildren_run _ (raddr p) op); auto.
      unfold is_held; simpl. rewrite Hne. reflexivity. }
  unfold bind at 1. rewrite Hold. clear Hold.
  unfold bind at 1. rewrite update_alter by (simpl; rewrite length_detach; exact Hlt).
  cbn [heap held].
  (* the new parent *)
  unfold SetParent_heap, attach. unfold target_okb in Htgt.
  destruct np as [p|].
  - apply andb_true_iff in Htgt as [Hne Hplt].
    apply negb_true_iff in Hne. apply Nat.ltb_lt in Hplt.
    destruct (asBase p) as [b|] eqn:Hp.
    + apply asBase_Some in Hp. subst p. simpl in Hne, Hplt.
      unfold bind at 1. rewrite addChild_alter.
      * unfold unlock; simpl. rewrite is_held_cons_same.
        rewrite release_cons by reflexivity. reflexivity.
      * simpl. rewrite length_alter, length_detach. exact Hplt.
      * unfold is_held; simpl. rewrite Hne. reflexivity.
    + unfold bind, ret, unlock; simpl. rewrite is_held_cons_same.
      rewrite release_cons by reflexivity. reflexivity.
  - unfold bind, ret, unlock; simpl. rewrite is_held_cons_same.
    rewrite release_cons by reflexivity. reflexivity.
Qed.

Lemma listed_okb_spec h a q :
  listed_okb h a = true ->
  count_occ Ref_eq_dec (kids h q) (iface a) <=
    (if decide (parent_of h a = Some (iface q)) then 1 else 0).
Proof.
  unfold listed_okb. rewrite forallb_forall. intros Hall.
  destruct (decide (q < length h)) as [Hlt|Hge].
  - apply Nat.leb_le. apply Hall. apply in_seq. lia.
  - unfold kids. rewrite (lookup_ge_None_2 h q) by lia. simpl. lia.
Qed.

Lemma kids_alter_children h a f q :
  (forall o, elems (children (f o)) = elems (children o)) ->
  kids (alter f a h) q = kids h q.
Proof.
  intros Hf. unfold kids. destruct (decide (a = q)) as [->|Hne].
  - rewrite list_lookup_alter_eq. destruct (h !! q); simpl; auto.
  - rewrite list_lookup_alter_ne by exact Hne. reflexivity.
Qed.

Lemma parent_of_alter_parent h a f x :
  (forall o, parent (f o) = parent o) ->
  parent_of (alter f a h) x = parent_of h x.
Proof.
  intros Hf. unfold parent_of. destruct (decide (a = x)) as [->|Hne].
  - rewrite list_lookup_alter_eq. destruct (h !! x); simpl; auto.
  - rewrite list_lookup_alter_ne by exact Hne. reflexivity.
Qed.

Lemma parent_of_detach h a x : parent_of (detach h a) x = parent_of h x.
Proof.
  unfold detach. destruct (h !! a) as [oa|]; [|reflexivity].
  destruct (parent oa) as [p|]; [|reflexivity].
  destruct (asBase p); [|reflexivity].
  apply parent_of_alter_parent. intros o. apply parent_without_child.
Qed.

Lemma parent_of_attach h a np x : parent_of (attach h a np) x = parent_of h x.
Proof.
  unfold attach. destruct np as [p|]; [|reflexivity].
  destruct (asBase p); [|reflexivity].
  apply parent_of_alter_parent. intros o. reflexivity.
Qed.

Lemma kids_detach h a q :
  kids (detach h a) q =
    if decide (parent_of h a = Some (iface q))
    then remove_first (iface a) (kids h q) else kids h q.
Proof.
  unfold detach, parent_of. destruct (h !! a) as [oa|]; [|reflexivity].
  destruct (parent oa) as [p|]; [|reflexivity].
  destruct (asBase p) as [pb|] eqn:Hp.
  - apply asBase_Some in Hp. subst p.
    destruct (decide (Some (iface pb) = Some (iface q))) as [[= ->]|Hne].
    + unfold kids. rewrite list_lookup_alter_eq.
      destruct (h !! q) as [oq|]; simpl; [apply elems_without_child | reflexivity].
    + unfold kids. rewrite list_lookup_alter_ne by congruence. reflexivity.
  - destruct (decide (Some p = Some (iface q))) as [[= ->]|Hne];
      [discriminate | reflexivity].
Qed.

Lemma kids_attach h a np q :
  kids (attach h a np) q =
    kids h q ++ (if decide (np = Some (iface q))
                 then (if decide (q < length h) then [iface a] else [])
                 else []).
Proof.
  unfold attach. destruct np as [p|].
  - destruct (asBase p) as [b|] eqn:Hp.
    + apply asBase_Some in Hp. subst p.
      destruct (decide (Some (iface b) = Some (iface q))) as [[= ->]|Hne].
      * unfold kids. rewrite list_lookup_alter_eq.
        destruct (h !! q) as [oq|] eqn:Hq; simpl.
        -- rewrite decide_True by (eapply lookup_lt_Some; eauto). reflexivity.
        -- rewrite decide_False; [reflexivity|].
           apply lookup_ge_None in Hq. lia.
      * unfold kids. rewrite list_lookup_alter_ne by congruence.
        rewrite app_nil_r. reflexivity.
    + destruct (decide (Some p = Some (iface q))) as [[= ->]|Hne];
        [discriminate | rewrite app_nil_r; reflexivity].
  - rewrite decide_False by discriminate. rewrite app_nil_r. reflexivity.
Qed.

Lemma kids_SetParent_heap h a np q :
  q < length h ->
  kids (SetParent_heap h a np) q =
    (if decide (parent_of h a = Some (iface q))
     then remove_first (iface a) (kids h q) else kids h q)
    ++ (if decide (np = Some (iface q)) then [iface a] else []).
Proof.
  intros Hq. unfold SetParent_heap.
  rewrite kids_attach, length_alter, length_detach.
  rewrite (decide_True _ _ Hq).
  rewrite kids_alter_children by reflexivity.
  rewrite kids_detach. reflexivity.
Qed.

Lemma parent_of_SetParent_heap_self h a np :
  a < length h -> parent_of (SetParent_heap h a np) a = np.
Proof.
  intros Ha. unfold SetParent_heap. rewrite parent_of_attach.
  unfold parent_of. rewrite list_lookup_alter_eq.
  destruct (lookup_lt_is_Some_2 (detach h a) a) as [o Ho];
    [rewrite length_detach; exact Ha|].
  rewrite Ho. reflexivity.
Qed.

Lemma count_remove_first r l :
  count_occ Ref_eq_dec (remove_first r l) r = pred (count_occ Ref_eq_dec l r).
Proof.
  induction l as [|x l IH]; simpl; [reflexivity|].
  destruct (Ref_eqb x r) eqn:E.
  - apply Ref_eqb_eq in E. subst x. destruct (Ref_eq_dec r r); [reflexivity|congruence].
  - apply Ref_eqb_neq in E. simpl.
    destruct (Ref_eq_dec x r); [congruence|]. exact IH.
Qed.

Lemma count_single r : count_occ Ref_eq_dec [r] r = 1.
Proof. simpl. destruct (Ref_eq_dec r r); [reflexivity | congruence]. Qed.

Lemma GetChildren_kids s q cs s' :
  held s = [] -> GetChildren q s = Ret cs s' -> cs = kids (heap s) q /\ s' = s.
Proof.
  intros Hheld H. unfold kids.
  destruct (heap s !! q) as [o|] eqn:Hq.
  - rewrite (GetChildren_run s q o Hq) in H by (rewrite Hheld; reflexivity).
    injection H as <- <-. auto.
  - unfold GetChildren, bind, lock, load in H. rewrite Hheld in H.
    change (is_held q []) with false in H. simpl in H. rewrite Hq in H.
    discriminate.
Qed.

Lemma GetChildren_kids_run s q :
  held s = [] -> q < length (heap s) ->
  GetChildren q s = Ret (kids (heap s) q) s.
Proof.
  intros Hheld Hq. destruct (lookup_lt_is_Some_2 _ _ Hq) as [o Ho].
  unfold kids. rewrite Ho. apply GetChildren_run; [exact Ho|].
  rewrite Hheld; reflexivity.
Qed.

Lemma GetParent_parent_of s a :
  a < length (heap s) -> GetParent a s = Ret (parent_of (heap s) a) s.
Proof.
  intros Ha. destruct (lookup_lt_is_Some_2 _ _ Ha) as [o Ho].
  unfold parent_of. rewrite Ho. apply GetParent_run. exact Ho.
Qed.

(** What one [SetParent] establishes for the node it moves. *)
Lemma SetParent_listing s a np :
  held s = [] ->
  parent_okb (heap s) a = true ->
  listed_okb (heap s) a = true ->
  target_okb (heap s) a np = true ->
  let s1 := mkState (SetParent_heap (heap s) a np) [] in
  SetParent a np s = Ret tt s1 /\
  parent_of (heap s1) a = np /\
  (forall q, count_occ Ref_eq_dec (kids (heap s1) q) (iface a) =
             if decide (np = Some (iface q)) then 1 else 0) /\
  parent_okb (heap s1) a = true /\
  listed_okb (heap s1) a = true.
Proof.
  intros Hheld Hpar Hlisted Htgt s1.
  assert (Ha : a < length (heap s)).
  { unfold parent_okb in Hpar. destruct (heap s !! a) eqn:E; [|discriminate].
    eapply lookup_lt_Some; eauto. }
  assert (Hparent : parent_of (heap s1) a = np)
    by (apply parent_of_SetParent_heap_self; exact Ha).
  assert (Hcount : forall q,
            count_occ Ref_eq_dec (kids (heap s1) q) (iface a) =
            if decide (np = Some (iface q)) then 1 else 0).
  { intros q. subst s1; cbn [heap].
    destruct (decide (q < length (heap s))) as [Hq|Hq].
    - rewrite kids_SetParent_heap by exact Hq.
      rewrite count_occ_app.
      pose proof (listed_okb_spec _ _ q Hlisted) as Hle.
      assert (H0 : count_occ Ref_eq_dec
                (if decide (parent_of (heap s) a = Some (iface q))
                 then remove_first (iface a) (kids (heap s) q)
                 else kids (heap s) q) (iface a) = 0).
      { destruct (decide (parent_of (heap s) a = Some (iface q))).
        - rewrite count_remove_first. lia.
        - lia. }
      rewrite H0. destruct (decide (np = Some (iface q))).
      + rewrite count_single. reflexivity.
      + reflexivity.
    - unfold kids. rewrite lookup_ge_None_2
        by (rewrite length_SetParent_heap; lia).
      simpl. destruct (decide (np = Some (iface q))) as [->|]; [|reflexivity].
      unfold target_okb in Htgt. simpl in Htgt.
      apply andb_true_iff in Htgt as [_ Hlt]. apply Nat.ltb_lt in Hlt. lia. }
  split; [apply SetParent_run; assumption|].
  split; [exact Hparent|]. split; [exact Hcount|]. split.
  - unfold parent_okb. unfold parent_of in Hparent.
    destruct (heap s1 !! a) as [o1|] eqn:E.
    + rewrite Hparent. subst s1; cbn [heap]. rewrite length_SetParent_heap.
      exact Htgt.
    + apply lookup_ge_None in E. subst s1; cbn [heap] in E.
      rewrite length_SetParent_heap in E. lia.
  - unfold listed_okb. apply forallb_forall. intros q _.
    apply Nat.leb_le. rewrite Hcount, Hparent.
    destruct (decide (np = Some (iface q))); lia.
Qed.

(** C1, as stated, fails.  Under a parent held as [*Werkzeug] the child
    gets its parent pointer but the parent's child list stays empty; a
    child held as [*Part] is listed under a base parent through the pointer
    to its embedded base, which is not equal to the [*Part] itself; and a
    part that was made its own parent through its [*Part] handle (a call
    that returns) never returns from its next [SetParent]. *)
Lemma C1_SetParent_counterexample :
  result (reparent_under_Werkzeug (mkState [] []))
    = Some ([], Some (mkRef KWerkzeug 1)) /\
  result (reparent_Part (mkState [] []))
    = Some (Some (mkRef KPart 0), [mkRef KBase 0]) /\
  count_occ Ref_eq_dec [mkRef KBase 0] (mkRef KPart 0) = 0 /\
  result (self_parent_Part (mkState [] [])) = Some (Some (mkRef KPart 0)) /\
  reparent_self_parented (mkState [] []) = Deadlock.
Proof. repeat split; vm_compute; reflexivity. Qed.

(** C1 (amended).  Let A and B be distinct nodes, B held as a base pointer,
    no node lock held, the parent pointer of A nil or naming a node other
    than A itself, and A listed at most once and only under the node its
    parent pointer names.  After [A.SetParent(B)] the base pointer of A
    occurs exactly once in [B.GetChildren()] and [A.GetParent()] is B; after
    a following [A.SetParent(nil)] it occurs in no child list and
    [A.GetParent()] is nil. *)
Theorem C1_SetParent_links_then_unlinks (s : State) (a b : addr) :
  held s = [] ->
  a <> b ->
  b < length (heap s) ->
  parent_okb (heap s) a = true ->
  listed_okb (heap s) a = true ->
  exists s1 s2,
    SetParent a (Some (iface b)) s = Ret tt s1 /\
    (exists cs, GetChildren b s1 = Ret cs s1 /\
                count_occ Ref_eq_dec cs (iface a) = 1) /\
    GetParent a s1 = Ret (Some (iface b)) s1 /\
    SetParent a None s1 = Ret tt s2 /\
    (forall q cs, GetChildren q s2 = Ret cs s2 ->
                  count_occ Ref_eq_dec cs (iface a) = 0) /\
    GetParent a s2 = Ret None s2.
Proof.
  intros Hheld Hab Hb Hpar Hlisted.
  assert (Ha : a < length (heap s)).
  { unfold parent_okb in Hpar. destruct (heap s !! a) eqn:E; [|discriminate].
    eapply lookup_lt_Some; eauto. }
  assert (Htgt : target_okb (heap s) a (Some (iface b)) = true).
  { unfold target_okb; simpl. apply andb_true_iff. split.
    - apply negb_true_iff, Nat.eqb_neq. congruence.
    - apply Nat.ltb_lt. exact Hb. }
  destruct (SetParent_listing s a (Some (iface b)) Hheld Hpar Hlisted Htgt)
    as (Hrun1 & Hp1 & Hc1 & Hpar1 & Hlisted1).
  set (s1 := mkState (SetParent_heap (heap s) a (Some (iface b))) []) in *.
  assert (Hlen1 : length (heap s1) = length (heap s))
    by (apply length_SetParent_heap).
  destruct (SetParent_listing s1 a None eq_refl Hpar1 Hlisted1 eq_refl)
    as (Hrun2 & Hp2 & Hc2 & _ & _).
  set (s2 := mkState (SetParent_heap (heap s1) a None) []) in *.
  exists s1, s2.
  split; [exact Hrun1|]. split.
  { exists (kids (heap s1) b). split.
    - apply GetChildren_kids_run; [reflexivity | lia].
    - rewrite Hc1. rewrite decide_True by reflexivity. reflexivity. }
  split.
  { rewrite GetParent_parent_of by lia. rewrite Hp1. reflexivity. }
  split; [exact Hrun2|]. split.
  { intros q cs Hq. apply GetChildren_kids in Hq as [-> _]; [|reflexivity].
    rewrite Hc2. rewrite decide_False by discriminate. reflexivity. }
  rewrite GetParent_parent_of.
  - rewrite Hp2. reflexivity.
  - subst s2; cbn [heap]. rewrite length_SetParent_heap. lia.
Qed.

Lemma C1_SetParent_witness :
  exists s1 s2,
    SetParent 2 (Some (iface 0)) tree_Root_A_B = Ret tt s1 /\
    (exists cs, GetChildren 0 s1 = Ret cs s1 /\
                count_occ Ref_eq_dec cs (iface 2) = 1) /\
    GetParent 2 s1 = Ret (Some (iface 0)) s1 /\
    SetParent 2 None s1 = Ret tt s2 /\
    (forall q cs, GetChildren q s2 = Ret cs s2 ->
                  count_occ Ref_eq_dec cs (iface 2) = 0) /\
    GetParent 2 s2 = Ret None s2.
Proof.
  apply (C1_SetParent_links_then_unlinks tree_Root_A_B 2 0).
  - reflexivity.
  - lia.
  - simpl. lia.
  - reflexivity.
  - vm_compute. reflexivity.
Defined.

(** C3, as stated, fails: the order of the child list changes. *)
Lemma C3_SetParent_same_parent_counterexample :
  result (reparent_same_parent (mkState [] []))
    = Some ([iface 1; iface 2], [iface 2; iface 1]) /\
  [iface 1; iface 2] <> [iface 2; iface 1].
Proof. split; [vm_compute; reflexivity | discriminate]. Qed.

Lemma remove_first_Permutation r l :
  In r l -> Permutation l (remove_first r l ++ [r]).
Proof.
  induction l as [|x l IH]; simpl; [intros []|].
  intros Hin. destruct (Ref_eqb x r) eqn:E.
  - apply Ref_eqb_eq in E. subst x.
    change (r :: l) with ([r] ++ l). apply Permutation_app_comm.
  - apply Ref_eqb_neq in E. destruct Hin as [->|Hin]; [congruence|].
    simpl. constructor. apply IH. exact Hin.
Qed.

Lemma remove_first_last r l :
  ~ In r l -> remove_first r (l ++ [r]) = l.
Proof.
  induction l as [|x l IH]; simpl; intros Hn.
  - rewrite Ref_eqb_refl. reflexivity.
  - destruct (Ref_eqb x r) eqn:E.
    + apply Ref_eqb_eq in E. subst x. exfalso. apply Hn. left; reflexivity.
    + f_equal. apply IH. intros Hin. apply Hn. right; exact Hin.
Qed.

(** C3 (amended).  When a node's parent pointer names P (a base pointer,
    not the node itself) and P lists the node, calling [SetParent(P)] again
    keeps the members of P's child list and the order of the other children
    and moves the node to the end; the list is the same as before when the
    node was already last. *)
Theorem C3_SetParent_same_parent_moves_to_end (s : State) (a p : addr) :
  held s = [] ->
  parent_okb (heap s) a = true ->
  parent_of (heap s) a = Some (iface p) ->
  In (iface a) (kids (heap s) p) ->
  exists s1,
    SetParent a (Some (iface p)) s = Ret tt s1 /\
    GetChildren p s1 =
      Ret (remove_first (iface a) (kids (heap s) p) ++ [iface a]) s1 /\
    Permutation (kids (heap s) p)
      (remove_first (iface a) (kids (heap s) p) ++ [iface a]) /\
    (forall l, kids (heap s) p = l ++ [iface a] -> ~ In (iface a) l ->
       remove_first (iface a) (kids (heap s) p) ++ [iface a] = kids (heap s) p) /\
    GetParent a s1 = Ret (Some (iface p)) s1.
Proof.
  intros Hheld Hpar Hparent Hin.
  assert (Ha : a < length (heap s)).
  { unfold parent_okb in Hpar. destruct (heap s !! a) eqn:E; [|discriminate].
    eapply lookup_lt_Some; eauto. }
  assert (Htgt : target_okb (heap s) a (Some (iface p)) = true).
  { unfold parent_okb, parent_of in *. destruct (heap s !! a) as [oa|]; [|discriminate].
    rewrite Hparent in Hpar. exact Hpar. }
  assert (Hp : p < length (heap s)).
  { unfold target_okb in Htgt. simpl in Htgt.
    apply andb_true_iff in Htgt as [_ H]. apply Nat.ltb_lt in H. exact H. }
  exists (mkState (SetParent_heap (heap s) a (Some (iface p))) []).
  split; [apply SetParent_run; assumption|].
  split.
  { rewrite GetChildren_kids_run;
      [|reflexivity | cbn [heap]; rewrite length_SetParent_heap; exact Hp].
    cbn [heap]. rewrite kids_SetParent_heap by exact Hp.
    rewrite decide_True by exact Hparent.
    rewrite decide_True by reflexivity. reflexivity. }
  split; [apply remove_first_Permutation; exact Hin|].
  split.
  { intros l Hl Hnl. rewrite Hl. rewrite remove_first_last by exact Hnl.
    reflexivity. }
  rewrite GetParent_parent_of
    by (cbn [heap]; rewrite length_SetParent_heap; exact Ha).
  cbn [heap]. rewrite parent_of_SetParent_heap_self by exact Ha. reflexivity.
Qed.

Lemma C3_SetParent_same_parent_witness :
  exists s1,
    SetParent 1 (Some (iface 0)) parent_with_two_children = Ret tt s1 /\
    GetChildren 0 s1 = Ret [iface 2; iface 1] s1 /\
    Permutation [iface 1; iface 2] [iface 2; iface 1] /\
    (forall l, [iface 1; iface 2] = l ++ [iface 1] -> ~ In (iface 1) l ->
       [iface 2; iface 1] = [iface 1; iface 2]) /\
    GetParent 1 s1 = Ret (Some (iface 0)) s1.
Proof.
  apply (C3_SetParent_same_parent_moves_to_end parent_with_two_children 1 0).
  - reflexivity.
  - reflexivity.
  - reflexivity.
  - simpl. left. reflexivity.
Defined.

(* ===================================================================== *)
(** ** Framing                                                           *)
(* ===================================================================== *)

Local Open Scope Z_scope.

Lemma byte_testbit x n :
  0 <= n -> Z.testbit (byte x) n = Z.testbit x n && (n <? 8).
Proof.
  intros Hn. unfold byte. change 255 with (Z.ones 8).
  rewrite Z.land_spec, Z.testbit_ones by lia.
  destruct (Z.leb_spec 0 n); [|lia]. simpl. reflexivity.
Qed.

Lemma Uint32_PutUint32 v : 0 <= v < 2 ^ 32 -> Uint32 (PutUint32 v) = v.
Proof.
  intros Hv. unfold Uint32, PutUint32.
  apply Z.bits_inj'. intros n Hn.
  rewrite !Z.lor_spec.
  rewrite !Z.shiftl_spec by lia.
  destruct (Z.ltb_spec n 8) as [H8|H8].
  { rewrite byte_testbit by lia.
    rewrite (Z.testbit_neg_r _ (n - 8)), (Z.testbit_neg_r _ (n - 16)),
      (Z.testbit_neg_r _ (n - 24)) by lia.
    destruct (Z.ltb_spec n 8); [|lia].
    rewrite andb_true_r, !orb_false_r. reflexivity. }
  destruct (Z.ltb_spec n 16) as [H16|H16].
  { rewrite (byte_testbit v) by lia. rewrite (byte_testbit _ (n - 8)) by lia.
    rewrite (Z.testbit_neg_r _ (n - 16)), (Z.testbit_neg_r _ (n - 24)) by lia.
    rewrite Z.shiftr_spec by lia.
    destruct (Z.ltb_spec n 8); [lia|].
    destruct (Z.ltb_spec (n - 8) 8); [|lia].
    rewrite andb_false_r, andb_true_r, !orb_false_r. simpl.
    f_equal. lia. }
  destruct (Z.ltb_spec n 24) as [H24|H24].
  { rewrite (byte_testbit v) by lia. rewrite (byte_testbit _ (n - 8)) by lia.
    rewrite (byte_testbit _ (n - 16)) by lia.
    rewrite (Z.testbit_neg_r _ (n - 24)) by lia.
    rewrite !Z.shiftr_spec by lia.
    destruct (Z.ltb_spec n 8); [lia|].
    destruct (Z.ltb_spec (n - 8) 8); [lia|].
    destruct (Z.ltb_spec (n - 16) 8); [|lia].
    rewrite !andb_false_r, andb_true_r, !orb_false_r. simpl.
    f_equal. lia. }
  rewrite (byte_testbit v) by lia. rewrite (byte_testbit _ (n - 8)) by lia.
  rewrite (byte_testbit _ (n - 16)) by lia.
  rewrite (byte_testbit _ (n - 24)) by lia.
  rewrite !Z.shiftr_spec by lia.
  destruct (Z.ltb_spec n 8); [lia|].
  destruct (Z.ltb_spec (n - 8) 8); [lia|].
  destruct (Z.ltb_spec (n - 16) 8); [lia|].
  rewrite !andb_false_r. simpl.
  destruct (Z.ltb_spec (n - 24) 8) as [H32|H32].
  - rewrite andb_true_r. f_equal. lia.
  - rewrite andb_false_r. symmetry.
    destruct (Z.eq_dec v 0) as [->|Hv0]; [apply Z.bits_0|].
    assert (Hlog : (Z.log2 v < 32)%Z) by (apply Z.log2_lt_pow2; lia).
    apply Z.bits_above_log2; lia.
Qed.

Lemma write_frame_sent c ptype psub payload :
  closed c = false -> broken c = false ->
  exists c1 tr,
    write_frame c ptype psub payload = (None, c1, tr) /\
    sent c1 = (sent c ++ frame_bytes ptype psub payload)%list /\
    pending c1 = pending c /\ closed c1 = false /\ broken c1 = false /\
    tr = ([AWrite (PutUint32 (uint32 (2 + Z.of_nat (length payload))));
           AWrite [ptype; psub]]
          ++ (if Nat.ltb 0 (length payload) then [AWrite payload] else []))%list.
Proof.
  intros Hc Hb. destruct c as [st pe cl br]. simpl in Hc, Hb. subst cl br.
  unfold write_frame, Write, frame_bytes. cbn [closed broken orb sent pending].
  destruct payload as [|x payload]; cbn [length Nat.ltb Nat.leb closed broken orb sent pending].
  - eexists _, _. split; [reflexivity|]. cbn [sent pending closed broken].
    repeat split; auto. rewrite <- app_assoc. reflexivity.
  - eexists _, _. split; [reflexivity|]. cbn [sent pending closed broken].
    repeat split; auto. rewrite <- !app_assoc. reflexivity.
Qed.

(** Any frame whose body fits the 32-bit length field is read back as the
    packet it was made from; the loop then meets the end of the stream. *)
Lemma readLoop_frame_roundtrip ptype psub payload client sent0 :
  2 + Z.of_nat (length payload) < 2 ^ 32 ->
  readLoop false (mkConn sent0 (frame_bytes ptype psub payload) false false) client
  = ([mkPacketEvent ptype psub payload client],
     mkConn sent0 [] true false, ExitHeaderError).
Proof.
  intros Hlen. unfold readLoop, frame_bytes.
  set (v := uint32 (2 + Z.of_nat (length payload))).
  assert (Hv : v = 2 + Z.of_nat (length payload)).
  { unfold v, uint32. apply Z.mod_small. lia. }
  cbn [pending]. unfold PutUint32 at 2. cbn [app length].
  cbn [readLoop_rounds]. unfold ReadFull at 1. cbn [closed pending].
  unfold PutUint32. cbn [app length Nat.leb firstn skipn].
  change [byte (Z.shiftr v 24); byte (Z.shiftr v 16); byte (Z.shiftr v 8); byte v]
    with (PutUint32 v).
  rewrite Uint32_PutUint32 by (rewrite Hv; lia).
  destruct (Z.ltb_spec v 2) as [Hlt|_]; [lia|].
  assert (Hn : Z.to_nat v = S (S (length payload))) by lia.
  rewrite Hn. unfold ReadFull at 1. cbn [closed pending length].
  rewrite Nat.leb_refl. cbn [firstn skipn nth].
  rewrite firstn_all, skipn_all.
  destruct (length payload); reflexivity.
Qed.

Local Close Scope Z_scope.

Lemma ReadFull_pending c n bs c' :
  ReadFull c n = Some (bs, c') ->
  length (pending c') + n = length (pending c).
Proof.
  unfold ReadFull. destruct (closed c); [discriminate|].
  destruct (Nat.leb n (length (pending c))) eqn:E; [|discriminate].
  apply Nat.leb_le in E. intros [= <- <-]. cbn [pending].
  rewrite length_skipn. lia.
Qed.



(** C2.  Sending type 7, subtype 3, payload "abc" puts the nine bytes
    [0 0 0 5 | 7 | 3 | 97 98 99] on the wire (length 5 = 2 + 3, big-endian),
    and a read loop fed those bytes emits exactly the packet type 7,
    subtype 3, payload "abc".  A stream that starts with the length field 1
    yields no packet: the loop closes the socket and ends. *)
Theorem C2_frame_roundtrip_and_short_length_rejected :
  let nm := mkNetworkManager (Some (mkConn [] [] false false)) None 0 false [] in
  (exists nm' tr k,
     NetworkManager_SendPacket (Some nm) 7 3 (bytes_of_string "abc")
       = (None, Some nm', tr) /\
     conn nm' = Some k /\
     sent k = [0; 0; 0; 5; 7; 3; 97; 98; 99]%Z /\
     forall client,
       readLoop false (mkConn [] (sent k) false false) client
       = ([mkPacketEvent 7 3 (bytes_of_string "abc") client],
          mkConn [] [] true false, ExitHeaderError)) /\
  (forall sent0 rest client,
     readLoop false (mkConn sent0 ([0; 0; 0; 1]%Z ++ rest) false false) client
     = ([], mkConn sent0 rest true false, ExitInvalidLength)).
Proof.
  split.
  - eexists _, _, _. split; [vm_compute; reflexivity|].
    split; [reflexivity|]. split; [reflexivity|].
    intros client. vm_compute. reflexivity.
  - intros sent0 rest client. reflexivity.
Qed.

(* ===================================================================== *)
(** ** Connect and the unconnected senders                               *)
(* ===================================================================== *)

(** C8, as stated, fails: in the trace of a successful [Connect] the read
    loop is started (position 1) before the first byte of the handshake is
    written (position 2). *)
Lemma C8_Connect_order_counterexample :
  let tr := trace_of (Connect dial_ok (Some idle_manager) "k" None "localhost" 3000) in
  tr = [ADial "localhost" 3000; AGoReadLoop;
        AWrite [0; 0; 0; 3]%Z; AWrite [0; 1]%Z; AWrite [107]%Z] /\
  position is_go tr = Some 1 /\
  position is_write tr = Some 2.
Proof. repeat split. Qed.

(** C8 (amended).  When the dial succeeds with a writable socket, [Connect]
    returns nil after, in this order: one dial, the start of one read loop,
    and the handshake frame (length, then type 0 and subtype 1, then the
    session key when it is not empty).  The manager holds the dialed socket,
    on which exactly the handshake frame was written, and one more
    goroutine is counted in its wait group. *)
Theorem C8_Connect_starts_reader_then_sends_handshake
    (dial : string -> Z -> option Conn) (m : NetworkManager) (key : string)
    (datamodel : option instanceManager) (host : string) (port : Z) (k : Conn) :
  dial host port = Some k ->
  closed k = false ->
  broken k = false ->
  exists m' k' tr,
    Connect dial (Some m) key datamodel host port = (None, Some m', tr) /\
    tr = [ADial host port; AGoReadLoop;
          AWrite (PutUint32 (uint32 (2 + Z.of_nat (length (bytes_of_string key)))));
          AWrite [0; 1]%Z]
         ++ (if Nat.ltb 0 (length (bytes_of_string key))
             then [AWrite (bytes_of_string key)] else []) /\
    count_actions is_dial tr = 1 /\
    count_actions is_go tr = 1 /\
    position is_go tr = Some 1 /\
    position is_write tr = Some 2 /\
    conn m' = Some k' /\
    sent k' = sent k ++ frame_bytes 0 1 (bytes_of_string key) /\
    wg m' = S (wg m) /\
    dm m' = datamodel.
Proof.
  intros Hdial Hc Hb.
  destruct (write_frame_sent k 0%Z 1%Z (bytes_of_string key) Hc Hb)
    as (k' & t & Hw & Hsent & _ & _ & _ & Ht).
  unfold Connect. rewrite Hdial.
  unfold NetworkManager_SendPacket. cbn [conn]. rewrite Hw.
  eexists _, k', _. split; [reflexivity|].
  subst t.
  split; [reflexivity|].
  split; [destruct (Nat.ltb 0 _); reflexivity|].
  split; [destruct (Nat.ltb 0 _); reflexivity|].
  split; [reflexivity|]. split; [reflexivity|].
  split; [reflexivity|]. split; [exact Hsent|].
  split; reflexivity.
Qed.

Lemma C8_Connect_witness :
  exists m' k' tr,
    Connect dial_ok (Some idle_manager) "k" None "localhost" 3000
      = (None, Some m', tr) /\
    tr = [ADial "localhost" 3000; AGoReadLoop;
          AWrite [0; 0; 0; 3]%Z; AWrite [0; 1]%Z; AWrite [107]%Z] /\
    count_actions is_dial tr = 1 /\
    count_actions is_go tr = 1 /\
    position is_go tr = Some 1 /\
    position is_write tr = Some 2 /\
    conn m' = Some k' /\
    sent k' = [0; 0; 0; 3; 0; 1; 107]%Z /\
    wg m' = 1 /\
    dm m' = None.
Proof.
  apply (C8_Connect_starts_reader_then_sends_handshake dial_ok idle_manager
           "k" None "localhost" 3000 (mkConn [] [] false false));
    reflexivity.
Defined.

(** C10.  [NetworkManager.SendPacket] on a nil manager or on a manager
    without a dialed socket, and [ClientConn.SendPacket] on a nil handle or
    on a handle without a socket, return an error, write nothing and leave
    their receiver as it was. *)
Theorem C10_SendPacket_without_connection_fails_cleanly
    (m : NetworkManager) (cc : ClientConn) (ptype psub : Z) (payload : list Z) :
  conn m = None ->
  cc_conn cc = None ->
  (exists e, NetworkManager_SendPacket (Some m) ptype psub payload
             = (Some e, Some m, [])) /\
  (exists e, NetworkManager_SendPacket None ptype psub payload
             = (Some e, None, [])) /\
  (exists e, ClientConn_SendPacket (Some cc) ptype psub payload
             = (Some e, Some cc, [])) /\
  (exists e, ClientConn_SendPacket None ptype psub payload
             = (Some e, None, [])).
Proof.
  intros Hm Hcc. unfold NetworkManager_SendPacket, ClientConn_SendPacket.
  rewrite Hm, Hcc. repeat split; eexists; reflexivity.
Qed.

Lemma C10_SendPacket_witness :
  (exists e, NetworkManager_SendPacket (Some idle_manager) 7 3 [97; 98; 99]%Z
             = (Some e, Some idle_manager, [])) /\
  (exists e, NetworkManager_SendPacket None 7 3 [97; 98; 99]%Z
             = (Some e, None, [])) /\
  (exists e, ClientConn_SendPacket (Some (mkClientConn None)) 7 3 [97; 98; 99]%Z
             = (Some e, Some (mkClientConn None), [])) /\
  (exists e, ClientConn_SendPacket None 7 3 [97; 98; 99]%Z
             = (Some e, None, [])).
Proof.
  apply (C10_SendPacket_without_connection_fails_cleanly idle_manager
           (mkClientConn None) 7 3 [97; 98; 99]%Z); reflexivity.
Defined.

(* ===================================================================== *)
(** ** Traversal                                                         *)
(* ===================================================================== *)

Lemma collect_run (rec : Ref -> M (list Ref)) recp cs s r :
  (forall c ds, In c cs -> recp (raddr c) = Some ds -> rec c s = Ret ds s) ->
  desc_list recp cs = Some r ->
  collect rec cs s = Ret r s.
Proof.
  revert r. induction cs as [|c cs IH]; intros r Hrec H; simpl in *.
  - injection H as <-. reflexivity.
  - destruct (recp (raddr c)) as [ds|] eqn:Hc; [|discriminate].
    destruct (desc_list recp cs) as [rest|] eqn:Hrest; [|discriminate].
    injection H as <-.
    unfold bind. rewrite (Hrec c ds (or_introl eq_refl) Hc).
    rewrite (IH rest); auto.
Qed.

Lemma collect_inv (rec : Ref -> M (list Ref)) recp cs s r s' :
  (forall c ds s1, In c cs -> rec c s = Ret ds s1 ->
                   recp (raddr c) = Some ds /\ s1 = s) ->
  collect rec cs s = Ret r s' ->
  desc_list recp cs = Some r /\ s' = s.
Proof.
  revert r s'. induction cs as [|c cs IH]; intros r s' Hrec H; simpl in *.
  - unfold ret in H. injection H as <- <-. auto.
  - unfold bind in H.
    destruct (rec c s) as [ds s1| | |] eqn:Hc; try discriminate.
    destruct (Hrec c ds s1 (or_introl eq_refl) Hc) as [Hp ->].
    destruct (collect rec cs s) as [rest s2| | |] eqn:Hrest; try discriminate.
    unfold ret in H. injection H as <- <-.
    destruct (IH rest s2 (fun c' ds' s1' Hin => Hrec c' ds' s1' (or_intror Hin))
                eq_refl) as [Hr Hs].
    rewrite Hp, Hr. auto.
Qed.

Lemma getDescendantsInterface_run f s r ds :
  held s = [] -> desc f (heap s) (raddr r) = Some ds ->
  getDescendantsInterface f r s = Ret ds s.
Proof.
  intros Hheld. revert r ds. induction f as [|f IH]; intros r ds H; [discriminate|].
  simpl in H. destruct (heap s !! raddr r) as [o|] eqn:Ho; [|discriminate].
  simpl. unfold bind.
  rewrite (GetChildren_run s _ o Ho) by (rewrite Hheld; reflexivity).
  apply (collect_run _ (desc f (heap s))); auto.
Qed.

Lemma GetDescendants_run f s b ds :
  held s = [] -> desc f (heap s) b = Some ds ->
  GetDescendants f b s = Ret ds s.
Proof.
  intros Hheld. revert b ds. induction f as [|f IH]; intros b ds H; [discriminate|].
  simpl in H. destruct (heap s !! b) as [o|] eqn:Ho; [|discriminate].
  simpl. unfold bind at 1. unfold lock. rewrite Hheld.
  change (is_held b []) with false. cbv iota.
  unfold bind at 1. unfold load at 1. cbn [heap held]. rewrite Ho.
  unfold bind at 1. unfold unlock at 1. cbn [heap held].
  rewrite is_held_cons_same, release_cons by reflexivity.
  rewrite <- Hheld, state_eta.
  apply (collect_run _ (desc f (heap s))); [|exact H].
  intros c ds' _ Hc. destruct (asBase c) as [bi|] eqn:Hb.
  - apply asBase_Some in Hb. subst c. apply IH. exact Hc.
  - apply getDescendantsInterface_run; auto.
Qed.

Lemma getDescendantsInterface_inv f s r ds s' :
  held s = [] -> getDescendantsInterface f r s = Ret ds s' ->
  desc f (heap s) (raddr r) = Some ds /\ s' = s.
Proof.
  intros Hheld. revert r ds s'.
  induction f as [|f IH]; intros r ds s' H; [discriminate|].
  simpl in H. unfold bind in H.
  destruct (GetChildren (raddr r) s) as [cs s1| | |] eqn:Hg; try discriminate.
  destruct (GetChildren_kids _ _ _ _ Hheld Hg) as [-> ->].
  simpl. unfold kids in *.
  destruct (heap s !! raddr r) as [o|] eqn:Ho.
  - apply (collect_inv (getDescendantsInterface f) (desc f (heap s))
             _ _ _ _ (fun c ds1 s1 _ Hc => IH c ds1 s1 Hc) H).
  - unfold GetChildren, bind, lock, load in Hg. rewrite Hheld in Hg.
    change (is_held (raddr r) []) with false in Hg. simpl in Hg.
    rewrite Ho in Hg. discriminate.
Qed.

Lemma GetDescendants_inv f s b ds s' :
  held s = [] -> GetDescendants f b s = Ret ds s' ->
  desc f (heap s) b = Some ds /\ s' = s.
Proof.
  intros Hheld. revert b ds s'.
  induction f as [|f IH]; intros b ds s' H; [discriminate|].
  simpl in H. unfold bind at 1 in H. unfold lock in H. rewrite Hheld in H.
  change (is_held b []) with false in H. cbv iota in H.
  unfold bind at 1 in H. unfold load at 1 in H. cbn [heap held] in H.
  simpl. destruct (heap s !! b) as [o|] eqn:Ho; [|discriminate].
  unfold bind at 1 in H. unfold unlock at 1 in H. cbn [heap held] in H.
  rewrite is_held_cons_same, release_cons in H by reflexivity.
  rewrite <- Hheld, state_eta in H.
  refine (collect_inv _ (desc f (heap s)) _ _ _ _ _ H).
  intros c ds1 s1 _ Hc. destruct (asBase c) as [bi|] eqn:Hb.
  - apply asBase_Some in Hb. subst c. apply IH. exact Hc.
  - apply getDescendantsInterface_inv; auto.
Qed.

(** [desc_list] succeeds exactly when every child's traversal does. *)
Lemma desc_list_is_Some rec cs :
  is_Some (desc_list rec cs) <-> (forall c, In c cs -> is_Some (rec (raddr c))).
Proof.
  induction cs as [|c cs IH]; simpl.
  - split; [intros _ c [] | intros _; eexists; reflexivity].
  - split.
    + intros [r Hr] c' [<-|Hin].
      * destruct (rec (raddr c)); [eexists; reflexivity | discriminate].
      * apply IH; [|exact Hin].
        destruct (rec (raddr c)); [|discriminate].
        destruct (desc_list rec cs); [eexists; reflexivity | discriminate].
    + intros Hall.
      destruct (Hall c (or_introl eq_refl)) as [ds ->].
      destruct (proj2 IH (fun c' Hc' => Hall c' (or_intror Hc'))) as [rest ->].
      eexists; reflexivity.
Qed.

(** Membership in the result of [desc_list]. *)
Lemma desc_list_In rec cs r x :
  desc_list rec cs = Some r ->
  In x r <-> (In x cs \/ exists c ds, In c cs /\ rec (raddr c) = Some ds /\ In x ds).
Proof.
  revert r. induction cs as [|c cs IH]; intros r H; simpl in H.
  - injection H as <-. simpl. split; [intros [] | intros [[]|(c & ds & [] & _)]].
  - destruct (rec (raddr c)) as [ds|] eqn:Hc; [|discriminate].
    destruct (desc_list rec cs) as [rest|] eqn:Hrest; [|discriminate].
    injection H as <-. specialize (IH rest eq_refl).
    simpl. rewrite in_app_iff, IH. split.
    + intros [->|[Hds|[Hcs|(c' & ds' & Hc' & Hr' & Hx)]]].
      * left; left; reflexivity.
      * right. exists c, ds. auto.
      * left; right; exact Hcs.
      * right. exists c', ds'. auto.
    + intros [[->|Hcs]|(c' & ds' & [<-|Hc'] & Hr' & Hx)].
      * left; reflexivity.
      * right; right; left; exact Hcs.
      * right; left. rewrite Hc in Hr'. injection Hr' as <-. exact Hx.
      * right; right; right. exists c', ds'. auto.
Qed.

(** Every descendant is listed by the start node or by a descendant. *)
Lemma desc_listed f h b ds x :
  desc f h b = Some ds -> In x ds ->
  exists y, In y (b :: map raddr ds) /\ In x (kids h y).
Proof.
  revert b ds x. induction f as [|f IH]; intros b ds x H Hx; [discriminate|].
  simpl in H. destruct (h !! b) as [o|] eqn:Ho; [|discriminate].
  pose proof (proj1 (desc_list_In _ _ _ x H) Hx) as [Hcs|(c & dc & Hc & Hdc & Hxc)].
  - exists b. split; [left; reflexivity|]. unfold kids. rewrite Ho. exact Hcs.
  - destruct (IH _ _ _ Hdc Hxc) as (y & Hy & Hxy).
    exists y. split; [|exact Hxy]. right.
    destruct Hy as [<-|Hy].
    + apply in_map. apply (desc_list_In _ _ _ c H). left; exact Hc.
    + apply in_map_iff in Hy as (r & <- & Hr). apply in_map.
      apply (desc_list_In _ _ _ r H). right. exists c, dc. auto.
Qed.

(** The children of the start node and of every descendant are descendants. *)
Lemma desc_closed f h b ds y c :
  desc f h b = Some ds -> In y (b :: map raddr ds) -> In c (kids h y) ->
  In c ds.
Proof.
  revert b ds y c. induction f as [|f IH]; intros b ds y c H Hy Hc; [discriminate|].
  simpl in H. destruct (h !! b) as [o|] eqn:Ho; [|discriminate].
  destruct Hy as [<-|Hy].
  - apply (desc_list_In _ _ _ c H). left. unfold kids in Hc. rewrite Ho in Hc.
    exact Hc.
  - apply in_map_iff in Hy as (r & <- & Hr).
    apply (desc_list_In _ _ _ r H) in Hr as [Hr|(c' & dc & Hc' & Hdc & Hr)].
    + destruct (proj1 (desc_list_is_Some _ _) (ex_intro _ _ H) r Hr) as [dr Hdr].
      apply (desc_list_In _ _ _ c H). right. exists r, dr.
      split; [exact Hr|]. split; [exact Hdr|].
      eapply IH; [exact Hdr | left; reflexivity | exact Hc].
    + apply (desc_list_In _ _ _ c H). right. exists c', dc.
      split; [exact Hc'|]. split; [exact Hdc|].
      eapply IH; [exact Hdc | right; apply in_map; exact Hr | exact Hc].
Qed.

Lemma desc_list_ext rec rec' cs r :
  desc_list rec cs = Some r ->
  (forall c dc, In c cs -> rec (raddr c) = Some dc -> rec' (raddr c) = Some dc) ->
  desc_list rec' cs = Some r.
Proof.
  revert r. induction cs as [|c cs IH]; intros r H Hext; simpl in *; [exact H|].
  destruct (rec (raddr c)) as [dc|] eqn:Hc; [|discriminate].
  destruct (desc_list rec cs) as [rest|] eqn:Hrest; [|discriminate].
  rewrite (Hext c dc (or_introl eq_refl) Hc).
  rewrite (IH rest eq_refl); [exact H|].
  intros c' dc' Hc' Hdc'. apply Hext; [right; exact Hc' | exact Hdc'].
Qed.

(** The traversal only reads the records of the nodes it visits. *)
Lemma desc_frame f h h' b ds :
  desc f h b = Some ds ->
  (forall y, In y (b :: map raddr ds) -> h' !! y = h !! y) ->
  desc f h' b = Some ds.
Proof.
  revert b ds. induction f as [|f IH]; intros b ds H Hsame; [discriminate|].
  simpl in *. rewrite (Hsame b (or_introl eq_refl)).
  destruct (h !! b) as [o|] eqn:Ho; [|discriminate].
  apply (desc_list_ext _ _ _ _ H).
  intros c dc Hc Hdc. apply IH; [exact Hdc|].
  intros y Hy. apply Hsame. right.
  destruct Hy as [<-|Hy].
  - apply in_map. apply (desc_list_In _ _ _ c H). left; exact Hc.
  - apply in_map_iff in Hy as (r & <- & Hr). apply in_map.
    apply (desc_list_In _ _ _ r H). right. exists c, dc. auto.
Qed.

(** Shrinking child lists keeps the traversal within its bound. *)
Lemma desc_shrink f h h' b :
  length h' = length h ->
  (forall q c, In c (kids h' q) -> In c (kids h q)) ->
  is_Some (desc f h b) -> is_Some (desc f h' b).
Proof.
  intros Hlen Hincl. revert b. induction f as [|f IH]; intros b [ds H];
    [discriminate|].
  simpl in *. destruct (h !! b) as [o|] eqn:Ho; [|discriminate].
  destruct (lookup_lt_is_Some_2 h' b) as [o' Ho'].
  { rewrite Hlen. eapply lookup_lt_Some; eauto. }
  rewrite Ho'. apply desc_list_is_Some. intros c Hc. apply IH.
  apply (proj1 (desc_list_is_Some _ _) (ex_intro _ _ H)).
  specialize (Hincl b c). unfold kids in Hincl. rewrite Ho, Ho' in Hincl.
  auto.
Qed.

(* ===================================================================== *)
(** ** Destroy                                                           *)
(* ===================================================================== *)

Lemma detach_lookup_ne h a y :
  parent_of h a <> Some (iface y) -> detach h a !! y = h !! y.
Proof.
  unfold detach, parent_of. destruct (h !! a) as [oa|]; [|reflexivity].
  destruct (parent oa) as [p|]; [|reflexivity].
  destruct (asBase p) as [pb|] eqn:Hp; [|reflexivity].
  apply asBase_Some in Hp. subst p. intros Hne.
  apply list_lookup_alter_ne. congruence.
Qed.

(** [Destroy] after its loop: detach from the parent, clear the node. *)
Lemma Destroy_tail hl n :
  n < length hl ->
  parent_valid hl n ->
  (let* o1 := load n in
   match parent o1 with
   | Some p =>
       match asBase p with
       | Some pbase => removeChild pbase (iface n)
       | None => ret tt
       end
   | None => ret tt
   end ;;;
   lock n ;;;
   update n (fun o2 => with_children (with_parent o2 None) None) ;;;
   unlock n) (mkState hl [])
  = Ret tt (mkState (alter cleared n (detach hl n)) []).
Proof.
  intros Hn Hpv. destruct (lookup_lt_is_Some_2 _ _ Hn) as [o1 Ho1].
  unfold bind at 1. unfold load at 1. cbn [heap held]. rewrite Ho1.
  assert (Hrm :
    match parent o1 with
    | Some p =>
        match asBase p with
        | Some pbase => removeChild pbase (iface n)
        | None => ret tt
        end
    | None => ret tt
    end (mkState hl []) = Ret tt (mkState (detach hl n) [])).
  { unfold detach. rewrite Ho1.
    destruct (parent o1) as [p|] eqn:Hp; [|reflexivity].
    destruct (asBase p) as [pb|] eqn:Hb; [|reflexivity].
    apply asBase_Some in Hb. subst p.
    destruct (Hpv (iface pb)) as [_ Hlt].
    { unfold parent_of. rewrite Ho1. exact Hp. }
    apply (removeChild_alter (mkState hl [])); [exact Hlt | reflexivity]. }
  unfold bind at 1. rewrite Hrm.
  unfold bind at 1. unfold lock at 1. cbn [heap held].
  change (is_held n []) with false. cbv iota.
  unfold bind at 1.
  rewrite update_alter by (cbn [heap]; rewrite length_detach; exact Hn).
  unfold unlock. cbn [heap held]. rewrite is_held_cons_same.
  rewrite release_cons by reflexivity. reflexivity.
Qed.

Lemma Destroy_unfold f n s o :
  held s = [] -> heap s !! n = Some o ->
  Destroy (S f) n s =
    (forM (elems (children o)) (fun child => Destroy f (raddr child)) ;;;
     let* o1 := load n in
     match parent o1 with
     | Some p =>
         match asBase p with
         | Some pbase => removeChild pbase (iface n)
         | None => ret tt
         end
     | None => ret tt
     end ;;;
     lock n ;;;
     update n (fun o2 => with_children (with_parent o2 None) None) ;;;
     unlock n) s.
Proof.
  intros Hheld Ho. cbn [Destroy].
  unfold bind at 1. unfold lock at 1. rewrite Hheld.
  change (is_held n []) with false. cbv iota.
  unfold bind at 1. unfold load at 1. cbn [heap held]. rewrite Ho.
  unfold bind at 1. unfold unlock at 1. cbn [heap held].
  rewrite is_held_cons_same, release_cons by reflexivity.
  rewrite <- Hheld, state_eta. reflexivity.
Qed.

Lemma dead_alter_without h pa r y :
  dead h y -> dead (alter (fun o => without_child o r) pa h) y.
Proof.
  intros [Hp Hk]. split.
  - rewrite parent_of_alter_parent; [exact Hp|].
    intros o. apply parent_without_child.
  - unfold kids in *. destruct (decide (pa = y)) as [->|Hne].
    + rewrite list_lookup_alter_eq. destruct (h !! y) as [o|]; simpl; [|reflexivity].
      rewrite elems_without_child, Hk. reflexivity.
    + rewrite list_lookup_alter_ne by exact Hne. exact Hk.
Qed.

Lemma dead_detach h a y : dead h y -> dead (detach h a) y.
Proof.
  intros Hd. unfold detach. destruct (h !! a) as [oa|]; [|exact Hd].
  destruct (parent oa) as [p|]; [|exact Hd].
  destruct (asBase p); [|exact Hd].
  apply dead_alter_without. exact Hd.
Qed.

Lemma kids_ext (h1 h2 : Heap) y : h1 !! y = h2 !! y -> kids h1 y = kids h2 y.
Proof. unfold kids. intros ->. reflexivity. Qed.

Lemma parent_of_ext (h1 h2 : Heap) y :
  h1 !! y = h2 !! y -> parent_of h1 y = parent_of h2 y.
Proof. unfold parent_of. intros ->. reflexivity. Qed.

Lemma dead_ext (h1 h2 : Heap) y : h1 !! y = h2 !! y -> dead h2 y -> dead h1 y.
Proof.
  intros He [Hp Hk]. split.
  - rewrite (parent_of_ext _ _ _ He). exact Hp.
  - rewrite (kids_ext _ _ _ He). exact Hk.
Qed.

Lemma NoDup_cons_app_inv (n : addr) (P R : list addr) :
  NoDup (n :: P ++ R) ->
  ~ In n P /\ ~ In n R /\ NoDup P /\ NoDup R /\ (forall y, In y R -> ~ In y P).
Proof.
  intros H. apply NoDup_cons in H as [Hn H].
  rewrite list_elem_of_In, in_app_iff in Hn.
  apply NoDup_app in H as (HP & Hdisj & HR).
  repeat split; auto.
  intros y Hy HyP. apply (Hdisj y); apply list_elem_of_In; assumption.
Qed.

Lemma Destroy_loop f (Hf : Destroy_spec f) (h : Heap) (n : addr) :
  n < length h ->
  forall cs r hi P,
    desc_list (desc f h) cs = Some r ->
    NoDup (n :: P ++ map raddr r) ->
    (forall c, In c cs -> rkind c = KBase /\ parent_of h (raddr c) = Some (iface n)) ->
    tree_links h (map raddr r) ->
    length hi = length h ->
    (forall y, In y P -> dead hi y) ->
    (forall y, ~ In y P -> y <> n -> hi !! y = h !! y) ->
    parent_of hi n = parent_of h n ->
    exists h',
      forM cs (fun child => Destroy f (raddr child)) (mkState hi [])
        = Ret tt (mkState h' []) /\
      length h' = length h /\
      (forall y, In y (P ++ map raddr r) -> dead h' y) /\
      (forall y, ~ In y (P ++ map raddr r) -> y <> n -> h' !! y = h !! y) /\
      parent_of h' n = parent_of h n.
Proof.
  intros Hn. induction cs as [|c cs IH];
    intros r hi P Hdl Hnd Hcs Hlinks Hlen Hdead Hsame Hpar; simpl in Hdl.
  - injection Hdl as <-. exists hi. simpl. rewrite app_nil_r.
    repeat split; auto; apply Hdead; assumption.
  - destruct (desc f h (raddr c)) as [dc|] eqn:Hc; [|discriminate].
    destruct (desc_list (desc f h) cs) as [rest|] eqn:Hrest; [|discriminate].
    injection Hdl as <-.
    destruct (Hcs c (or_introl eq_refl)) as [Hkind Hpc].
    set (a := raddr c) in *.
    assert (Hmap : map raddr (c :: dc ++ rest)
                   = (a :: map raddr dc) ++ map raddr rest).
    { simpl. rewrite map_app. reflexivity. }
    rewrite Hmap in Hnd, Hlinks.
    destruct (NoDup_cons_app_inv _ _ _ Hnd) as (HnP & HnR & HndP & HndR & Hdisj).
    apply NoDup_app in HndR as (Hnd_c & Hdisj_c & Hnd_rest).
    (* the subtree below [c] is untouched so far *)
    assert (Hsub_same : forall y, In y (a :: map raddr dc) -> hi !! y = h !! y).
    { intros y Hy. apply Hsame.
      - apply Hdisj. apply in_or_app. left; exact Hy.
      - intros ->. apply HnR. apply in_or_app. left; exact Hy. }
    destruct (Hf (mkState hi []) a dc) as (h1 & Hrun & Hlen1 & Hdead1 & Hpar1 & Hrec1 & _).
    + reflexivity.
    + cbn [heap]. eapply desc_frame; [exact Hc | exact Hsub_same].
    + exact Hnd_c.
    + cbn [heap]. intros y ch Hy Hch.
      rewrite (kids_ext _ _ _ (Hsub_same y Hy)) in Hch.
      destruct (Hlinks y ch) as [Hk Hp]; [apply in_or_app; left; exact Hy | exact Hch |].
      split; [exact Hk|].
      rewrite (parent_of_ext hi h); [exact Hp|].
      apply Hsub_same. right. apply in_map.
      eapply desc_closed; [exact Hc | exact Hy | exact Hch].
    + cbn [heap]. intros p Hp.
      rewrite (parent_of_ext hi h _ (Hsub_same a (or_introl eq_refl))) in Hp.
      rewrite Hpc in Hp. injection Hp as <-. simpl. split; [|lia].
      intros ->. apply HnR. apply in_or_app. left. left. reflexivity.
    + cbn [heap] in *.
      assert (Hpa : parent_of hi a = Some (iface n)).
      { rewrite (parent_of_ext hi h _ (Hsub_same a (or_introl eq_refl))).
        exact Hpc. }
      assert (Hkeep : forall y, ~ In y (a :: map raddr dc) -> y <> n ->
                h1 !! y = hi !! y).
      { intros y Hy Hyn. apply Hrec1; [exact Hy|].
        rewrite Hpa. intros [= E]. congruence. }
      destruct (IH rest h1 (P ++ a :: map raddr dc)) as (h' & Hrun' & Hlen' & Hdead' & Hsame' & Hpar').
      * reflexivity.
      * rewrite <- app_assoc. exact Hnd.
      * intros c' Hc'. apply Hcs. right; exact Hc'.
      * intros y ch Hy Hch. apply (Hlinks y ch); [|exact Hch].
        apply in_or_app. right; exact Hy.
      * lia.
      * intros y Hy. apply in_app_or in Hy as [Hy|Hy].
        -- apply (dead_ext h1 hi); [|apply Hdead; exact Hy].
           apply Hkeep.
           ++ intros Hya. apply (Hdisj y); [|exact Hy].
              apply in_or_app. left; exact Hya.
           ++ intros ->. contradiction.
        -- apply Hdead1. exact Hy.
      * intros y Hy Hyn. rewrite Hkeep.
        -- apply Hsame; [|exact Hyn]. intros HyP. apply Hy.
           apply in_or_app. left; exact HyP.
        -- intros Hya. apply Hy. apply in_or_app. right; exact Hya.
        -- exact Hyn.
      * rewrite Hpar1; [exact Hpar|].
        intros Hna. apply HnR. apply in_or_app. left; exact Hna.
      * exists h'. split.
        { cbn [forM]. unfold bind. fold a. rewrite Hrun. exact Hrun'. }
        rewrite Hmap. rewrite <- app_assoc in Hdead', Hsame'.
        split; [exact Hlen'|]. split; [exact Hdead'|].
        split; [exact Hsame' | exact Hpar'].
Qed.

Lemma cleared_dead h n : n < length h -> dead (alter cleared n h) n.
Proof.
  intros Hn. destruct (lookup_lt_is_Some_2 _ _ Hn) as [o Ho].
  split.
  - unfold parent_of. rewrite list_lookup_alter_eq, Ho. reflexivity.
  - unfold kids. rewrite list_lookup_alter_eq, Ho. reflexivity.
Qed.

Lemma Destroy_step f : Destroy_spec f -> Destroy_spec (S f).
Proof.
  intros Hf s n ds Hheld Hdesc Hnd Hlinks Hpv.
  cbn [desc] in Hdesc.
  destruct (heap s !! n) as [o|] eqn:Ho; [|discriminate].
  assert (Hn : n < length (heap s)) by (eapply lookup_lt_Some; eauto).
  destruct (Destroy_loop f Hf (heap s) n Hn (elems (children o)) ds (heap s) [])
    as (hl & Hloop & Hlenl & Hdeadl & Hsamel & Hparl); auto.
  { intros c Hc. apply (Hlinks n c); [left; reflexivity|].
    unfold kids. rewrite Ho. exact Hc. }
  { intros y c Hy Hc. apply (Hlinks y c); [right; exact Hy | exact Hc]. }
  { intros y []. }
  cbn [app] in Hdeadl, Hsamel.
  assert (Hnds : ~ In n (map raddr ds)).
  { apply NoDup_cons in Hnd as [Hnin _]. rewrite list_elem_of_In in Hnin.
    exact Hnin. }
  assert (Hpvl : parent_valid hl n).
  { intros p Hp. rewrite Hparl in Hp. rewrite Hlenl. apply Hpv. exact Hp. }
  exists (alter cleared n (detach hl n)).
  split.
  { rewrite (Destroy_unfold f n s o Hheld Ho).
    unfold bind at 1. rewrite <- (state_eta s) at 1. rewrite Hheld, Hloop.
    apply Destroy_tail; [lia | exact Hpvl]. }
  split; [rewrite length_alter, length_detach; exact Hlenl|].
  split.
  { intros y [<-|Hy].
    - apply cleared_dead. rewrite length_detach. lia.
    - apply (dead_ext _ (detach hl n)).
      + apply list_lookup_alter_ne. intros ->. contradiction.
      + apply dead_detach. apply Hdeadl. exact Hy. }
  split.
  { intros y Hy.
    assert (Hyn : y <> n) by (intros ->; apply Hy; left; reflexivity).
    rewrite (parent_of_ext _ (detach hl n))
      by (apply list_lookup_alter_ne; congruence).
    rewrite parent_of_detach. apply parent_of_ext. apply Hsamel; [|exact Hyn].
    intros Hin. apply Hy. right; exact Hin. }
  split.
  { intros y Hy Hne.
    assert (Hyn : y <> n) by (intros ->; apply Hy; left; reflexivity).
    rewrite list_lookup_alter_ne by congruence.
    rewrite detach_lookup_ne by (rewrite Hparl; exact Hne).
    apply Hsamel; [|exact Hyn]. intros Hin. apply Hy. right; exact Hin. }
  intros y Hy Heq.
  assert (Hyn : y <> n) by (intros ->; apply Hy; left; reflexivity).
  rewrite (kids_ext _ (detach hl n))
    by (apply list_lookup_alter_ne; congruence).
  rewrite kids_detach. rewrite decide_True by (rewrite Hparl; exact Heq).
  f_equal. apply kids_ext. apply Hsamel; [|exact Hyn].
  intros Hin. apply Hy. right; exact Hin.
Qed.

Lemma Destroy_spec_all f : Destroy_spec f.
Proof.
  induction f as [|f IH]; [|apply Destroy_step; exact IH].
  intros s n ds _ Hdesc. discriminate.
Qed.

Lemma consistentb_node h q :
  consistentb h = true ->
  forallb (child_okb h q) (kids h q) = true /\ nodupb (kids h q) = true.
Proof.
  unfold consistentb. rewrite forallb_forall. intros Hall.
  destruct (decide (q < length h)) as [Hlt|Hge].
  - apply andb_true_iff. apply Hall. apply in_seq. lia.
  - unfold kids. rewrite (lookup_ge_None_2 h q) by lia. split; reflexivity.
Qed.

Lemma consistentb_links h ys : consistentb h = true -> tree_links h ys.
Proof.
  intros Hc y c _ Hin.
  destruct (consistentb_node h y Hc) as [Hall _].
  rewrite forallb_forall in Hall. specialize (Hall c Hin).
  unfold child_okb in Hall. apply andb_true_iff in Hall as [Hk Hp].
  apply Kind_eqb_eq in Hk. split; [exact Hk|].
  destruct (parent_of h (raddr c)) as [p|]; [|discriminate].
  apply Ref_eqb_eq in Hp. subst p. reflexivity.
Qed.

Lemma nodupb_count l r : nodupb l = true -> count_occ Ref_eq_dec l r <= 1.
Proof.
  induction l as [|x l IH]; simpl; [lia|].
  intros H. apply andb_true_iff in H as [Hx Hl].
  specialize (IH Hl). destruct (Ref_eq_dec x r) as [->|Hne]; [|exact IH].
  apply negb_true_iff in Hx.
  assert (Hnin : ~ In r l).
  { intros Hin. rewrite <- not_true_iff_false in Hx. apply Hx.
    apply existsb_exists. exists r. split; [exact Hin | apply Ref_eqb_refl]. }
  apply (count_occ_not_In Ref_eq_dec) in Hnin. lia.
Qed.

Lemma remove_first_incl r l x : In x (remove_first r l) -> In x l.
Proof.
  induction l as [|y l IH]; simpl; [auto|].
  destruct (Ref_eqb y r); [auto|].
  intros [->|H]; [left; reflexivity | right; auto].
Qed.

Lemma parent_okb_valid h n : parent_okb h n = true -> parent_valid h n.
Proof.
  unfold parent_okb, parent_valid, parent_of.
  destruct (h !! n) as [o|]; [|discriminate].
  intros H p Hp. rewrite Hp in H.
  apply andb_true_iff in H as [Hne Hlt].
  apply negb_true_iff, Nat.eqb_neq in Hne. apply Nat.ltb_lt in Hlt. auto.
Qed.

(* ===================================================================== *)
(** ** Consistent heaps are forests                                      *)
(* ===================================================================== *)

Lemma desc_mono f h b r : desc f h b = Some r -> desc (S f) h b = Some r.
Proof.
  revert b r. induction f as [|f IH]; intros b r H; [discriminate|].
  cbn [desc] in H. change (desc (S (S f)) h b) with
    (match h !! b with
     | Some o => desc_list (desc (S f) h) (elems (children o))
     | None => None
     end).
  destruct (h !! b) as [o|]; [|discriminate].
  apply (desc_list_ext _ _ _ _ H). intros c dc _ Hc. apply IH. exact Hc.
Qed.

Lemma desc_list_length rec cs r c dc :
  desc_list rec cs = Some r -> In c cs -> rec (raddr c) = Some dc ->
  length dc < length r.
Proof.
  revert r. induction cs as [|c0 cs IH]; intros r H Hin Hc; [destruct Hin|].
  simpl in H. destruct (rec (raddr c0)) as [d0|] eqn:H0; [|discriminate].
  destruct (desc_list rec cs) as [rest|] eqn:Hrest; [|discriminate].
  injection H as <-. simpl. rewrite length_app.
  destruct Hin as [->|Hin].
  - rewrite Hc in H0. injection H0 as <-. lia.
  - specialize (IH rest eq_refl Hin Hc). lia.
Qed.

(** Every descendant has its own traversal within the same bound, with a
    strictly shorter result. *)
Lemma desc_sub f h b ds x :
  desc f h b = Some ds -> In x ds ->
  exists dx, desc f h (raddr x) = Some dx /\ length dx < length ds.
Proof.
  revert b ds x. induction f as [|f IH]; intros b ds x H Hx; [discriminate|].
  pose proof H as H'. cbn [desc] in H.
  destruct (h !! b) as [o|]; [|discriminate].
  apply (desc_list_In _ _ _ x H) in Hx as [Hx|(c & dc & Hc & Hdc & Hx)].
  - destruct (proj1 (desc_list_is_Some _ _) (ex_intro _ _ H) x Hx) as [dx Hdx].
    exists dx. split; [apply desc_mono; exact Hdx|].
    eapply desc_list_length; eauto.
  - destruct (IH _ _ _ Hdc Hx) as (dx & Hdx & Hlen).
    exists dx. split; [apply desc_mono; exact Hdx|].
    pose proof (desc_list_length _ _ _ _ _ H Hc Hdc). lia.
Qed.

(** A traversal that returns never meets its own start node. *)
Lemma desc_acyclic f h n ds :
  desc f h n = Some ds -> ~ In n (map raddr ds).
Proof.
  intros H Hin. apply in_map_iff in Hin as (x & Hx & Hin).
  destruct (desc_sub _ _ _ _ _ H Hin) as (dx & Hdx & Hlen).
  rewrite Hx, H in Hdx. injection Hdx as <-. lia.
Qed.

(** In a consistent heap the parent pointer of a descendant names the start
    node or a descendant, and that node lists it. *)
Lemma desc_parent_in f h c d x :
  consistentb h = true -> desc f h c = Some d -> In x d ->
  exists y, In y (c :: map raddr d) /\ In x (kids h y) /\
            parent_of h (raddr x) = Some (iface y).
Proof.
  intros Hcons Hd Hx.
  destruct (desc_listed _ _ _ _ _ Hd Hx) as (y & Hy & Hxy).
  exists y. split; [exact Hy|]. split; [exact Hxy|].
  apply (consistentb_links _ [y] Hcons y x); [left; reflexivity | exact Hxy].
Qed.

Lemma desc_of_member f h c d y :
  desc f h c = Some d -> In y (c :: map raddr d) ->
  exists dy, desc f h y = Some dy /\ length dy <= length d.
Proof.
  intros Hd [<-|Hy].
  - exists d. auto.
  - apply in_map_iff in Hy as (r & <- & Hr).
    destruct (desc_sub _ _ _ _ _ Hd Hr) as (dy & Hdy & Hlen).
    exists dy. split; [exact Hdy | lia].
Qed.

(** Two children of one node span disjoint subtrees. *)
Lemma subtrees_disjoint f h n ci cj di dj :
  consistentb h = true ->
  desc f h ci = Some di -> desc f h cj = Some dj ->
  parent_of h ci = Some (iface n) -> parent_of h cj = Some (iface n) ->
  ~ In n (ci :: map raddr di) -> ~ In n (cj :: map raddr dj) ->
  ci <> cj ->
  forall x, In x (ci :: map raddr di) -> In x (cj :: map raddr dj) -> False.
Proof.
  intros Hcons Hdi Hdj Hpi Hpj Hni Hnj Hne.
  (* a child that lies below the other child *)
  assert (Htop : forall c c' d', desc f h c' = Some d' ->
            parent_of h c = Some (iface n) -> ~ In n (c' :: map raddr d') ->
            In c (map raddr d') -> False).
  { intros c c' d' Hd' Hpc Hn' Hin.
    apply in_map_iff in Hin as (r & <- & Hr).
    destruct (desc_parent_in _ _ _ _ _ Hcons Hd' Hr) as (y & Hy & _ & Hpy).
    rewrite Hpy in Hpc. injection Hpc as ->. contradiction. }
  assert (Hmain : forall m x dx,
            desc f h x = Some dx -> length di <= m + length dx ->
            In x (ci :: map raddr di) -> In x (cj :: map raddr dj) -> False).
  { induction m as [|m IH]; intros x dx Hdx Hlen Hxi Hxj.
    - destruct Hxi as [<-|Hxi].
      + destruct Hxj as [E|Hxj]; [congruence|].
        eapply (Htop ci cj dj); eauto.
      + apply in_map_iff in Hxi as (r & <- & Hr).
        destruct (desc_sub _ _ _ _ _ Hdi Hr) as (dx' & Hdx' & Hl).
        rewrite Hdx in Hdx'. injection Hdx' as <-. simpl in Hlen. lia.
    - destruct Hxi as [<-|Hxi].
      + destruct Hxj as [E|Hxj]; [congruence|].
        eapply (Htop ci cj dj); eauto.
      + destruct Hxj as [<-|Hxj].
        * eapply (Htop cj ci di); eauto.
        * apply in_map_iff in Hxi as (ri & Eri & Hri).
          apply in_map_iff in Hxj as (rj & Erj & Hrj).
          destruct (desc_parent_in _ _ _ _ _ Hcons Hdi Hri) as (y & Hy & Hk & Hpy).
          destruct (desc_parent_in _ _ _ _ _ Hcons Hdj Hrj) as (y' & Hy' & _ & Hpy').
          rewrite Eri in Hpy. rewrite Erj in Hpy'. rewrite Hpy in Hpy'.
          injection Hpy' as <-.
          destruct (desc_of_member _ _ _ _ _ Hdi Hy) as (dy & Hdy & Hly).
          assert (Hin : In ri dy).
          { eapply desc_closed; [exact Hdy | left; reflexivity | exact Hk]. }
          destruct (desc_sub _ _ _ _ _ Hdy Hin) as (dx' & Hdx' & Hl).
          rewrite Eri, Hdx in Hdx'. injection Hdx' as <-.
          apply (IH y dy Hdy); [lia | exact Hy | exact Hy']. }
  intros x Hxi Hxj.
  destruct (desc_of_member _ _ _ _ _ Hdi Hxi) as (dx & Hdx & _).
  apply (Hmain (length di) x dx Hdx); [lia | exact Hxi | exact Hxj].
Qed.

Lemma nodupb_head x l : nodupb (x :: l) = true -> ~ In x l /\ nodupb l = true.
Proof.
  simpl. intros H. apply andb_true_iff in H as [Hx Hl]. split; [|exact Hl].
  apply negb_true_iff in Hx. intros Hin.
  rewrite <- not_true_iff_false in Hx. apply Hx.
  apply existsb_exists. exists x. split; [exact Hin | apply Ref_eqb_refl].
Qed.

(** The traversal of the children [cs] of [n] repeats no node. *)
Lemma desc_list_NoDup f h n cs r :
  consistentb h = true ->
  (forall c d, desc f h c = Some d -> NoDup (map raddr d)) ->
  nodupb cs = true ->
  (forall c, In c cs -> rkind c = KBase /\ parent_of h (raddr c) = Some (iface n)) ->
  desc_list (desc f h) cs = Some r ->
  ~ In n (map raddr r) ->
  NoDup (map raddr r).
Proof.
  intros Hcons IHf. revert r.
  induction cs as [|c cs IH]; intros r Hnd Hcs H Hn; simpl in H.
  - injection H as <-. constructor.
  - destruct (desc f h (raddr c)) as [dc|] eqn:Hc; [|discriminate].
    destruct (desc_list (desc f h) cs) as [rest|] eqn:Hrest; [|discriminate].
    injection H as <-.
    destruct (nodupb_head _ _ Hnd) as [Hcnin Hnd'].
    assert (Hmap : map raddr (c :: dc ++ rest)
                   = (raddr c :: map raddr dc) ++ map raddr rest).
    { simpl. rewrite map_app. reflexivity. }
    rewrite Hmap in *.
    assert (Hn_c : ~ In n (raddr c :: map raddr dc)).
    { intros Hin. apply Hn. apply in_or_app. left; exact Hin. }
    assert (Hn_rest : ~ In n (map raddr rest)).
    { intros Hin. apply Hn. apply in_or_app. right; exact Hin. }
    destruct (Hcs c (or_introl eq_refl)) as [Hkc Hpc].
    (* no node below [c] shows up again below a later child *)
    assert (Hdisj : forall x, In x (raddr c :: map raddr dc) ->
                      ~ In x (map raddr rest)).
    { intros x Hx Hxr. apply in_map_iff in Hxr as (rx & Erx & Hrx).
      apply (desc_list_In _ _ _ rx Hrest) in Hrx
        as [Hrx|(c' & dc' & Hc' & Hdc' & Hrx)].
      - destruct (proj1 (desc_list_is_Some _ _) (ex_intro _ _ Hrest) rx Hrx)
          as [d' Hd'].
        destruct (Hcs rx (or_intror Hrx)) as [Hk' Hp'].
        refine (subtrees_disjoint f h n (raddr c) (raddr rx) dc d' Hcons Hc Hd'
                  Hpc Hp' Hn_c _ _ x Hx (or_introl Erx)).
        + intros [E|Hin]; apply Hn_rest.
          * rewrite <- E. apply in_map.
            apply (desc_list_In _ _ _ rx Hrest). left; exact Hrx.
          * apply in_map_iff in Hin as (z & <- & Hz). apply in_map.
            apply (desc_list_In _ _ _ z Hrest). right. exists rx, d'. auto.
        + intros E. apply Hcnin.
          assert (c = rx) as ->; [|exact Hrx].
          destruct c as [kc ac], rx as [kx ax]. simpl in *. congruence.
      - destruct (Hcs c' (or_intror Hc')) as [Hk' Hp'].
        assert (Hxj : In x (raddr c' :: map raddr dc')).
        { right. rewrite <- Erx. apply in_map. exact Hrx. }
        refine (subtrees_disjoint f h n (raddr c) (raddr c') dc dc' Hcons Hc Hdc'
                  Hpc Hp' Hn_c _ _ x Hx Hxj).
        + intros [E|Hin]; apply Hn_rest.
          * rewrite <- E. apply in_map.
            apply (desc_list_In _ _ _ c' Hrest). left; exact Hc'.
          * apply in_map_iff in Hin as (z & <- & Hz). apply in_map.
            apply (desc_list_In _ _ _ z Hrest). right. exists c', dc'. auto.
        + intros E. apply Hcnin.
          assert (c = c') as ->; [|exact Hc'].
          destruct c as [kc ac], c' as [kx ax]. simpl in *. congruence. }
    apply NoDup_app. split; [|split].
    + apply NoDup_cons. split; [|eapply IHf; exact Hc].
      rewrite list_elem_of_In. eapply desc_acyclic. exact Hc.
    + intros x Hx. rewrite list_elem_of_In in *. apply Hdisj. exact Hx.
    + apply (IH rest); auto.
      intros c' Hc'. apply Hcs. right; exact Hc'.
Qed.

Lemma desc_NoDup f h n ds :
  consistentb h = true -> desc f h n = Some ds -> NoDup (n :: map raddr ds).
Proof.
  intros Hcons. revert n ds.
  assert (Hall : forall n ds, desc f h n = Some ds -> NoDup (map raddr ds)).
  { induction f as [|f IH]; intros n ds H; [discriminate|].
    pose proof (desc_acyclic _ _ _ _ H) as Hn.
    cbn [desc] in H. destruct (h !! n) as [o|] eqn:Ho; [|discriminate].
    destruct (consistentb_node h n Hcons) as [_ Hnd].
    unfold kids in Hnd. rewrite Ho in Hnd.
    apply (desc_list_NoDup f h n (elems (children o))); auto.
    intros c Hc. apply (consistentb_links _ [n] Hcons n c); [left; reflexivity|].
    unfold kids. rewrite Ho. exact Hc. }
  intros n ds H. apply NoDup_cons. split; [|eapply Hall; exact H].
  rewrite list_elem_of_In. eapply desc_acyclic. exact H.
Qed.

(** C6.  In a consistent heap with no node lock held, let
    [N.GetDescendants()] return [ds] and [A.GetDescendants()] return.  Then
    [N.Destroy()] returns, and afterwards [A.GetDescendants()] returns a list
    that contains neither N nor any element of [ds]. *)
Theorem C6_Destroy_removes_subtree_from_descendants
    (s : State) (n a : addr) (f fa : nat) (ds dsA : list Ref) :
  held s = [] ->
  consistentb (heap s) = true ->
  parent_okb (heap s) n = true ->
  GetDescendants f n s = Ret ds s ->
  GetDescendants fa a s = Ret dsA s ->
  exists s' dsA',
    Destroy f n s = Ret tt s' /\
    GetDescendants fa a s' = Ret dsA' s' /\
    (forall x, In x (iface n :: ds) -> ~ In x dsA').
Proof.
  intros Hheld Hcons Hpok Hn Ha.
  apply GetDescendants_inv in Hn as [Hdn _]; [|exact Hheld].
  apply GetDescendants_inv in Ha as [Hda _]; [|exact Hheld].
  pose proof (desc_NoDup _ _ _ _ Hcons Hdn) as Hnd.
  destruct (Destroy_spec_all f s n ds Hheld Hdn Hnd
              (consistentb_links _ _ Hcons) (parent_okb_valid _ _ Hpok))
    as (h' & Hrun & Hlen & Hdead & _ & Hrec & Hkids).
  (* child lists only shrink *)
  assert (Hincl : forall q c, In c (kids h' q) -> In c (kids (heap s) q)).
  { intros q c Hc.
    destruct (in_dec Nat.eq_dec q (n :: map raddr ds)) as [Hq|Hq].
    - destruct (Hdead q Hq) as [_ Hk]. rewrite Hk in Hc. destruct Hc.
    - destruct (decide (parent_of (heap s) n = Some (iface q))) as [Hp|Hp].
      + rewrite (Hkids q Hq Hp) in Hc. eapply remove_first_incl; eauto.
      + rewrite (kids_ext _ _ _ (Hrec q Hq Hp)) in Hc. exact Hc. }
  destruct (desc_shrink fa (heap s) h' a Hlen Hincl (ex_intro _ _ Hda))
    as [dsA' Hda'].
  exists (mkState h' []), dsA'.
  split; [exact Hrun|].
  split; [apply GetDescendants_run; [reflexivity | exact Hda']|].
  intros x Hx HxA.
  destruct (desc_listed fa h' a dsA' x Hda' HxA) as (y & _ & Hxy).
  assert (Hy : ~ In y (n :: map raddr ds)).
  { intros Hy. destruct (Hdead y Hy) as [_ Hk]. rewrite Hk in Hxy. destruct Hxy. }
  (* in the old heap, [x] points back at a node of the subtree or is [n] *)
  assert (Hback : In x ds -> exists y', In y' (n :: map raddr ds) /\
                    parent_of (heap s) (raddr x) = Some (iface y')).
  { intros Hxd. destruct (desc_listed f (heap s) n ds x Hdn Hxd) as (y' & Hy' & Hxy').
    exists y'. split; [exact Hy'|].
    apply (consistentb_links _ [y'] Hcons y' x); [left; reflexivity | exact Hxy']. }
  destruct (decide (parent_of (heap s) n = Some (iface y))) as [Hp|Hp].
  - rewrite (Hkids y Hy Hp) in Hxy.
    destruct Hx as [<-|Hxd].
    + apply (count_occ_In Ref_eq_dec) in Hxy. rewrite count_remove_first in Hxy.
      destruct (consistentb_node _ y Hcons) as [_ Hnodup].
      pose proof (nodupb_count _ (iface n) Hnodup). lia.
    + destruct (Hback Hxd) as (y' & Hy' & Hpx).
      apply remove_first_incl in Hxy.
      destruct (consistentb_links _ [y] Hcons y x (or_introl eq_refl) Hxy) as [_ Hpy].
      rewrite Hpy in Hpx. injection Hpx as ->. contradiction.
  - rewrite (kids_ext _ _ _ (Hrec y Hy Hp)) in Hxy.
    destruct (consistentb_links _ [y] Hcons y x (or_introl eq_refl) Hxy) as [_ Hpy].
    destruct Hx as [<-|Hxd].
    + simpl in Hpy. contradiction.
    + destruct (Hback Hxd) as (y' & Hy' & Hpx).
      rewrite Hpy in Hpx. injection Hpx as ->. contradiction.
Qed.

Lemma C6_Destroy_witness :
  exists s' dsA',
    Destroy 2 1 tree_Root_A_B = Ret tt s' /\
    GetDescendants 3 0 s' = Ret dsA' s' /\
    (forall x, In x [iface 1; iface 2] -> ~ In x dsA').
Proof.
  apply (C6_Destroy_removes_subtree_from_descendants tree_Root_A_B 1 0 2 3
           [iface 2] [iface 1; iface 2]).
  - reflexivity.
  - vm_compute. reflexivity.
  - reflexivity.
  - vm_compute. reflexivity.
  - vm_compute. reflexivity.
Defined.

(* ===================================================================== *)
(** ** Clone                                                             *)
(* ===================================================================== *)

Lemma atree_list_ext rec rec' cs ts :
  atree_list rec cs = Some ts ->
  (forall c t, In c cs -> In t ts -> rec (raddr c) = Some t ->
               rec' (raddr c) = Some t) ->
  atree_list rec' cs = Some ts.
Proof.
  revert ts. induction cs as [|c cs IH]; intros ts H Hext; simpl in *; [exact H|].
  destruct (rec (raddr c)) as [t|] eqn:Hc; [|discriminate].
  destruct (atree_list rec cs) as [ts'|] eqn:Hrest; [|discriminate].
  injection H as <-.
  rewrite (Hext c t (or_introl eq_refl) (or_introl eq_refl) Hc).
  rewrite (IH ts' eq_refl); [reflexivity|].
  intros c' t' Hc' Ht'. apply Hext; [right; exact Hc' | right; exact Ht'].
Qed.

Lemma atree_list_In rec cs ts t :
  atree_list rec cs = Some ts -> In t ts ->
  exists c, In c cs /\ rec (raddr c) = Some t.
Proof.
  revert ts. induction cs as [|c cs IH]; intros ts H Ht; simpl in H.
  - injection H as <-. destruct Ht.
  - destruct (rec (raddr c)) as [t0|] eqn:Hc; [|discriminate].
    destruct (atree_list rec cs) as [ts'|] eqn:Hrest; [|discriminate].
    injection H as <-. destruct Ht as [<-|Ht].
    + exists c. split; [left; reflexivity | exact Hc].
    + destruct (IH ts' eq_refl Ht) as (c' & Hc' & Hr).
      exists c'. split; [right; exact Hc' | exact Hr].
Qed.

Lemma atree_addrs_lt f h b t x :
  atree f h b = Some t -> In x (addrs t) -> x < length h.
Proof.
  revert b t x. induction f as [|f IH]; intros b t x H Hx; [discriminate|].
  simpl in H. destruct (h !! b) as [o|] eqn:Ho; [|discriminate].
  destruct (atree_list (atree f h) (elems (children o))) as [ts|] eqn:Hts;
    [|discriminate].
  injection H as <-. simpl in Hx. destruct Hx as [<-|Hx].
  - eapply lookup_lt_Some; eauto.
  - apply in_flat_map in Hx as (t' & Ht' & Hx).
    destruct (atree_list_In _ _ _ _ Hts Ht') as (c & _ & Hc).
    eapply IH; eauto.
Qed.

(** The subtree value depends only on the views of its own nodes. *)
Lemma atree_frame f h h' b t :
  atree f h b = Some t ->
  (forall y, In y (addrs t) -> view h' y = view h y) ->
  atree f h' b = Some t.
Proof.
  revert b t. induction f as [|f IH]; intros b t H Hv; [discriminate|].
  simpl in H. destruct (h !! b) as [o|] eqn:Ho; [|discriminate].
  destruct (atree_list (atree f h) (elems (children o))) as [ts|] eqn:Hts;
    [|discriminate].
  injection H as <-.
  pose proof (Hv b (or_introl eq_refl)) as Hb. unfold view in Hb.
  rewrite Ho in Hb. simpl.
  destruct (h' !! b) as [o'|]; [|discriminate].
  injection Hb as -> -> ->.
  rewrite (atree_list_ext _ (atree f h') _ _ Hts); [reflexivity|].
  intros c t Hc Ht Hct. apply IH; [exact Hct|].
  intros y Hy. apply Hv. simpl. right. apply in_flat_map. exists t. auto.
Qed.

Lemma view_ext (h1 h2 : Heap) y : h1 !! y = h2 !! y -> view h1 y = view h2 y.
Proof. unfold view. intros ->. reflexivity. Qed.

Lemma insert_last (h : Heap) x y : <[length h := y]> (h ++ [x]) = h ++ [y].
Proof.
  rewrite insert_app_r_alt by lia. rewrite Nat.sub_diag. reflexivity.
Qed.

Lemma lookup_last (h : Heap) x : (h ++ [x]) !! length h = Some x.
Proof. rewrite lookup_app_r by lia. rewrite Nat.sub_diag. reflexivity. Qed.

(** [Clone] up to its loop: a fresh base node that carries the class name
    and the name of the source. *)
Lemma Clone_unfold dim f b s o :
  manager_ok dim -> held s = [] -> heap s !! b = Some o ->
  exists o_r,
    className o_r = className o /\ name o_r = name o /\
    elems (children o_r) = [] /\ parent o_r = None /\
    Clone dim (S f) b s =
      (forM (elems (children o)) (clone_child dim f (iface (length (heap s)))) ;;;
       ret (Some (iface (length (heap s)))))
      (mkState (heap s ++ [o_r]) []).
Proof.
  intros Hok Hheld Hb.
  assert (Hlt : b < length (heap s)) by (eapply lookup_lt_Some; eauto).
  assert (Hb' : forall x, (heap s ++ [x]) !! b = Some o).
  { intros x. rewrite lookup_app_l by exact Hlt. exact Hb. }
  destruct dim as [m|]; cbn [Clone].
  - destruct Hok as [Hmu Hplain].
    unfold bind at 1. rewrite (load_run _ _ _ Hb).
    unfold bind at 1.
    destruct (registry m !! className o) as [c|] eqn:Hreg.
    + destruct (Hplain _ _ Hreg s) as (oc & Hc & Hpar & Hkids & Hcn).
      rewrite (Create_base_run m (className o) c s _ (length (heap s)) oc Hmu Hreg Hc)
        by (cbn [heap]; apply lookup_last).
      cbn [heap held]. rewrite insert_last.
      exists (with_name (backfilled (className o) oc) (name o)).
      split.
      { simpl. destruct Hcn as [->| ->]; [reflexivity|].
        destruct (String.eqb (className o) ""); reflexivity. }
      split; [reflexivity|]. split; [exact Hkids|]. split; [exact Hpar|].
      unfold bind at 1, ret at 1.
      unfold bind at 1. unfold load at 1. cbn [heap held]. rewrite Hb'.
      unfold bind at 1. unfold SetName. cbn [raddr iface].
      rewrite (update_run _ _ (backfilled (className o) oc))
        by (cbn [heap]; apply lookup_last).
      cbn [heap held]. rewrite insert_last. rewrite Hheld.
      unfold bind at 1.
      rewrite (GetChildren_run _ b o) by (cbn [heap held]; auto).
      reflexivity.
    + rewrite Create_unfold by exact Hmu. rewrite Hreg.
      exists (with_name (NewBaseInstance_obj (className o)) (name o)).
      split; [reflexivity|]. split; [reflexivity|].
      split; [reflexivity|]. split; [reflexivity|].
      unfold bind at 1. unfold bind at 1. unfold NewBaseInstance, alloc at 1.
      unfold ret at 1.
      unfold bind at 1. unfold load at 1. cbn [heap held]. rewrite Hb'.
      unfold bind at 1. unfold SetName. cbn [raddr iface].
      rewrite (update_run _ _ (NewBaseInstance_obj (className o)))
        by (cbn [heap]; apply lookup_last).
      cbn [heap held]. rewrite insert_last. rewrite Hheld.
      unfold bind at 1.
      rewrite (GetChildren_run _ b o) by (cbn [heap held]; auto).
      reflexivity.
  - exists (with_name (NewBaseInstance_obj (className o)) (name o)).
    split; [reflexivity|]. split; [reflexivity|].
    split; [reflexivity|]. split; [reflexivity|].
    unfold bind at 1. rewrite (load_run _ _ _ Hb).
    unfold bind at 1. unfold NewBaseInstance, alloc at 1.
    unfold bind at 1. unfold load at 1. cbn [heap held]. rewrite Hb'.
    unfold bind at 1.
    rewrite (update_run _ _ (NewBaseInstance_obj (className o)))
      by (cbn [heap]; apply lookup_last).
    cbn [heap held]. rewrite insert_last. rewrite Hheld.
    unfold bind at 1.
    rewrite (GetChildren_run _ b o) by (cbn [heap held]; auto).
    reflexivity.
Qed.

Lemma SetParent_heap_lookup_ne h a np y :
  y <> a -> parent_of h a <> Some (iface y) -> np <> Some (iface y) ->
  SetParent_heap h a np !! y = h !! y.
Proof.
  intros Hya Hold Hnew. unfold SetParent_heap, attach.
  assert (Hin : alter (fun o => with_parent o np) a (detach h a) !! y = h !! y).
  { rewrite list_lookup_alter_ne by congruence. apply detach_lookup_ne. exact Hold. }
  destruct np as [p|]; [|exact Hin].
  destruct (asBase p) as [b|] eqn:Hp; [|exact Hin].
  apply asBase_Some in Hp. subst p.
  rewrite list_lookup_alter_ne by congruence. exact Hin.
Qed.

Lemma view_SetParent_heap_self h a np :
  parent_of h a <> Some (iface a) -> np <> Some (iface a) ->
  view (SetParent_heap h a np) a = view h a.
Proof.
  intros Hold Hnew. unfold SetParent_heap, attach.
  assert (Hin : view (alter (fun o => with_parent o np) a (detach h a)) a = view h a).
  { unfold view. rewrite list_lookup_alter_eq.
    rewrite detach_lookup_ne by exact Hold.
    destruct (h !! a); reflexivity. }
  destruct np as [p|]; [|exact Hin].
  destruct (asBase p) as [b|] eqn:Hp; [|exact Hin].
  apply asBase_Some in Hp. subst p.
  rewrite <- Hin. apply view_ext. apply list_lookup_alter_ne. congruence.
Qed.

Lemma view_SetParent_heap_target h a r cn nm ks :
  r <> a -> parent_of h a <> Some (iface r) ->
  view h r = Some (cn, nm, ks) ->
  view (SetParent_heap h a (Some (iface r))) r = Some (cn, nm, ks ++ [iface a]).
Proof.
  intros Hra Hold Hv. unfold SetParent_heap, attach. rewrite asBase_iface.
  unfold view in *. rewrite list_lookup_alter_eq.
  rewrite list_lookup_alter_ne by congruence.
  rewrite detach_lookup_ne by exact Hold.
  destruct (h !! r) as [o|]; [|discriminate].
  injection Hv as <- <- <-. reflexivity.
Qed.

Lemma parent_of_SetParent_heap_ne h a np y :
  y <> a -> parent_of (SetParent_heap h a np) y = parent_of h y.
Proof.
  intros Hya. unfold SetParent_heap. rewrite parent_of_attach.
  rewrite (parent_of_ext _ (detach h a))
    by (apply list_lookup_alter_ne; congruence).
  apply parent_of_detach.
Qed.

Lemma atree_list_app rec cs1 cs2 ts1 ts2 :
  atree_list rec cs1 = Some ts1 -> atree_list rec cs2 = Some ts2 ->
  atree_list rec (cs1 ++ cs2) = Some (ts1 ++ ts2).
Proof.
  revert ts1. induction cs1 as [|c cs1 IH]; intros ts1 H1 H2; simpl in *.
  - injection H1 as <-. exact H2.
  - destruct (rec (raddr c)) as [t|]; [|discriminate].
    destruct (atree_list rec cs1) as [ts|]; [|discriminate].
    injection H1 as <-. rewrite (IH ts eq_refl H2). reflexivity.
Qed.

Lemma Clone_loop dim f (Hf : Clone_spec dim f) (hs : Heap) (cn nm : string) :
  forall cs ts hi rs done,
    atree_list (atree f hs) cs = Some ts ->
    (forall y, y < length hs -> hi !! y = hs !! y) ->
    length hs < length hi ->
    parent_of hi (length hs) = None ->
    view hi (length hs) = Some (cn, nm, rs) ->
    atree_list (atree f hi) rs = Some done ->
    (forall x, In x (flat_map addrs done) -> length hs < x) ->
    exists h' rs' ts',
      forM cs (clone_child dim f (iface (length hs))) (mkState hi [])
        = Ret tt (mkState h' []) /\
      length hi <= length h' /\
      (forall y, y < length hs -> h' !! y = hs !! y) /\
      parent_of h' (length hs) = None /\
      view h' (length hs) = Some (cn, nm, rs ++ rs') /\
      atree_list (atree f h') (rs ++ rs') = Some (done ++ ts') /\
      map erase ts' = map erase ts /\
      (forall x, In x (flat_map addrs (done ++ ts')) -> length hs < x).
Proof.
  set (r := length hs).
  induction cs as [|c cs IH];
    intros ts hi rs done Hts Hpre Hr Hpar Hview Hdone Hbound; simpl in Hts.
  - injection Hts as <-. exists hi, [], []. rewrite !app_nil_r.
    repeat split; auto.
  - destruct (atree f hs (raddr c)) as [tc|] eqn:Hc; [|discriminate].
    destruct (atree_list (atree f hs) cs) as [ts0|] eqn:Hts0; [|discriminate].
    injection Hts as <-.
    assert (H1 : atree f hi (raddr c) = Some tc).
    { eapply atree_frame; [exact Hc|]. intros y Hy. apply view_ext.
      apply Hpre. eapply atree_addrs_lt; eauto. }
    destruct (Hf (mkState hi []) (raddr c) tc eq_refl H1)
      as (h1 & t'c & Hrun & Hlen1 & Hpre1 & Hpar1 & Hat1 & Her1 & Hadd1).
    cbn [heap] in *. set (rc := length hi) in *.
    assert (Hrrc : r <> rc) by lia.
    assert (Hpok : parent_okb h1 rc = true).
    { unfold parent_okb. unfold parent_of in Hpar1.
      destruct (lookup_lt_is_Some_2 h1 rc Hlen1) as [o1 Ho1].
      rewrite Ho1 in *. rewrite Hpar1. reflexivity. }
    assert (Htok : target_okb h1 rc (Some (iface r)) = true).
    { unfold target_okb. cbn [raddr iface]. apply andb_true_iff. split.
      - apply negb_true_iff, Nat.eqb_neq. exact Hrrc.
      - apply Nat.ltb_lt. lia. }
    set (h2 := SetParent_heap h1 rc (Some (iface r))).
    assert (Hstep : clone_child dim f (iface r) c (mkState hi [])
                    = Ret tt (mkState h2 [])).
    { unfold clone_child, bind. rewrite Hrun. cbn [raddr iface].
      apply (SetParent_run (mkState h1 [])); auto. }
    assert (Hnone : forall y, parent_of h1 rc <> Some (iface y))
      by (intros y; rewrite Hpar1; discriminate).
    assert (F1 : forall y, y <> r -> y <> rc -> h2 !! y = h1 !! y).
    { intros y Hyr Hyrc. apply SetParent_heap_lookup_ne; auto.
      intros [= E]. congruence. }
    assert (F2 : view h2 rc = view h1 rc).
    { apply view_SetParent_heap_self; auto. intros [= E]. congruence. }
    assert (F3 : view h2 r = Some (cn, nm, rs ++ [iface rc])).
    { apply view_SetParent_heap_target; auto.
      rewrite <- Hview. apply view_ext. apply Hpre1. exact Hr. }
    assert (F4 : parent_of h2 r = None).
    { unfold h2. rewrite parent_of_SetParent_heap_ne by exact Hrrc.
      rewrite <- Hpar. apply parent_of_ext. apply Hpre1. exact Hr. }
    assert (F5 : length h2 = length h1) by apply length_SetParent_heap.
    destruct (IH ts0 h2 (rs ++ [iface rc]) (done ++ [t'c]))
      as (h' & rs' & ts' & Hrun' & Hlen' & Hpre' & Hpar' & Hview' & Hat' & Her' & Hb').
    + reflexivity.
    + intros y Hy. rewrite F1 by (fold r in Hy; lia).
      rewrite Hpre1 by (fold r in Hy; lia). apply Hpre. exact Hy.
    + lia.
    + exact F4.
    + exact F3.
    + apply atree_list_app.
      * apply (atree_list_ext _ _ _ _ Hdone). intros c' t' Hc' Ht' Hct'.
        eapply atree_frame; [exact Hct'|]. intros y Hy.
        assert (Hry : r < y).
        { apply Hbound. apply in_flat_map. exists t'. auto. }
        assert (Hylt : y < rc) by (eapply atree_addrs_lt; eauto).
        apply view_ext. rewrite F1 by lia. apply Hpre1. exact Hylt.
      * simpl. cbn [raddr iface].
        rewrite (atree_frame f h1 h2 rc t'c Hat1); [reflexivity|].
        intros y Hy. specialize (Hadd1 y Hy).
        destruct (decide (y = rc)) as [->|Hne]; [exact F2|].
        apply view_ext. apply F1; lia.
    + intros x Hx. rewrite flat_map_app in Hx. apply in_app_or in Hx as [Hx|Hx].
      * apply Hbound. exact Hx.
      * simpl in Hx. rewrite app_nil_r in Hx. specialize (Hadd1 x Hx). lia.
    + exists h', (iface rc :: rs'), (t'c :: ts').
      split. { cbn [forM]. unfold bind. rewrite Hstep. exact Hrun'. }
      split; [lia|]. split; [exact Hpre'|]. split; [exact Hpar'|].
      assert (E1 : (rs ++ [iface rc]) ++ rs' = rs ++ iface rc :: rs')
        by (rewrite <- app_assoc; reflexivity).
      assert (E2 : (done ++ [t'c]) ++ ts' = done ++ t'c :: ts')
        by (rewrite <- app_assoc; reflexivity).
      rewrite E1 in Hview', Hat'. rewrite E2 in Hat', Hb'.
      split; [exact Hview'|]. split; [exact Hat'|].
      split; [simpl; rewrite Her1, Her'; reflexivity | exact Hb'].
Qed.

Lemma Clone_step dim f :
  manager_ok dim -> Clone_spec dim f -> Clone_spec dim (S f).
Proof.
  intros Hok Hf s b t Hheld Ht. cbn [atree] in Ht.
  destruct (heap s !! b) as [o|] eqn:Hb; [|discriminate].
  destruct (atree_list (atree f (heap s)) (elems (children o))) as [ts|] eqn:Hts;
    [|discriminate].
  injection Ht as <-.
  destruct (Clone_unfold dim f b s o Hok Hheld Hb)
    as (o_r & Hcn & Hnm & Hkids & Hpar & Hrun).
  set (r := length (heap s)) in *.
  destruct (Clone_loop dim f Hf (heap s) (className o) (name o)
              (elems (children o)) ts (heap s ++ [o_r]) [] [] Hts)
    as (h' & rs' & ts' & Hloop & Hlen' & Hpre' & Hpar' & Hview' & Hat' & Her' & Hb').
  { intros y Hy. apply lookup_app_l. exact Hy. }
  { rewrite length_app. simpl. lia. }
  { unfold parent_of. fold r. unfold r. rewrite lookup_last. exact Hpar. }
  { unfold view. rewrite lookup_last. rewrite Hcn, Hnm, Hkids. reflexivity. }
  { reflexivity. }
  { intros x []. }
  cbn [app] in *. fold r in Hloop, Hpar', Hview', Hb'.
  assert (Hrlt : r < length h').
  { rewrite length_app in Hlen'. simpl in Hlen'. unfold r. lia. }
  exists h', (ANode r (className o) (name o) ts').
  split. { rewrite Hrun. unfold bind. rewrite Hloop. reflexivity. }
  split; [exact Hrlt|]. split; [exact Hpre'|]. split; [exact Hpar'|].
  split.
  { cbn [atree]. unfold view in Hview'.
    destruct (h' !! r) as [o'|]; [|discriminate].
    injection Hview' as -> -> ->. rewrite Hat'. reflexivity. }
  split; [simpl; rewrite Her'; reflexivity|].
  intros x [<-|Hx]; [unfold r; lia|].
  specialize (Hb' x Hx). unfold r in *. lia.
Qed.

Lemma Clone_spec_all dim f : manager_ok dim -> Clone_spec dim f.
Proof.
  intros Hok. induction f as [|f IH]; [|apply Clone_step; assumption].
  intros s b t _ Ht. discriminate.
Qed.

Lemma ctor_Instance_plain : plain_ctor "Instance" ctor_Instance.
Proof.
  intros s. exists (NewBaseInstance_obj "Instance").
  split; [|repeat split; auto].
  unfold ctor_Instance, NewBaseInstance, alloc, bind.
  rewrite (update_run _ _ (NewBaseInstance_obj "Instance"))
    by (cbn [heap]; apply lookup_last).
  cbn [heap held]. rewrite insert_last. reflexivity.
Qed.

(** The manager the package installs as [DefaultInstanceManager]. *)
Lemma NewInstanceManager_ok : manager_ok (Some NewInstanceManager).
Proof.
  split; [discriminate|]. intros cn c Hreg.
  unfold NewInstanceManager in Hreg. cbn [registry] in Hreg.
  apply lookup_singleton_Some in Hreg as [<- <-].
  exact ctor_Instance_plain.
Qed.

(** C7, as stated, fails: the clone of a "Foo" node is tagged "Bar", and
    the clone of a workspace with one child has no child. *)
Lemma C7_Clone_counterexample :
  result (clone_Foo (mkState [] [])) = Some ("Foo", "Bar") /\
  result (clone_Workspace (mkState [] [])) = Some ([iface 1], []).
Proof. split; vm_compute; reflexivity. Qed.

(** C7 (amended).  Let [DefaultInstanceManager] be nil, or hold only
    constructors that allocate one fresh plain base node tagged with the
    registered class name or left untagged (as the manager the package
    installs does).  For every node N whose subtree [t] is finite,
    [N.Clone()] returns a new node whose subtree has the shape of [t] (same
    branching, class names and names, in the same order), none of whose
    nodes is a node of [t]; the source subtree is left as it was. *)
Theorem C7_Clone_isomorphic_with_fresh_identities
    (dim : option instanceManager) (s : State) (b : addr) (f : nat) (t : ATree) :
  manager_ok dim ->
  held s = [] ->
  atree f (heap s) b = Some t ->
  exists s' r t',
    Clone dim f b s = Ret (Some (iface r)) s' /\
    atree f (heap s') r = Some t' /\
    erase t' = erase t /\
    (forall x, In x (addrs t') -> ~ In x (addrs t)) /\
    atree f (heap s') b = Some t.
Proof.
  intros Hok Hheld Ht.
  destruct (Clone_spec_all dim f Hok s b t Hheld Ht)
    as (h' & t' & Hrun & Hlen & Hpre & _ & Hat & Her & Hfresh).
  exists (mkState h' []), (length (heap s)), t'.
  split; [exact Hrun|]. split; [exact Hat|]. split; [exact Her|].
  split.
  - intros x Hx Hsrc. specialize (Hfresh x Hx).
    pose proof (atree_addrs_lt _ _ _ _ _ Ht Hsrc). lia.
  - cbn [heap]. eapply atree_frame; [exact Ht|].
    intros y Hy. apply view_ext. apply Hpre.
    eapply atree_addrs_lt; eauto.
Qed.

Lemma C7_Clone_witness :
  exists s' r t',
    Clone (Some NewInstanceManager) 3 0 tree_Root_A_B = Ret (Some (iface r)) s' /\
    atree 3 (heap s') r = Some t' /\
    erase t' = SNode "Instance" "Root"
                 [SNode "Instance" "A" [SNode "Instance" "B" []]] /\
    (forall x, In x (addrs t') -> ~ In x [0; 1; 2]) /\
    atree 3 (heap s') 0 =
      Some (ANode 0 "Instance" "Root"
              [ANode 1 "Instance" "A" [ANode 2 "Instance" "B" []]]).
Proof.
  apply (C7_Clone_isomorphic_with_fresh_identities (Some NewInstanceManager)
           tree_Root_A_B 0 3
           (ANode 0 "Instance" "Root"
              [ANode 1 "Instance" "A" [ANode 2 "Instance" "B" []]])).
  - exact NewInstanceManager_ok.
  - reflexivity.
  - reflexivity.
Defined.

(* ===================================================================== *)
(** ** Streams of frames                                                 *)
(* ===================================================================== *)

Lemma readLoop_rounds_fuel f1 f2 cancelled r client :
  length (pending r) < f1 -> length (pending r) < f2 ->
  readLoop_rounds f1 cancelled r client = readLoop_rounds f2 cancelled r client.
Proof.
  revert f2 r. induction f1 as [|f1 IH]; intros f2 r H1 H2; [lia|].
  destruct f2 as [|f2]; [lia|].
  cbn [readLoop_rounds]. destruct cancelled; [reflexivity|].
  destruct (ReadFull r 4) as [[lenBuf r1]|] eqn:H4; [|reflexivity].
  destruct (Z.ltb (Uint32 lenBuf) 2); [reflexivity|].
  destruct (ReadFull r1 (Z.to_nat (Uint32 lenBuf))) as [[body r2]|] eqn:Hb;
    [|reflexivity].
  apply ReadFull_pending in H4. apply ReadFull_pending in Hb.
  rewrite (IH f2 r2) by lia. reflexivity.
Qed.

Lemma length_frame_bytes ptype psub payload :
  length (frame_bytes ptype psub payload) = 6 + length payload.
Proof. unfold frame_bytes, PutUint32. rewrite !length_app. simpl. lia. Qed.

(** One round of the loop on a stream that starts with a frame. *)
Lemma readLoop_rounds_frame fuel ptype psub payload rest client sent0 :
  (2 + Z.of_nat (length payload) < 2 ^ 32)%Z ->
  readLoop_rounds (S fuel) false
    (mkConn sent0 (frame_bytes ptype psub payload ++ rest) false false) client
  = let '(evts, r, ex) :=
      readLoop_rounds fuel false (mkConn sent0 rest false false) client in
    (mkPacketEvent ptype psub payload client :: evts, r, ex).
Proof.
  intros Hlen. unfold frame_bytes.
  set (v := uint32 (2 + Z.of_nat (length payload))).
  assert (Hv : v = (2 + Z.of_nat (length payload))%Z).
  { unfold v, uint32. apply Z.mod_small. lia. }
  cbn [readLoop_rounds]. unfold ReadFull at 1. cbn [closed pending].
  unfold PutUint32. cbn [app length Nat.leb firstn skipn].
  change [byte (Z.shiftr v 24); byte (Z.shiftr v 16); byte (Z.shiftr v 8); byte v]
    with (PutUint32 v).
  rewrite Uint32_PutUint32 by (rewrite Hv; lia).
  destruct (Z.ltb_spec v 2) as [Hlt|_]; [lia|].
  assert (Hn : Z.to_nat v = S (S (length payload))) by lia.
  rewrite Hn. unfold ReadFull at 1. cbn [closed pending length sent broken].
  assert (Hle : Nat.leb (length payload) (length (payload ++ rest)) = true).
  { apply Nat.leb_le. rewrite length_app. lia. }
  cbn [Nat.leb]. rewrite Hle. cbn [firstn skipn nth].
  rewrite firstn_app, Nat.sub_diag, firstn_all. cbn [firstn].
  rewrite app_nil_r.
  rewrite skipn_app, Nat.sub_diag, skipn_all. cbn [skipn app].
  reflexivity.
Qed.

Lemma readLoop_frames_prefix ps : forall rest client sent0,
  Forall fits ps ->
  readLoop false (mkConn sent0 (frames ps ++ rest) false false) client
  = let '(evts, r, ex) :=
      readLoop false (mkConn sent0 rest false false) client in
    (map (event_of client) ps ++ evts, r, ex).
Proof.
  induction ps as [|[[t u] pl] ps IH]; intros rest client sent0 Hfit.
  - cbn [frames flat_map app map].
    destruct (readLoop false _ client) as [[evts r] ex]. reflexivity.
  - inversion Hfit as [|? ? Hp Hps]; subst.
    unfold fits in Hp. cbn [snd] in Hp.
    specialize (IH rest client sent0 Hps).
    unfold readLoop in *. cbn [pending] in *.
    cbn [frames flat_map fst snd]. fold (frames ps).
    rewrite <- app_assoc.
    rewrite readLoop_rounds_frame by exact Hp.
    rewrite (readLoop_rounds_fuel _ (S (length (frames ps ++ rest))))
      by (cbn [pending]; rewrite ?length_app, ?length_frame_bytes; lia).
    rewrite IH.
    destruct (readLoop_rounds _ false (mkConn sent0 rest false false) client)
      as [[evts r] ex].
    reflexivity.
Qed.

Lemma send_all_sent ps : forall m k,
  conn m = Some k -> closed k = false -> broken k = false ->
  exists k' tr,
    send_all (Some m) ps = (None, Some (with_conn m (Some k')), tr) /\
    sent k' = sent k ++ frames ps /\
    pending k' = pending k /\ closed k' = false /\ broken k' = false.
Proof.
  induction ps as [|[[t u] pl] ps IH]; intros m k Hk Hc Hb.
  - exists k, []. cbn [send_all frames flat_map]. rewrite app_nil_r.
    repeat split; auto. destruct m; simpl in *; subst; reflexivity.
  - cbn [send_all fst snd]. unfold NetworkManager_SendPacket. rewrite Hk.
    destruct (write_frame_sent k t u pl Hc Hb)
      as (k1 & tr1 & Hw & Hs1 & Hp1 & Hc1 & Hb1 & _).
    rewrite Hw.
    destruct (IH (with_conn m (Some k1)) k1 eq_refl Hc1 Hb1)
      as (k' & tr & Hall & Hs & Hp & Hc' & Hb').
    rewrite Hall. exists k', (tr1 ++ tr). split; [reflexivity|].
    cbn [frames flat_map fst snd]. fold (frames ps).
    rewrite Hs, Hs1, <- app_assoc. repeat split; auto. congruence.
Qed.

(** X1.  Packets sent one after the other on an open socket arrive in the
    order sent: the socket then holds the concatenated frames, and a read
    loop fed a stream that starts with these frames emits the packets first,
    in order, each with the payload it was sent with, and goes on as it
    would on the rest of the stream.  Each body must fit the 32-bit length
    field. *)
Theorem X1_frames_are_delivered_in_order
    (ps : list Packet) (m : NetworkManager) (k : Conn) :
  conn m = Some k -> closed k = false -> broken k = false ->
  Forall fits ps ->
  exists k' tr,
    send_all (Some m) ps = (None, Some (with_conn m (Some k')), tr) /\
    sent k' = sent k ++ frames ps /\
    forall rest client sent0,
      readLoop false (mkConn sent0 (frames ps ++ rest) false false) client
      = let '(evts, r, ex) :=
          readLoop false (mkConn sent0 rest false false) client in
        (map (event_of client) ps ++ evts, r, ex).
Proof.
  intros Hk Hc Hb Hfit.
  destruct (send_all_sent ps m k Hk Hc Hb) as (k' & tr & Hall & Hs & _).
  exists k', tr. split; [exact Hall|]. split; [exact Hs|].
  intros rest client sent0. apply readLoop_frames_prefix. exact Hfit.
Qed.

Lemma X1_frames_witness :
  let ps := [(7, 3, [97; 98]); (0, 1, []); (9, 9, [1])]%Z in
  let m := mkNetworkManager (Some (mkConn [] [] false false)) None 0 false [] in
  exists k' tr,
    send_all (Some m) ps = (None, Some (with_conn m (Some k')), tr) /\
    sent k' = [] ++ frames ps /\
    forall rest client sent0,
      readLoop false (mkConn sent0 (frames ps ++ rest) false false) client
      = let '(evts, r, ex) :=
          readLoop false (mkConn sent0 rest false false) client in
        (map (event_of client) ps ++ evts, r, ex).
Proof.
  intros ps m.
  apply (X1_frames_are_delivered_in_order ps m (mkConn [] [] false false));
    try reflexivity.
  repeat constructor; unfold fits; simpl; lia.
Defined.

(* ===================================================================== *)
(** ** How the read loop ends                                            *)
(* ===================================================================== *)




(* ===================================================================== *)
(** ** The handler table                                                 *)
(* ===================================================================== *)

Local Open Scope Z_scope.

Lemma pktKey_value t u : is_byte t -> is_byte u -> pktKey t u = 256 * t + u.
Proof.
  unfold is_byte, pktKey, uint16. intros Ht Hu.
  rewrite (Z.mod_small t), (Z.mod_small u) by lia.
  rewrite Z.shiftl_mul_pow2 by lia.
  rewrite (Z.mod_small (t * 2 ^ 8)) by lia.
  rewrite <- Z.add_nocarry_lor; [lia|].
  apply Z.bits_inj'. intros n Hn. rewrite Z.land_spec, Z.bits_0.
  destruct (Z.ltb_spec n 8) as [H8|H8].
  - rewrite Z.mul_pow2_bits_low by lia. reflexivity.
  - replace u with (u mod 2 ^ 8) by (apply Z.mod_small; lia).
    rewrite Z.mod_pow2_bits_high by lia. apply andb_false_r.
Qed.

(** X3.  The handler key of a type and a subtype is [256 * type + subtype]:
    a 16-bit number from which both bytes are read back, so that two
    packets share a key only when they agree on type and subtype. *)
Theorem X3_pktKey_separates_type_and_subtype (t u t' u' : Z) :
  is_byte t -> is_byte u -> is_byte t' -> is_byte u' ->
  0 <= pktKey t u < 2 ^ 16 /\
  Z.shiftr (pktKey t u) 8 = t /\
  Z.land (pktKey t u) 255 = u /\
  (pktKey t u = pktKey t' u' <-> t = t' /\ u = u').
Proof.
  intros Ht Hu Ht' Hu'.
  rewrite (pktKey_value t u), (pktKey_value t' u') by assumption.
  unfold is_byte in *.
  split; [lia|]. split.
  { rewrite Z.shiftr_div_pow2 by lia. change (2 ^ 8) with 256.
    symmetry. apply (Z.div_unique _ _ _ u); lia. }
  split.
  { change 255 with (Z.ones 8). rewrite Z.land_ones by lia.
    change (2 ^ 8) with 256. symmetry. apply (Z.mod_unique _ _ t); lia. }
  split; [lia|]. intros [-> ->]. reflexivity.
Qed.

Lemma X3_pktKey_witness :
  0 <= pktKey 1 2 < 2 ^ 16 /\
  Z.shiftr (pktKey 1 2) 8 = 1 /\
  Z.land (pktKey 1 2) 255 = 2 /\
  (pktKey 1 2 = pktKey 2 1 <-> 1 = 2 /\ 2 = 1).
Proof.
  apply (X3_pktKey_separates_type_and_subtype 1 2 2 1); unfold is_byte; lia.
Defined.

Lemma pktKey_inj t u t' u' :
  is_byte t -> is_byte u -> is_byte t' -> is_byte u' ->
  pktKey t u = pktKey t' u' -> t = t' /\ u = u'.
Proof.
  intros Ht Hu Ht' Hu'. rewrite !pktKey_value by assumption.
  unfold is_byte in *. lia.
Qed.

Local Close Scope Z_scope.

(** X4.  A handler registered for a type and a subtype is the one
    [InvokeHandler] calls for an event with that type and subtype, with the
    datamodel passed in and the event's payload and client; it replaces
    whatever was registered there before; and events with another type or
    subtype are handled as they were before the registration. *)
Theorem X4_RegisterHandler_then_InvokeHandler
    {W : Type} (hs : Handlers W) (t u : Z)
    (h : option instanceManager -> list Z -> option nat -> W -> W)
    (evt : PacketEvent) (dm : option instanceManager) (w : W) :
  is_byte t -> is_byte u -> is_byte (PType evt) -> is_byte (PSub evt) ->
  (PType evt = t -> PSub evt = u ->
   forall old,
     InvokeHandler (RegisterHandler (RegisterHandler hs t u old) t u (Some h))
       evt dm w
     = (h dm (Payload evt) (Client evt) w, false)) /\
  (PType evt <> t \/ PSub evt <> u ->
   forall h',
     InvokeHandler (RegisterHandler hs t u h') evt dm w
     = InvokeHandler hs evt dm w).
Proof.
  intros Ht Hu Het Heu. split.
  - intros <- <- old. unfold InvokeHandler, RegisterHandler.
    rewrite lookup_insert_eq. reflexivity.
  - intros Hne h'. unfold InvokeHandler, RegisterHandler.
    rewrite lookup_insert_ne; [reflexivity|].
    intros Hk. apply pktKey_inj in Hk; try assumption.
    destruct Hk as [-> ->]. destruct Hne; congruence.
Qed.

Lemma X4_RegisterHandler_witness :
  let h := fun (_ : option instanceManager) (pl : list Z) (_ : option nat)
               (w : list Z) => pl ++ w in
  let evt := mkPacketEvent 1 2 [5; 6]%Z None in
  (1%Z = 1%Z -> 2%Z = 2%Z ->
   forall old,
     InvokeHandler (RegisterHandler (RegisterHandler ∅ 1 2 old) 1 2 (Some h))
       evt None [9%Z]
     = ([5; 6; 9]%Z, false)) /\
  (1%Z <> 1%Z \/ 2%Z <> 2%Z ->
   forall h',
     InvokeHandler (RegisterHandler ∅ 1 2 h') evt None [9%Z]
     = InvokeHandler ∅ evt None [9%Z]).
Proof.
  intros h evt.
  apply (X4_RegisterHandler_then_InvokeHandler ∅ 1 2 h evt None [9%Z]);
    unfold is_byte; simpl; lia.
Defined.

(** X5.  After [UnregisterHandler], and equally after a nil function was
    registered, an event with that type and subtype calls nothing: the
    world is left as it is and the missing handler is logged.  Events with
    another type or subtype are handled as before. *)
Theorem X5_UnregisterHandler_then_InvokeHandler
    {W : Type} (hs : Handlers W) (t u : Z)
    (evt : PacketEvent) (dm : option instanceManager) (w : W) :
  is_byte t -> is_byte u -> is_byte (PType evt) -> is_byte (PSub evt) ->
  (PType evt = t -> PSub evt = u ->
   InvokeHandler (UnregisterHandler hs t u) evt dm w = (w, true) /\
   InvokeHandler (RegisterHandler hs t u None) evt dm w = (w, true)) /\
  (PType evt <> t \/ PSub evt <> u ->
   InvokeHandler (UnregisterHandler hs t u) evt dm w
   = InvokeHandler hs evt dm w).
Proof.
  intros Ht Hu Het Heu. split.
  - intros <- <-. unfold InvokeHandler, UnregisterHandler, RegisterHandler.
    rewrite lookup_delete_eq, lookup_insert_eq. split; reflexivity.
  - intros Hne. unfold InvokeHandler, UnregisterHandler.
    rewrite lookup_delete_ne; [reflexivity|].
    intros Hk. apply pktKey_inj in Hk; try assumption.
    destruct Hk as [-> ->]. destruct Hne; congruence.
Qed.

Lemma X5_UnregisterHandler_witness :
  let h := fun (_ : option instanceManager) (pl : list Z) (_ : option nat)
               (w : list Z) => pl ++ w in
  let hs : Handlers (list Z) := RegisterHandler ∅ 1 2 (Some h) in
  let evt := mkPacketEvent 1 2 [5; 6]%Z None in
  (1%Z = 1%Z -> 2%Z = 2%Z ->
   InvokeHandler (UnregisterHandler hs 1 2) evt None [9%Z] = ([9%Z], true) /\
   InvokeHandler (RegisterHandler hs 1 2 None) evt None [9%Z] = ([9%Z], true)) /\
  (1%Z <> 1%Z \/ 2%Z <> 2%Z ->
   InvokeHandler (UnregisterHandler hs 1 2) evt None [9%Z]
   = InvokeHandler hs evt None [9%Z]).
Proof.
  intros h hs evt.
  apply (X5_UnregisterHandler_then_InvokeHandler hs 1 2 evt None [9%Z]);
    unfold is_byte; simpl; lia.
Defined.

(* ===================================================================== *)
(** ** Failing connections and the two senders                           *)
(* ===================================================================== *)

Lemma write_frame_dead c ptype psub payload :
  closed c || broken c = true ->
  exists e, write_frame c ptype psub payload = (Some e, c, []).
Proof.
  intros H. unfold write_frame, Write. rewrite H. eexists. reflexivity.
Qed.

(** X6.  [Connect] on a nil manager fails before it dials.  When the dial
    fails, [Connect] returns an error and has done nothing else: the
    manager is as it was (no socket, no datamodel stored, no reader counted)
    and the trace holds the dial alone, so no read loop was started and no
    byte was written. *)
Theorem X6_Connect_dial_failure_leaves_manager_untouched
    (dial : string -> Z -> option Conn) (m : NetworkManager) (key : string)
    (datamodel : option instanceManager) (host : string) (port : Z) :
  dial host port = None ->
  (exists e, Connect dial (Some m) key datamodel host port
             = (Some e, Some m, [ADial host port])) /\
  (exists e, Connect dial None key datamodel host port = (Some e, None, [])).
Proof.
  intros Hd. unfold Connect. rewrite Hd. split; eexists; reflexivity.
Qed.

Lemma X6_Connect_dial_failure_witness :
  (exists e, Connect dial_refused (Some idle_manager) "k" None "localhost" 3000
             = (Some e, Some idle_manager, [ADial "localhost" 3000])) /\
  (exists e, Connect dial_refused None "k" None "localhost" 3000
             = (Some e, None, [])).
Proof.
  apply (X6_Connect_dial_failure_leaves_manager_untouched
           dial_refused idle_manager "k" None "localhost" 3000).
  reflexivity.
Defined.





(** X9.  On a socket that is closed or whose peer is gone both senders
    return the error of the first write and have written nothing: the
    socket, the manager and the client are as they were and the trace is
    empty, so a frame is never left half-written by a failing first write. *)
Theorem X9_senders_write_nothing_on_a_dead_socket
    (m : NetworkManager) (k : Conn) (ptype psub : Z) (payload : list Z) :
  conn m = Some k -> closed k || broken k = true ->
  (exists e, NetworkManager_SendPacket (Some m) ptype psub payload
             = (Some e, Some m, [])) /\
  (exists e, ClientConn_SendPacket (Some (mkClientConn (Some k))) ptype psub payload
             = (Some e, Some (mkClientConn (Some k)), [])).
Proof.
  intros Hk Hd.
  destruct (write_frame_dead k ptype psub payload Hd) as [e He].
  unfold NetworkManager_SendPacket, ClientConn_SendPacket.
  rewrite Hk. cbn [cc_conn]. rewrite He. split; exists e; [|reflexivity].
  f_equal. f_equal. f_equal. destruct m; unfold with_conn; simpl in *.
  congruence.
Qed.

Lemma X9_senders_dead_socket_witness :
  let k := mkConn [1%Z] [] true false in
  let m := mkNetworkManager (Some k) None 0 true [] in
  (exists e, NetworkManager_SendPacket (Some m) 7 3 [97%Z]
             = (Some e, Some m, [])) /\
  (exists e, ClientConn_SendPacket (Some (mkClientConn (Some k))) 7 3 [97%Z]
             = (Some e, Some (mkClientConn (Some k)), [])).
Proof.
  intros k m.
  apply (X9_senders_write_nothing_on_a_dead_socket m k 7 3 [97%Z]); reflexivity.
Defined.


(* ===================================================================== *)
(** ** Lookup by class                                                   *)
(* ===================================================================== *)

Lemma GetClassName_run s a o :
  heap s !! a = Some o -> GetClassName a s = Ret (className o) s.
Proof. intros H. unfold GetClassName, bind, load. rewrite H. reflexivity. Qed.

Lemma find_by_class_run s n cs :
  (forall c, In c cs -> raddr c < length (heap s)) ->
  find_by_class n cs s =
    Ret (List.find (fun c => String.eqb (class_of (heap s) c) n) cs) s.
Proof.
  induction cs as [|c cs IH]; intros Hcs; simpl; [reflexivity|].
  destruct (lookup_lt_is_Some_2 (heap s) (raddr c)) as [o Ho];
    [apply Hcs; left; reflexivity|].
  unfold bind. rewrite (GetClassName_run _ _ _ Ho).
  unfold class_of at 1. rewrite Ho.
  destruct (String.eqb (className o) n); [reflexivity|].
  apply IH. intros c' Hc'. apply Hcs. right; exact Hc'.
Qed.

Lemma find_first {A} (P : A -> bool) (l : list A) :
  match List.find P l with
  | Some c => exists l1 l2, l = l1 ++ c :: l2 /\ P c = true /\
                            forall x, In x l1 -> P x = false
  | None => forall x, In x l -> P x = false
  end.
Proof.
  induction l as [|a l IH]; simpl; [tauto|].
  destruct (P a) eqn:Ea.
  - exists [], l. repeat split; auto. intros x [].
  - destruct (List.find P l) as [c|].
    + destruct IH as (l1 & l2 & -> & Hc & Hl1).
      exists (a :: l1), l2. repeat split; auto.
      intros x [<-|Hx]; auto.
    + intros x [<-|Hx]; auto.
Qed.

(** X11.  [FindFirstChildOfClass] returns, leaves the heap and the locks
    as they were, and hands out the first handle of the child list, in list
    order, whose node carries the class name asked for: no child before it
    has that class.  It returns nil exactly when no child has it. *)
Theorem X11_FindFirstChildOfClass_returns_first_match
    (s : State) (b : addr) (n : string) :
  held s = [] -> closedb (heap s) = true -> b < length (heap s) ->
  exists r,
    FindFirstChildOfClass b n s = Ret r s /\
    match r with
    | Some c =>
        exists l1 l2,
          kids (heap s) b = l1 ++ c :: l2 /\
          class_of (heap s) c = n /\
          forall x, In x l1 -> class_of (heap s) x <> n
    | None => forall x, In x (kids (heap s) b) -> class_of (heap s) x <> n
    end.
Proof.
  intros Hheld Hclosed Hb.
  destruct (lookup_lt_is_Some_2 (heap s) b Hb) as [o Ho].
  exists (List.find (fun c => String.eqb (class_of (heap s) c) n)
            (elems (children o))).
  split.
  - unfold FindFirstChildOfClass.
    assert (Hfree : is_held b (held s) = false) by (rewrite Hheld; reflexivity).
    unfold bind at 1. unfold lock. rewrite Hfree.
    unfold bind at 1. unfold load at 1; simpl. rewrite Ho.
    unfold bind at 1.
    rewrite (find_by_class_run (mkState (heap s) (b :: held s))).
    + simpl. unfold bind, unlock, ret; simpl.
      rewrite is_held_cons_same, release_cons by assumption.
      rewrite state_eta. reflexivity.
    + simpl. intros c Hc. eapply closedb_child; eauto.
  - unfold kids. rewrite Ho.
    pose proof (find_first (fun c => String.eqb (class_of (heap s) c) n)
                  (elems (children o))) as Hf.
    destruct (List.find _ _) as [c|].
    + destruct Hf as (l1 & l2 & Hl & Hc & Hl1).
      exists l1, l2. split; [exact Hl|]. split; [apply String.eqb_eq; exact Hc|].
      intros x Hx. apply String.eqb_neq. apply Hl1. exact Hx.
    + intros x Hx. apply String.eqb_neq. apply Hf. exact Hx.
Qed.

Lemma X11_FindFirstChildOfClass_witness :
  let s := startup_state in
  exists r,
    FindFirstChildOfClass 1 "Workspace" s = Ret r s /\
    match r with
    | Some c =>
        exists l1 l2,
          kids (heap s) 1 = l1 ++ c :: l2 /\
          class_of (heap s) c = "Workspace" /\
          forall x, In x l1 -> class_of (heap s) x <> "Workspace"
    | None => forall x, In x (kids (heap s) 1) ->
                        class_of (heap s) x <> "Workspace"
    end.
Proof.
  intros s.
  apply (X11_FindFirstChildOfClass_returns_first_match s 1 "Workspace");
    first [reflexivity | simpl; lia].
Defined.

(* ===================================================================== *)
(** ** Full names and paths                                              *)
(* ===================================================================== *)

Lemma Split_nonempty s sep : Split s sep <> [].
Proof.
  destruct s as [|c s]; simpl; [discriminate|].
  destruct (Ascii.eqb c sep); [discriminate|].
  destruct (Split s sep); discriminate.
Qed.

Lemma Split_no_dot n : no_dot n = true -> Split n "." = [n].
Proof.
  unfold no_dot. induction n as [|c n IH]; simpl; [reflexivity|].
  intros H. apply andb_true_iff in H as [Hc Hn].
  apply negb_true_iff in Hc. rewrite Hc, (IH Hn). reflexivity.
Qed.

Lemma Split_app_dot s n :
  no_dot n = true ->
  Split (s ++ "." ++ n)%string "." = Split s "." ++ [n].
Proof.
  intros Hn. induction s as [|c s IH]; simpl.
  - change (String.append "" n) with n.
    rewrite (Split_no_dot n Hn). reflexivity.
  - rewrite IH. destruct (Ascii.eqb c "."); [reflexivity|].
    pose proof (Split_nonempty s ".") as Hne.
    destruct (Split s ".") as [|w ws]; [congruence|]. reflexivity.
Qed.

Lemma last_cons_default (l : list addr) : forall c p,
  List.last (c :: l) p = List.last l c.
Proof.
  induction l as [|x l IH]; intros c p; [reflexivity|].
  change (List.last (c :: x :: l) p) with (List.last (x :: l) p).
  rewrite (IH x p), (IH x c). reflexivity.
Qed.

Lemma chain_okb_app h p l x :
  chain_okb h p (l ++ [x]) = chain_okb h p l && link_okb h (List.last l p) x.
Proof.
  revert p. induction l as [|c l IH]; intros p; simpl chain_okb.
  - simpl. rewrite andb_true_r. reflexivity.
  - change ((c :: l) ++ [x]) with (c :: (l ++ [x])). simpl chain_okb.
    rewrite IH, last_cons_default, andb_assoc. reflexivity.
Qed.

Lemma GetFullName_chain s rt : forall rest fuel,
  rt < length (heap s) -> parent_of (heap s) rt = None ->
  chain_okb (heap s) rt rest = true -> length rest < fuel ->
  GetFullName fuel (List.last rest rt) s = Ret (path_name (heap s) rt rest) s.
Proof.
  intros rest. induction rest as [|x l IH] using rev_ind;
    intros fuel Hrt Hroot Hchain Hfuel.
  - destruct fuel as [|f]; [simpl in Hfuel; lia|]. simpl.
    destruct (lookup_lt_is_Some_2 (heap s) rt Hrt) as [o Ho].
    unfold parent_of in Hroot. rewrite Ho in Hroot.
    unfold bind. rewrite (load_run _ _ _ Ho). rewrite Hroot.
    unfold path_name, name_of. simpl. rewrite Ho. reflexivity.
  - rewrite chain_okb_app in Hchain. apply andb_true_iff in Hchain as [Hl Hx].
    rewrite length_app in Hfuel. simpl in Hfuel.
    destruct fuel as [|f]; [lia|].
    rewrite last_last.
    unfold link_okb in Hx. apply andb_true_iff in Hx as [Hx _].
    apply andb_true_iff in Hx as [Hpar _].
    unfold parent_of in Hpar.
    destruct (heap s !! x) as [o|] eqn:Ho; [|discriminate].
    destruct (parent o) as [r|] eqn:Hp; [|discriminate].
    apply Nat.eqb_eq in Hpar.
    cbn [GetFullName]. unfold bind at 1. rewrite (load_run _ _ _ Ho). rewrite Hp.
    unfold bind at 1. rewrite Hpar.
    rewrite (IH f Hrt Hroot Hl) by lia.
    unfold bind. rewrite (load_run _ _ _ Ho). unfold ret.
    unfold path_name. rewrite fold_left_app. simpl.
    replace (name_of (heap s) (iface x)) with (name o)
      by (unfold name_of; simpl; rewrite Ho; reflexivity).
    reflexivity.
Qed.

Lemma Split_path_name h : forall rest p acc,
  chain_okb h p rest = true ->
  Split (fold_left (fun acc c => (acc ++ "." ++ name_of h (iface c))%string)
           rest acc) "."
  = Split acc "." ++ map (fun c => name_of h (iface c)) rest.
Proof.
  induction rest as [|c rest IH]; intros p acc Hchain; simpl.
  - rewrite app_nil_r. reflexivity.
  - apply andb_true_iff in Hchain as [Hlink Hrest].
    unfold link_okb in Hlink. apply andb_true_iff in Hlink as [_ Hnd].
    rewrite (IH c _ Hrest). rewrite Split_app_dot by exact Hnd.
    rewrite <- app_assoc. reflexivity.
Qed.

Lemma descend_chain h : forall rest cur,
  chain_okb h (raddr cur) rest = true ->
  exists r,
    descend h (Some cur) (map (fun c => name_of h (iface c)) rest) = Some r /\
    raddr r = List.last rest (raddr cur).
Proof.
  induction rest as [|c rest IH]; intros cur Hchain.
  - exists cur. split; reflexivity.
  - simpl in Hchain. apply andb_true_iff in Hchain as [Hlink Hrest].
    unfold link_okb in Hlink. apply andb_true_iff in Hlink as [Hlink _].
    apply andb_true_iff in Hlink as [_ Hchild].
    destruct (child_named h (raddr cur) (name_of h (iface c))) as [r'|] eqn:Hc;
      [|discriminate].
    apply Nat.eqb_eq in Hchild.
    rewrite <- Hchild in Hrest.
    destruct (IH r' Hrest) as (r & Hd & Hr).
    exists r. split.
    + cbn [map descend]. rewrite Hc. exact Hd.
    + rewrite Hr, Hchild. symmetry. apply last_cons_default.
Qed.

(** X12.  A full name leads back to its node.  Take a chain of nodes
    from the manager's root down to a node, where each node's parent pointer
    names the one before it, each is the first child of its parent under its
    name, and no name on the chain holds a dot (the root's name is not
    empty).  Then [GetFullName] of the last node returns the names joined by
    dots, and [FindByPath] on that string returns a handle of that node. *)
Theorem X12_FindByPath_inverts_GetFullName
    (m : instanceManager) (s : State) (r0 : Ref) (rest : list addr) (fuel : nat) :
  held s = [] -> closedb (heap s) = true ->
  mu m <> WLocked -> root m = Some r0 ->
  raddr r0 < length (heap s) ->
  parent_of (heap s) (raddr r0) = None ->
  no_dot (name_of (heap s) r0) = true ->
  name_of (heap s) r0 <> "" ->
  chain_okb (heap s) (raddr r0) rest = true ->
  length rest < fuel ->
  GetFullName fuel (List.last rest (raddr r0)) s
    = Ret (path_name (heap s) (raddr r0) rest) s /\
  exists r,
    FindByPath m (path_name (heap s) (raddr r0) rest) s = Ret (Some r, m) s /\
    raddr r = List.last rest (raddr r0).
Proof.
  intros Hheld Hclosed Hmu Hroot Hlt Hpar Hnd Hne Hchain Hfuel.
  split; [apply GetFullName_chain; assumption|].
  rewrite (FindByPath_run m s r0) by assumption.
  assert (Hsplit : Split (path_name (heap s) (raddr r0) rest) "."
                   = name_of (heap s) r0
                     :: map (fun c => name_of (heap s) (iface c)) rest).
  { unfold path_name. rewrite (Split_path_name _ _ _ _ Hchain).
    change (name_of (heap s) (iface (raddr r0))) with (name_of (heap s) r0).
    rewrite (Split_no_dot _ Hnd). reflexivity. }
  assert (Hnonempty : String.eqb (path_name (heap s) (raddr r0) rest) "" = false).
  { apply String.eqb_neq. intros He. rewrite He in Hsplit. simpl in Hsplit.
    injection Hsplit as Hn _. congruence. }
  unfold resolve_path. rewrite Hnonempty, Hsplit. cbn [hd tl].
  rewrite String.eqb_refl.
  destruct (descend_chain (heap s) rest r0 Hchain) as (r & Hd & Hr).
  exists r. rewrite Hd. split; [reflexivity|exact Hr].
Qed.

Lemma X12_FindByPath_inverts_GetFullName_witness :
  let m := mkInstanceManager Unlocked ∅ (Some (iface 0)) in
  let s := tree_Root_A_B in
  GetFullName 3 2 s = Ret "Root.A.B" s /\
  exists r, FindByPath m "Root.A.B" s = Ret (Some r, m) s /\ raddr r = 2.
Proof.
  intros m s.
  apply (X12_FindByPath_inverts_GetFullName m s (iface 0) [1; 2] 3);
    try reflexivity; try discriminate; simpl; lia.
Defined.

(* ===================================================================== *)
(** ** The filtered traversals                                           *)
(* ===================================================================== *)

Lemma startup_run :
  startup (mkState [] []) = Ret (startup_manager, Some (mkRef KPart 3)) startup_state.
Proof. vm_compute. reflexivity. Qed.

Lemma basedb_child h b o c :
  basedb h = true -> h !! b = Some o -> In c (elems (children o)) ->
  c = iface (raddr c).
Proof.
  unfold basedb. rewrite forallb_forall. intros Hall Hb Hc.
  assert (Ho : In o h).
  { apply list_elem_of_In, list_elem_of_lookup. eauto. }
  specialize (Hall o Ho). rewrite forallb_forall in Hall.
  specialize (Hall c Hc). apply Kind_eqb_eq in Hall.
  destruct c as [k a]. simpl in *. subst k. reflexivity.
Qed.

Lemma gather_run {A} (rec : Ref -> M (list A)) (g : Ref -> list A) recp cs s r :
  (forall c ds, In c cs -> recp (raddr c) = Some ds ->
                rec c s = Ret (flat_map g (c :: ds)) s) ->
  desc_list recp cs = Some r ->
  gather rec cs s = Ret (flat_map g r) s.
Proof.
  revert r. induction cs as [|c cs IH]; intros r Hrec H; simpl in *.
  - injection H as <-. reflexivity.
  - destruct (recp (raddr c)) as [ds|] eqn:Hc; [|discriminate].
    destruct (desc_list recp cs) as [rest|] eqn:Hrest; [|discriminate].
    injection H as <-.
    unfold bind. rewrite (Hrec c ds (or_introl eq_refl) Hc).
    rewrite (IH rest); auto.
    unfold ret. simpl. rewrite flat_map_app, app_assoc. reflexivity.
Qed.

(** The part of the filtered traversals before the loop: the child list
    is copied under the lock, the record is read again. *)
Lemma traversal_prefix {A} (b : addr) (s : State) (o : BaseInstance)
    (k : BaseInstance -> BaseInstance -> M A) :
  held s = [] -> heap s !! b = Some o ->
  (lock b ;;;
   let* o0 := load b in
   unlock b ;;;
   let* o1 := load b in
   k o0 o1) s = k o o s.
Proof.
  intros Hheld Ho.
  unfold bind at 1. unfold lock. rewrite Hheld.
  change (is_held b []) with false. cbv iota.
  unfold bind at 1. unfold load at 1. cbn [heap held]. rewrite Ho.
  unfold bind at 1. unfold unlock at 1. cbn [heap held].
  rewrite is_held_cons_same, release_cons by reflexivity.
  rewrite <- Hheld, state_eta.
  unfold bind at 1. rewrite (load_run _ _ _ Ho). reflexivity.
Qed.

Lemma GetAllOfType_run cn f s : forall b ds,
  held s = [] -> basedb (heap s) = true ->
  desc f (heap s) b = Some ds ->
  GetAllOfType f b cn s = Ret (matching (heap s) cn (iface b :: ds)) s.
Proof.
  induction f as [|f IH]; intros b ds Hheld Hbased H; [discriminate|].
  simpl in H. destruct (heap s !! b) as [o|] eqn:Ho; [|discriminate].
  cbn [GetAllOfType].
  rewrite (traversal_prefix b s o
             (fun o0 o1 =>
                let* rest :=
                  gather (fun child =>
                            match asBase child with
                            | Some bi => GetAllOfType f bi cn
                            | None => getAllOfTypeInterface f child cn
                            end) (elems (children o0)) in
                ret ((if String.eqb (className o1) cn then [this o1] else [])
                     ++ rest)) Hheld Ho).
  unfold bind.
  rewrite (gather_run _ (match_of (heap s) cn) (desc f (heap s)) _ _ ds); auto.
  - unfold ret, matching. cbn [flat_map]. f_equal.
    unfold match_of at 2, class_of, this_of. simpl. rewrite Ho. reflexivity.
  - intros c dc Hin Hc.
    rewrite (basedb_child _ _ _ _ Hbased Ho Hin), asBase_iface.
    apply IH; auto.
Qed.

Lemma GetRenderables_run f s : forall b ds,
  held s = [] -> basedb (heap s) = true ->
  desc f (heap s) b = Some ds ->
  GetRenderables f b s
  = Ret (flat_map part_ptr (matching (heap s) "Part" (iface b :: ds))) s.
Proof.
  induction f as [|f IH]; intros b ds Hheld Hbased H; [discriminate|].
  simpl in H. destruct (heap s !! b) as [o|] eqn:Ho; [|discriminate].
  cbn [GetRenderables].
  rewrite (traversal_prefix b s o
             (fun o0 o1 =>
                let* rest :=
                  gather (fun child =>
                            match asBase child with
                            | Some bi => GetRenderables f bi
                            | None =>
                                match asPart child with
                                | Some p => ret [p]
                                | None => ret []
                                end
                            end) (elems (children o0)) in
                ret ((if String.eqb (className o1) "Part"
                      then match this o1 with
                           | Some t => match asPart t with
                                       | Some p => [p]
                                       | None => []
                                       end
                           | None => []
                           end
                      else []) ++ rest)) Hheld Ho).
  unfold bind.
  rewrite (gather_run _ (fun r => flat_map part_ptr (match_of (heap s) "Part" r))
             (desc f (heap s)) _ _ ds); auto.
  - unfold ret, matching. cbn [flat_map]. rewrite flat_map_app. f_equal.
    f_equal.
    + unfold match_of, class_of, this_of. simpl. rewrite Ho.
      destruct (String.eqb (className o) "Part"); [|reflexivity].
      simpl. rewrite app_nil_r. reflexivity.
    + clear. induction ds as [|d ds IHd]; simpl; [reflexivity|].
      rewrite flat_map_app, IHd. reflexivity.
  - intros c dc Hin Hc.
    rewrite (basedb_child _ _ _ _ Hbased Ho Hin), asBase_iface.
    rewrite (IH _ _ Hheld Hbased Hc). f_equal.
    unfold matching. generalize (iface (raddr c) :: dc). clear.
    intros l. induction l as [|d l IHl]; simpl; [reflexivity|].
    rewrite flat_map_app, IHl. reflexivity.
Qed.

(** X13.  On a heap whose child lists hold base pointers, [GetAllOfType]
    returns whenever [GetDescendants] does, changes nothing, and yields one
    entry for the node itself and for each of its descendants, in the order
    of [GetDescendants], whose class name is the one asked for.  The entry
    is the [this] field of that node: the handle of the concrete type for a
    node built by [NewPart] or [NewWerkzeug], nil for a node built by
    [NewBaseInstance], which never sets the field. *)
Theorem X13_GetAllOfType_lists_this_of_matching_nodes
    (s : State) (b : addr) (cn : string) (f : nat) (ds : list Ref) :
  held s = [] -> basedb (heap s) = true ->
  GetDescendants f b s = Ret ds s ->
  GetAllOfType f b cn s = Ret (matching (heap s) cn (iface b :: ds)) s /\
  (forall x, In x (matching (heap s) cn (iface b :: ds)) <->
             exists r, In r (iface b :: ds) /\ class_of (heap s) r = cn /\
                       x = this_of (heap s) (raddr r)) /\
  (forall o, heap s !! b = Some o -> className o = cn -> this o = None ->
             In None (matching (heap s) cn (iface b :: ds))).
Proof.
  intros Hheld Hbased Hd.
  apply GetDescendants_inv in Hd; [|exact Hheld]. destruct Hd as [Hd _].
  split; [apply GetAllOfType_run; assumption|].
  assert (Hin : forall x l, In x (matching (heap s) cn l) <->
             exists r, In r l /\ class_of (heap s) r = cn /\
                       x = this_of (heap s) (raddr r)).
  { intros x l. unfold matching. rewrite in_flat_map. split.
    - intros (r & Hr & Hx). exists r. split; [exact Hr|].
      unfold match_of in Hx.
      destruct (String.eqb (class_of (heap s) r) cn) eqn:E; [|destruct Hx].
      apply String.eqb_eq in E. destruct Hx as [<-|[]]. auto.
    - intros (r & Hr & Hc & ->). exists r. split; [exact Hr|].
      unfold match_of. rewrite Hc, String.eqb_refl. left. reflexivity. }
  split; [intros x; apply Hin|].
  intros o Ho Hc Ht. apply Hin. exists (iface b).
  split; [left; reflexivity|].
  unfold class_of, this_of. simpl. rewrite Ho. auto.
Qed.

Lemma X13_GetAllOfType_witness :
  let s := startup_state in
  let ds := [iface 2; iface 3] in
  GetAllOfType 3 1 "Part" s = Ret (matching (heap s) "Part" (iface 1 :: ds)) s /\
  (forall x, In x (matching (heap s) "Part" (iface 1 :: ds)) <->
             exists r, In r (iface 1 :: ds) /\ class_of (heap s) r = "Part" /\
                       x = this_of (heap s) (raddr r)) /\
  (forall o, heap s !! 1 = Some o -> className o = "Part" -> this o = None ->
             In None (matching (heap s) "Part" (iface 1 :: ds))).
Proof.
  intros s ds.
  apply (X13_GetAllOfType_lists_this_of_matching_nodes s 1 "Part" 3 ds);
    reflexivity.
Defined.

(** X14.  On a heap whose child lists hold base pointers,
    [GetRenderables] returns whenever [GetDescendants] does, changes
    nothing, and yields exactly the [Part] pointers among the entries of
    [GetAllOfType] for the class "Part", in the same order.  A node of
    class "Part" whose [this] field does not hold a [Part] pointer, such as
    one built by [NewBaseInstance], is not rendered. *)
Theorem X14_GetRenderables_are_the_Part_entries_of_GetAllOfType
    (s : State) (b : addr) (f : nat) (ds : list Ref) :
  held s = [] -> basedb (heap s) = true ->
  GetDescendants f b s = Ret ds s ->
  exists all,
    GetAllOfType f b "Part" s = Ret all s /\
    GetRenderables f b s = Ret (flat_map part_ptr all) s /\
    (forall p, In p (flat_map part_ptr all) <->
               exists r, In r (iface b :: ds) /\
                         class_of (heap s) r = "Part" /\
                         this_of (heap s) (raddr r) = Some (mkRef KPart p)).
Proof.
  intros Hheld Hbased Hd.
  apply GetDescendants_inv in Hd; [|exact Hheld]. destruct Hd as [Hd _].
  exists (matching (heap s) "Part" (iface b :: ds)).
  split; [apply GetAllOfType_run; assumption|].
  split; [apply GetRenderables_run; assumption|].
  intros p. rewrite in_flat_map. split.
  - intros (x & Hx & Hp). unfold matching in Hx. apply in_flat_map in Hx.
    destruct Hx as (r & Hr & Hx). exists r. split; [exact Hr|].
    unfold match_of in Hx.
    destruct (String.eqb (class_of (heap s) r) "Part") eqn:E; [|destruct Hx].
    apply String.eqb_eq in E. destruct Hx as [<-|[]]. split; [exact E|].
    unfold part_ptr, asPart in Hp.
    destruct (this_of (heap s) (raddr r)) as [[k a]|]; [|destruct Hp].
    destruct k; simpl in Hp; try destruct Hp as [<-|[]]; try destruct Hp.
    reflexivity.
  - intros (r & Hr & Hc & Ht). exists (Some (mkRef KPart p)).
    split; [|left; reflexivity].
    unfold matching. apply in_flat_map. exists r. split; [exact Hr|].
    unfold match_of. rewrite Hc, Ht. left. reflexivity.
Qed.

Lemma X14_GetRenderables_witness :
  let s := startup_state in
  let ds := [iface 2; iface 3] in
  exists all,
    GetAllOfType 3 1 "Part" s = Ret all s /\
    GetRenderables 3 1 s = Ret (flat_map part_ptr all) s /\
    (forall p, In p (flat_map part_ptr all) <->
               exists r, In r (iface 1 :: ds) /\
                         class_of (heap s) r = "Part" /\
                         this_of (heap s) (raddr r) = Some (mkRef KPart p)).
Proof.
  intros s ds.
  apply (X14_GetRenderables_are_the_Part_entries_of_GetAllOfType s 1 3 ds);
    reflexivity.
Defined.

(* ===================================================================== *)
(** ** What Destroy leaves                                               *)
(* ===================================================================== *)

Lemma bind_Ret {A B} (c : M A) (k : A -> M B) s x s' :
  bind c k s = Ret x s' -> exists y s1, c s = Ret y s1 /\ k y s1 = Ret x s'.
Proof. unfold bind. destruct (c s) as [y s1| | |]; try discriminate. eauto. Qed.

Lemma nodupb_not_in_remove_first r l :
  nodupb l = true -> ~ In r (remove_first r l).
Proof.
  intros Hnd Hin. apply (count_occ_In Ref_eq_dec) in Hin.
  rewrite count_remove_first in Hin.
  pose proof (nodupb_count l r Hnd). lia.
Qed.

Lemma existsb_remove_first (P : Ref -> bool) r l :
  existsb P (remove_first r l) = true -> existsb P l = true.
Proof.
  rewrite !existsb_exists. intros (x & Hx & HP). exists x.
  split; [eapply remove_first_incl; exact Hx | exact HP].
Qed.

Lemma nodupb_remove_first r l :
  nodupb l = true -> nodupb (remove_first r l) = true.
Proof.
  induction l as [|y l IH]; simpl; [auto|].
  intros H. apply andb_true_iff in H as [Hy Hl].
  destruct (Ref_eqb y r); [exact Hl|].
  simpl. rewrite (IH Hl), andb_true_r.
  apply negb_true_iff. apply negb_true_iff in Hy.
  destruct (existsb (Ref_eqb y) (remove_first r l)) eqn:E; [|reflexivity].
  apply existsb_remove_first in E. congruence.
Qed.

Lemma nodupb_snoc x l :
  nodupb l = true -> ~ In x l -> nodupb (l ++ [x]) = true.
Proof.
  induction l as [|y l IH]; simpl; [auto|].
  intros H Hx. apply andb_true_iff in H as [Hy Hl].
  rewrite IH by tauto. rewrite andb_true_r.
  rewrite existsb_app. simpl. rewrite orb_false_r.
  apply negb_true_iff in Hy. rewrite Hy. simpl.
  apply negb_true_iff. apply Ref_eqb_neq. intros ->. tauto.
Qed.

Lemma consistentb_intro h :
  (forall q c, In c (kids h q) ->
     rkind c = KBase /\ parent_of h (raddr c) = Some (iface q)) ->
  (forall q, nodupb (kids h q) = true) ->
  consistentb h = true.
Proof.
  intros Hlinks Hnd. unfold consistentb. apply forallb_forall. intros q _.
  apply andb_true_iff. split; [|apply Hnd].
  apply forallb_forall. intros c Hc.
  destruct (Hlinks q c Hc) as [Hk Hp].
  unfold child_okb. rewrite Hk, Hp. simpl. apply Ref_eqb_refl.
Qed.

Lemma consistentb_link h q c :
  consistentb h = true -> In c (kids h q) ->
  c = iface (raddr c) /\ parent_of h (raddr c) = Some (iface q).
Proof.
  intros Hc Hin.
  destruct (consistentb_links h [q] Hc q c (or_introl eq_refl) Hin) as [Hk Hp].
  split; [|exact Hp]. destruct c as [k a]. simpl in *. subst k. reflexivity.
Qed.

(** [Destroy] ends by clearing the record of its node. *)
Lemma Destroy_ret_cleared f n s s' :
  Destroy f n s = Ret tt s' ->
  exists o, heap s' !! n = Some o /\ parent o = None /\ children o = None.
Proof.
  destruct f as [|f]; [discriminate|]. cbn [Destroy]. intros H.
  apply bind_Ret in H as (? & s1 & _ & H).
  apply bind_Ret in H as (o & s2 & _ & H).
  apply bind_Ret in H as (? & s3 & _ & H).
  apply bind_Ret in H as (? & s4 & _ & H).
  apply bind_Ret in H as (o1 & s5 & _ & H).
  apply bind_Ret in H as (? & s6 & _ & H).
  apply bind_Ret in H as (? & s7 & _ & H).
  apply bind_Ret in H as (? & s8 & Hup & H).
  unfold update in Hup. apply bind_Ret in Hup as (o2 & s7' & Hload & Hstore).
  unfold load in Hload. destruct (heap s7 !! n) as [o7|] eqn:Ho7; [|discriminate].
  injection Hload as <- <-.
  unfold store in Hstore. rewrite Ho7 in Hstore.
  assert (Hs8 : s8 = mkState (<[n := with_children (with_parent o7 None) None]>
                               (heap s7)) (held s7)) by congruence.
  subst s8. unfold unlock in H. cbn [heap held] in H.
  destruct (is_held n (held s7)); [|discriminate].
  injection H as <-. cbn [heap].
  eexists. split.
  - apply list_lookup_insert_eq. eapply lookup_lt_Some; eauto.
  - split; reflexivity.
Qed.

(** On a node that is already cleared [Destroy] changes nothing. *)
Lemma Destroy_cleared_noop f n s o :
  held s = [] -> heap s !! n = Some o ->
  parent o = None -> children o = None ->
  Destroy (S f) n s = Ret tt s.
Proof.
  intros Hheld Ho Hp Hc.
  rewrite (Destroy_unfold f n s o Hheld Ho). rewrite Hc. cbn [elems default forM].
  unfold bind at 1, ret at 1.
  assert (Hn : n < length (heap s)) by (eapply lookup_lt_Some; eauto).
  assert (Hpv : parent_valid (heap s) n).
  { intros p Hpp. unfold parent_of in Hpp. rewrite Ho in Hpp. congruence. }
  rewrite <- (state_eta s) at 1. rewrite Hheld.
  rewrite (Destroy_tail (heap s) n Hn Hpv).
  rewrite <- (state_eta s) at 2. rewrite Hheld. f_equal. f_equal.
  unfold detach. rewrite Ho, Hp.
  rewrite <- (insert_alter_same _ _ o) by exact Ho.
  replace (cleared o) with o; [apply list_insert_same; exact Ho|].
  destruct o; unfold cleared, with_children, with_parent; simpl in *.
  subst. reflexivity.
Qed.

(** X15.  Take a node of a consistent heap for which [GetDescendants]
    returns (no cycle is reachable from it), whose parent pointer is nil or
    names another node, with no node lock held.  Then [Destroy] of the node
    returns and takes exactly the subtree apart: the node and every
    descendant end up without parent and without children; the node named
    by the node's parent pointer, when it lies outside the subtree, loses
    the node from its child list and keeps its other children in their
    order; every other record outside the subtree is left as it was. *)
Theorem X15_Destroy_clears_the_subtree_and_only_that
    (s : State) (n : addr) (f : nat) (ds : list Ref) :
  held s = [] ->
  consistentb (heap s) = true ->
  parent_okb (heap s) n = true ->
  GetDescendants f n s = Ret ds s ->
  exists s',
    Destroy f n s = Ret tt s' /\ held s' = [] /\
    length (heap s') = length (heap s) /\
    (forall y, In y (n :: map raddr ds) ->
       parent_of (heap s') y = None /\ kids (heap s') y = []) /\
    (forall y, ~ In y (n :: map raddr ds) ->
       parent_of (heap s) n <> Some (iface y) ->
       heap s' !! y = heap s !! y) /\
    (forall y, ~ In y (n :: map raddr ds) ->
       parent_of (heap s) n = Some (iface y) ->
       kids (heap s') y = remove_first (iface n) (kids (heap s) y) /\
       ~ In (iface n) (kids (heap s') y) /\
       parent_of (heap s') y = parent_of (heap s) y).
Proof.
  intros Hheld Hcons Hpok Hn.
  apply GetDescendants_inv in Hn as [Hdn _]; [|exact Hheld].
  pose proof (desc_NoDup _ _ _ _ Hcons Hdn) as Hnd.
  destruct (Destroy_spec_all f s n ds Hheld Hdn Hnd
              (consistentb_links _ _ Hcons) (parent_okb_valid _ _ Hpok))
    as (h' & Hrun & Hlen & Hdead & Hpar & Hrec & Hkids).
  exists (mkState h' []). cbn [heap held].
  split; [exact Hrun|]. split; [reflexivity|]. split; [exact Hlen|].
  split; [exact Hdead|]. split; [exact Hrec|].
  intros y Hy Hp. split; [apply Hkids; assumption|].
  split; [|apply Hpar; exact Hy].
  rewrite (Hkids y Hy Hp). apply nodupb_not_in_remove_first.
  apply (consistentb_node _ y Hcons).
Qed.

Lemma X15_Destroy_witness :
  exists s',
    Destroy 2 1 tree_Root_A_B = Ret tt s' /\ held s' = [] /\
    length (heap s') = 3 /\
    (forall y, In y [1; 2] ->
       parent_of (heap s') y = None /\ kids (heap s') y = []) /\
    (forall y, ~ In y [1; 2] ->
       parent_of (heap tree_Root_A_B) 1 <> Some (iface y) ->
       heap s' !! y = heap tree_Root_A_B !! y) /\
    (forall y, ~ In y [1; 2] ->
       parent_of (heap tree_Root_A_B) 1 = Some (iface y) ->
       kids (heap s') y = remove_first (iface 1) (kids (heap tree_Root_A_B) y) /\
       ~ In (iface 1) (kids (heap s') y) /\
       parent_of (heap s') y = parent_of (heap tree_Root_A_B) y).
Proof.
  apply (X15_Destroy_clears_the_subtree_and_only_that tree_Root_A_B 1 2 [iface 2]);
    reflexivity.
Defined.

(** X16.  Destroying twice is destroying once: after a [Destroy] that
    returned, the node has a nil parent and a nil child list, and another
    [Destroy] of the same node returns and leaves the state exactly as it
    found it. *)
Theorem X16_Destroy_twice_is_Destroy_once
    (s : State) (n : addr) (f : nat) (ds : list Ref) :
  held s = [] ->
  consistentb (heap s) = true ->
  parent_okb (heap s) n = true ->
  GetDescendants f n s = Ret ds s ->
  exists s' o,
    Destroy f n s = Ret tt s' /\
    heap s' !! n = Some o /\ parent o = None /\ children o = None /\
    forall f', Destroy (S f') n s' = Ret tt s'.
Proof.
  intros Hheld Hcons Hpok Hn.
  apply GetDescendants_inv in Hn as [Hdn _]; [|exact Hheld].
  pose proof (desc_NoDup _ _ _ _ Hcons Hdn) as Hnd.
  destruct (Destroy_spec_all f s n ds Hheld Hdn Hnd
              (consistentb_links _ _ Hcons) (parent_okb_valid _ _ Hpok))
    as (h' & Hrun & _).
  destruct (Destroy_ret_cleared _ _ _ _ Hrun) as (o & Ho & Hp & Hc).
  exists (mkState h' []), o. split; [exact Hrun|].
  split; [exact Ho|]. split; [exact Hp|]. split; [exact Hc|].
  intros f'. apply (Destroy_cleared_noop f' n _ o); auto.
Qed.

Lemma X16_Destroy_twice_witness :
  exists s' o,
    Destroy 2 1 tree_Root_A_B = Ret tt s' /\
    heap s' !! 1 = Some o /\ parent o = None /\ children o = None /\
    forall f', Destroy (S f') 1 s' = Ret tt s'.
Proof.
  apply (X16_Destroy_twice_is_Destroy_once tree_Root_A_B 1 2 [iface 2]);
    reflexivity.
Defined.

(* ===================================================================== *)
(** ** Consistency is kept                                               *)
(* ===================================================================== *)

(** X17.  [SetParent] keeps the heap consistent.  If every listed child
    is a base pointer whose parent pointer names its lister and no list
    repeats a child, the same holds after the node was given a new parent or
    none (any node of the heap other than itself).  The node's parent
    pointer is the new parent; no other parent pointer changes. *)
Theorem X17_SetParent_keeps_the_heap_consistent
    (s : State) (a : addr) (np : option Ref) :
  held s = [] ->
  consistentb (heap s) = true ->
  parent_okb (heap s) a = true ->
  target_okb (heap s) a np = true ->
  exists s',
    SetParent a np s = Ret tt s' /\ held s' = [] /\
    length (heap s') = length (heap s) /\
    consistentb (heap s') = true /\
    parent_of (heap s') a = np /\
    (forall y, y <> a -> parent_of (heap s') y = parent_of (heap s) y).
Proof.
  intros Hheld Hcons Hpok Htok.
  exists (mkState (SetParent_heap (heap s) a np) []). cbn [heap held].
  assert (Ha : a < length (heap s)).
  { unfold parent_okb in Hpok.
    destruct (heap s !! a) eqn:E; [|discriminate]. eapply lookup_lt_Some; eauto. }
  split; [apply SetParent_run; assumption|]. split; [reflexivity|].
  split; [apply length_SetParent_heap|].
  split; [|split; [apply parent_of_SetParent_heap_self; exact Ha
                  |intros y Hy; apply parent_of_SetParent_heap_ne; exact Hy]].
  set (h := heap s) in *. set (h' := SetParent_heap h a np).
  assert (Hkids : forall q, q < length h ->
            kids h' q =
              (if decide (parent_of h a = Some (iface q))
               then remove_first (iface a) (kids h q) else kids h q)
              ++ (if decide (np = Some (iface q)) then [iface a] else []))
    by (intros q Hq; apply kids_SetParent_heap; exact Hq).
  assert (Hout : forall q, ~ q < length h -> kids h' q = []).
  { intros q Hq. unfold kids. rewrite lookup_ge_None_2; [reflexivity|].
    unfold h'. rewrite length_SetParent_heap. lia. }
  assert (Hold : forall q c,
            In c (if decide (parent_of h a = Some (iface q))
                  then remove_first (iface a) (kids h q) else kids h q) ->
            In c (kids h q) /\ raddr c <> a).
  { intros q c Hc.
    assert (Hin : In c (kids h q)).
    { destruct (decide _); [eapply remove_first_incl; exact Hc | exact Hc]. }
    split; [exact Hin|]. intros Hca.
    destruct (consistentb_link h q c Hcons Hin) as [Hcb Hcp].
    rewrite Hca in Hcb, Hcp. subst c.
    rewrite decide_True in Hc by exact Hcp.
    revert Hc. apply nodupb_not_in_remove_first.
    apply (consistentb_node _ q Hcons). }
  apply consistentb_intro.
  - intros q c Hc.
    destruct (decide (q < length h)) as [Hq|Hq];
      [|rewrite (Hout q Hq) in Hc; destruct Hc].
    rewrite (Hkids q Hq) in Hc. apply in_app_iff in Hc as [Hc|Hc].
    + destruct (Hold q c Hc) as [Hin Hne].
      destruct (consistentb_link h q c Hcons Hin) as [Hcb Hcp].
      split; [rewrite Hcb; reflexivity|].
      unfold h'. rewrite parent_of_SetParent_heap_ne by exact Hne. exact Hcp.
    + destruct (decide (np = Some (iface q))) as [Hnp|]; [|destruct Hc].
      destruct Hc as [<-|[]]. split; [reflexivity|].
      unfold h'. cbn [raddr iface].
      rewrite parent_of_SetParent_heap_self by exact Ha. exact Hnp.
  - intros q.
    destruct (decide (q < length h)) as [Hq|Hq];
      [|rewrite (Hout q Hq); reflexivity].
    rewrite (Hkids q Hq).
    assert (Hnd : nodupb (if decide (parent_of h a = Some (iface q))
                          then remove_first (iface a) (kids h q)
                          else kids h q) = true).
    { destruct (decide _); [apply nodupb_remove_first|];
        apply (consistentb_node _ q Hcons). }
    destruct (decide (np = Some (iface q))); [|rewrite app_nil_r; exact Hnd].
    apply nodupb_snoc; [exact Hnd|].
    intros Hin. destruct (Hold q _ Hin) as [_ Hne]. apply Hne. reflexivity.
Qed.

Lemma X17_SetParent_witness :
  exists s',
    SetParent 2 (Some (iface 0)) tree_Root_A_B = Ret tt s' /\ held s' = [] /\
    length (heap s') = 3 /\
    consistentb (heap s') = true /\
    parent_of (heap s') 2 = Some (iface 0) /\
    (forall y, y <> 2 ->
       parent_of (heap s') y = parent_of (heap tree_Root_A_B) y).
Proof.
  apply (X17_SetParent_keeps_the_heap_consistent tree_Root_A_B 2 (Some (iface 0)));
    reflexivity.
Defined.

(** X18.  [Destroy] keeps the heap consistent: after destroying a node of
    a consistent heap, every listed child is still a base pointer whose
    parent pointer names its lister, no list repeats a child, and every
    child list is a sublist of what it was. *)
Theorem X18_Destroy_keeps_the_heap_consistent
    (s : State) (n : addr) (f : nat) (ds : list Ref) :
  held s = [] ->
  consistentb (heap s) = true ->
  parent_okb (heap s) n = true ->
  GetDescendants f n s = Ret ds s ->
  exists s',
    Destroy f n s = Ret tt s' /\
    consistentb (heap s') = true /\
    (forall q c, In c (kids (heap s') q) -> In c (kids (heap s) q)).
Proof.
  intros Hheld Hcons Hpok Hn.
  apply GetDescendants_inv in Hn as [Hdn _]; [|exact Hheld].
  pose proof (desc_NoDup _ _ _ _ Hcons Hdn) as Hnd.
  destruct (Destroy_spec_all f s n ds Hheld Hdn Hnd
              (consistentb_links _ _ Hcons) (parent_okb_valid _ _ Hpok))
    as (h' & Hrun & Hlen & Hdead & Hpar & Hrec & Hkids).
  exists (mkState h' []). cbn [heap]. split; [exact Hrun|].
  set (h := heap s) in *.
  (* the child list of a node outside the subtree *)
  assert (Hlist : forall q, ~ In q (n :: map raddr ds) ->
            kids h' q = (if decide (parent_of h n = Some (iface q))
                         then remove_first (iface n) (kids h q) else kids h q)).
  { intros q Hq. destruct (decide _) as [Hp|Hp].
    - apply Hkids; assumption.
    - apply kids_ext. apply Hrec; assumption. }
  assert (Hincl : forall q c, In c (kids h' q) -> In c (kids h q)).
  { intros q c Hc.
    destruct (in_dec Nat.eq_dec q (n :: map raddr ds)) as [Hq|Hq].
    - destruct (Hdead q Hq) as [_ Hk]. rewrite Hk in Hc. destruct Hc.
    - rewrite (Hlist q Hq) in Hc.
      destruct (decide _); [eapply remove_first_incl; exact Hc | exact Hc]. }
  split; [|exact Hincl].
  apply consistentb_intro.
  - intros q c Hc.
    destruct (in_dec Nat.eq_dec q (n :: map raddr ds)) as [Hq|Hq].
    { destruct (Hdead q Hq) as [_ Hk]. rewrite Hk in Hc. destruct Hc. }
    pose proof (Hincl q c Hc) as Hin.
    destruct (consistentb_link h q c Hcons Hin) as [Hcb Hcp].
    split; [rewrite Hcb; reflexivity|].
    rewrite Hpar; [exact Hcp|].
    intros [Hcn|Hcd].
    + (* the child is the destroyed node: it was taken off the list *)
      rewrite <- Hcn in Hcb, Hcp. subst c.
      rewrite (Hlist q Hq), decide_True in Hc by exact Hcp.
      revert Hc. apply nodupb_not_in_remove_first.
      apply (consistentb_node _ q Hcons).
    + (* the child is a descendant: its lister is in the subtree *)
      apply in_map_iff in Hcd as (x & Hx & Hxd).
      destruct (desc_parent_in f h n ds x Hcons Hdn Hxd) as (y & Hy & _ & Hxp).
      rewrite Hx, Hcp in Hxp. injection Hxp as ->. contradiction.
  - intros q.
    destruct (in_dec Nat.eq_dec q (n :: map raddr ds)) as [Hq|Hq].
    { destruct (Hdead q Hq) as [_ Hk]. rewrite Hk. reflexivity. }
    rewrite (Hlist q Hq).
    destruct (decide _); [apply nodupb_remove_first|];
      apply (consistentb_node _ q Hcons).
Qed.

Lemma X18_Destroy_consistent_witness :
  exists s',
    Destroy 2 1 tree_Root_A_B = Ret tt s' /\
    consistentb (heap s') = true /\
    (forall q c, In c (kids (heap s') q) -> In c (kids (heap tree_Root_A_B) q)).
Proof.
  apply (X18_Destroy_keeps_the_heap_consistent tree_Root_A_B 1 2 [iface 2]);
    reflexivity.
Defined.

(* ===================================================================== *)
(** ** The registry and the root                                         *)
(* ===================================================================== *)

Lemma SetName_run s a o n :
  heap s !! a = Some o ->
  SetName a n s = Ret tt (mkState (<[a := with_name o n]> (heap s)) (held s)).
Proof.
  intros H. unfold SetName.
  exact (update_run s a o (fun o => with_name o n) H).
Qed.

Lemma RegisterClass_run m cn c s :
  mu m = Unlocked -> cn <> "" ->
  RegisterClass m cn (Some c) s
  = Ret (None, with_registry m (<[cn := c]> (registry m))) s.
Proof.
  intros Hmu Hcn. unfold RegisterClass. apply String.eqb_neq in Hcn. rewrite Hcn.
  destruct m as [l reg r]. simpl in Hmu. subst l. reflexivity.
Qed.

Lemma SetRoot_run m r s :
  mu m = Unlocked -> SetRoot m r s = Ret (mkInstanceManager Unlocked (registry m) r) s.
Proof.
  intros Hmu. destruct m as [l reg r0]. simpl in Hmu. subst l. reflexivity.
Qed.

(** [CreateNamed] when the constructor returns a node: the backfill of
    [Create], for a base pointer only, then the name. *)
Lemma CreateNamed_run m cn n ctor s s1 r o :
  mu m <> WLocked ->
  registry m !! cn = Some ctor ->
  ctor s = Ret (Some r) s1 ->
  heap s1 !! raddr r = Some o ->
  CreateNamed m cn n s =
    Ret (Some r)
      (mkState (<[raddr r := with_name (match asBase r with
                                        | Some _ => backfilled cn o
                                        | None => o
                                        end) n]> (heap s1)) (held s1)).
Proof.
  intros Hmu Hreg Hctor Ho.
  assert (Hlt : raddr r < length (heap s1)) by (eapply lookup_lt_Some; eauto).
  destruct (asBase r) as [b|] eqn:Hb.
  - apply asBase_Some in Hb. subst r. cbn [raddr iface] in *.
    unfold CreateNamed, bind.
    rewrite (Create_base_run m cn ctor s s1 b o Hmu Hreg Hctor Ho).
    cbn [raddr iface].
    rewrite (SetName_run _ b (backfilled cn o))
      by (simpl; apply list_lookup_insert_eq; exact Hlt).
    cbn [heap held]. rewrite list_insert_insert_eq. reflexivity.
  - unfold CreateNamed, bind. rewrite Create_unfold by exact Hmu.
    rewrite Hreg. unfold bind. rewrite Hctor, Hb. unfold ret.
    rewrite (SetName_run _ _ o) by exact Ho. reflexivity.
Qed.

(** X19.  [Create] and [CreateNamed] return nil, and allocate nothing of
    their own, when no constructor is registered under the class name (the
    heap is then untouched) and when the registered constructor returns nil
    (the heap is then as the constructor left it). *)
Theorem X19_Create_returns_nil_on_a_miss
    (m : instanceManager) (cn n : string) (s : State) :
  mu m <> WLocked ->
  (registry m !! cn = None ->
   Create m cn s = Ret None s /\ CreateNamed m cn n s = Ret None s) /\
  (forall ctor s1,
     registry m !! cn = Some ctor -> ctor s = Ret None s1 ->
     Create m cn s = Ret None s1 /\ CreateNamed m cn n s = Ret None s1).
Proof.
  intros Hmu. split.
  - intros Hreg.
    assert (Hc : Create m cn s = Ret None s)
      by (rewrite Create_unfold by exact Hmu; rewrite Hreg; reflexivity).
    split; [exact Hc|]. unfold CreateNamed, bind. rewrite Hc. reflexivity.
  - intros ctor s1 Hreg Hctor.
    assert (Hc : Create m cn s = Ret None s1).
    { rewrite Create_unfold by exact Hmu. rewrite Hreg.
      unfold bind. rewrite Hctor. reflexivity. }
    split; [exact Hc|]. unfold CreateNamed, bind. rewrite Hc. reflexivity.
Qed.

Lemma X19_Create_miss_witness :
  let s := mkState [] [] in
  (registry NewInstanceManager !! ("Part" : string) = None ->
   Create NewInstanceManager "Part" s = Ret None s /\
   CreateNamed NewInstanceManager "Part" "baseplate" s = Ret None s) /\
  (forall ctor s1,
     registry NewInstanceManager !! ("Part" : string) = Some ctor ->
     ctor s = Ret None s1 ->
     Create NewInstanceManager "Part" s = Ret None s1 /\
     CreateNamed NewInstanceManager "Part" "baseplate" s = Ret None s1).
Proof.
  intros s.
  apply (X19_Create_returns_nil_on_a_miss NewInstanceManager "Part" "baseplate" s).
  discriminate.
Defined.

(** X20.  A registration is seen by [Create] under its own name only.
    After [RegisterClass] for a class name, [Create] of that name runs the
    constructor just registered, whatever was registered there before, and
    [Create] of any other name behaves as it did before the registration. *)
Theorem X20_RegisterClass_overwrites_one_name_only
    (m : instanceManager) (cn : string) (c : InstanceConstructor) (s : State) :
  mu m = Unlocked -> cn <> "" ->
  exists m',
    RegisterClass m cn (Some c) s = Ret (None, m') s /\
    mu m' = Unlocked /\ root m' = root m /\
    (forall s0,
       Create m' cn s0
       = Create (mkInstanceManager Unlocked {[ cn := c ]} None) cn s0) /\
    (forall cn' s0, cn' <> cn -> Create m' cn' s0 = Create m cn' s0).
Proof.
  intros Hmu Hcn.
  exists (with_registry m (<[cn := c]> (registry m))).
  split; [apply RegisterClass_run; assumption|].
  split; [exact Hmu|]. split; [reflexivity|].
  split.
  - intros s0. rewrite !Create_unfold by (simpl; congruence).
    cbn [registry with_registry]. rewrite lookup_insert_eq, lookup_singleton_eq.
    reflexivity.
  - intros cn' s0 Hne. rewrite !Create_unfold by (simpl; congruence).
    cbn [registry with_registry]. rewrite lookup_insert_ne by congruence.
    reflexivity.
Qed.

Lemma X20_RegisterClass_witness :
  let s := mkState [] [] in
  exists m',
    RegisterClass NewInstanceManager "Instance" (Some ctor_DataModel) s
      = Ret (None, m') s /\
    mu m' = Unlocked /\ root m' = root NewInstanceManager /\
    (forall s0,
       Create m' "Instance" s0
       = Create (mkInstanceManager Unlocked {[ "Instance" := ctor_DataModel ]} None)
           "Instance" s0) /\
    (forall cn' s0, cn' <> "Instance" ->
       Create m' cn' s0 = Create NewInstanceManager cn' s0).
Proof.
  intros s.
  apply (X20_RegisterClass_overwrites_one_name_only
           NewInstanceManager "Instance" ctor_DataModel s);
    [reflexivity | discriminate].
Defined.

(** X21.  [CreateNamed] returns the handle the constructor returned, of
    whatever concrete type, and the node carries the name asked for.  Only
    a plain base node has an empty class name replaced by the registered
    one; a handle of an embedding type keeps the class name its constructor
    set.  Parent, [this] and the children are as the constructor left them,
    and so is every other record. *)
Theorem X21_CreateNamed_names_the_constructed_node
    (m : instanceManager) (cn n : string) (ctor : InstanceConstructor)
    (s s1 : State) (r : Ref) (o : BaseInstance) :
  mu m <> WLocked ->
  registry m !! cn = Some ctor ->
  ctor s = Ret (Some r) s1 ->
  heap s1 !! raddr r = Some o ->
  exists s3 o3,
    CreateNamed m cn n s = Ret (Some r) s3 /\
    heap s3 !! raddr r = Some o3 /\
    name o3 = n /\
    className o3 = match asBase r with
                   | Some _ => if String.eqb (className o) "" then cn
                               else className o
                   | None => className o
                   end /\
    parent o3 = parent o /\ this o3 = this o /\
    elems (children o3) = elems (children o) /\
    (forall a, a <> raddr r -> heap s3 !! a = heap s1 !! a) /\
    held s3 = held s1.
Proof.
  intros Hmu Hreg Hctor Ho.
  assert (Hlt : raddr r < length (heap s1)) by (eapply lookup_lt_Some; eauto).
  eexists _, _.
  split; [apply (CreateNamed_run m cn n ctor s s1 r o); assumption|].
  cbn [heap held].
  split; [apply list_lookup_insert_eq; exact Hlt|].
  destruct (asBase r); repeat split; try reflexivity;
    intros a Ha; apply list_lookup_insert_ne; congruence.
Qed.

Lemma X21_CreateNamed_witness :
  let m := with_registry NewInstanceManager
             (<["Part" := NewPart]> (registry NewInstanceManager)) in
  exists s3 o3,
    CreateNamed m "Part" "baseplate" (mkState [] [])
      = Ret (Some (mkRef KPart 0)) s3 /\
    heap s3 !! 0 = Some o3 /\
    name o3 = "baseplate" /\
    className o3 = "Part" /\
    parent o3 = None /\ this o3 = Some (mkRef KPart 0) /\
    elems (children o3) = [] /\
    (forall a, a <> 0 -> heap s3 !! a = heap part_state !! a) /\
    held s3 = [].
Proof.
  intros m.
  apply (X21_CreateNamed_names_the_constructed_node m "Part" "baseplate" NewPart
           (mkState [] []) part_state (mkRef KPart 0)
           (mkBaseInstance "ExamplePart" None (Some []) "Part" ""
              (Some (mkRef KPart 0))));
    first [discriminate | reflexivity].
Defined.

(** X22.  What [SetRoot] stores is what [GetRoot] hands out: after
    [SetRoot] with a non-nil root on an unlocked manager, [GetRoot] returns
    that root and leaves the manager, its registry and its mutex as they
    are. *)
Theorem X22_GetRoot_returns_what_SetRoot_stored
    (m : instanceManager) (rt : Ref) (s : State) :
  mu m = Unlocked ->
  exists m',
    SetRoot m (Some rt) s = Ret m' s /\
    root m' = Some rt /\ registry m' = registry m /\ mu m' = Unlocked /\
    GetRoot m' s = Ret (Some rt, m') s.
Proof.
  intros Hmu. exists (mkInstanceManager Unlocked (registry m) (Some rt)).
  split; [apply SetRoot_run; exact Hmu|].
  repeat split; reflexivity.
Qed.

Lemma X22_GetRoot_witness :
  let s := mkState [NewBaseInstance_obj "DataModel"] [] in
  exists m',
    SetRoot NewInstanceManager (Some (iface 0)) s = Ret m' s /\
    root m' = Some (iface 0) /\
    registry m' = registry NewInstanceManager /\ mu m' = Unlocked /\
    GetRoot m' s = Ret (Some (iface 0), m') s.
Proof.
  intros s.
  apply (X22_GetRoot_returns_what_SetRoot_stored NewInstanceManager (iface 0) s).
  reflexivity.
Defined.

(** X23.  On a manager without a root [GetRoot] never returns, whatever
    the registry holds: on a free mutex it takes the write lock and then,
    through [CreateNamed] and [Create], waits for the read lock of the same
    mutex (on a mutex that is held it waits even before that).  So does
    [FindByPath] for every non-empty path, while the empty path is answered
    with nil before any lock is touched.  The manager [NewInstanceManager]
    returns is such a manager. *)
Theorem X23_GetRoot_without_root_never_returns
    (m : instanceManager) (s : State) :
  root m = None ->
  GetRoot m s = Deadlock /\
  (forall path, path <> "" -> FindByPath m path s = Deadlock) /\
  FindByPath m "" s = Ret (None, m) s.
Proof.
  intros Hroot.
  assert (Hg : GetRoot m s = Deadlock).
  { destruct m as [[|k|] reg r]; simpl in Hroot; subst r; reflexivity. }
  split; [exact Hg|]. split; [|reflexivity].
  intros path Hp. unfold FindByPath. apply String.eqb_neq in Hp. rewrite Hp.
  unfold bind. rewrite Hg. reflexivity.
Qed.

Lemma X23_GetRoot_witness :
  let s := mkState [] [] in
  GetRoot NewInstanceManager s = Deadlock /\
  (forall path, path <> "" -> FindByPath NewInstanceManager path s = Deadlock) /\
  FindByPath NewInstanceManager "" s = Ret (None, NewInstanceManager) s.
Proof.
  intros s.
  apply (X23_GetRoot_without_root_never_returns NewInstanceManager s).
  reflexivity.
Defined.

(** X24.  [ListRegistered] returns, leaves the manager as it is, and
    lists exactly the class names that have a constructor, each of them
    once (in an order that is left open). *)
Theorem X24_ListRegistered_lists_each_registered_name_once
    (m : instanceManager) (s : State) :
  mu m <> WLocked ->
  exists out,
    ListRegistered m s = Ret (out, m) s /\
    NoDup out /\
    (forall cn, In cn out <-> is_Some (registry m !! cn)) /\
    length out = size (registry m).
Proof.
  intros Hmu. exists (fst <$> map_to_list (registry m)).
  split.
  { unfold ListRegistered, bind, RLock, RUnlock, ret.
    destruct m as [[|k|] reg r]; simpl in *; first [reflexivity | congruence]. }
  split; [apply NoDup_fst_map_to_list|].
  split.
  - intros cn. rewrite <- list_elem_of_In, list_elem_of_fmap. split.
    + intros ([k v] & -> & Hkv). apply elem_of_map_to_list in Hkv.
      simpl. eauto.
    + intros [v Hv]. exists (cn, v). split; [reflexivity|].
      apply elem_of_map_to_list. exact Hv.
  - rewrite length_fmap. apply length_map_to_list.
Qed.

Lemma X24_ListRegistered_witness :
  let s := mkState [] [] in
  exists out,
    ListRegistered NewInstanceManager s = Ret (out, NewInstanceManager) s /\
    NoDup out /\
    (forall cn, In cn out <-> is_Some (registry NewInstanceManager !! cn)) /\
    length out = size (registry NewInstanceManager).
Proof.
  intros s.
  apply (X24_ListRegistered_lists_each_registered_name_once NewInstanceManager s).
  discriminate.
Defined.

(* ===================================================================== *)
(** ** Detached clones, repeated nodes and cycles                        *)
(* ===================================================================== *)



(** X26.  On a consistent heap [GetDescendants] changes nothing and
    lists no node twice and never the node it was called on; every entry is
    a base pointer to a node of the heap that has a parent; so the list is
    shorter than the heap. *)
Theorem X26_GetDescendants_lists_each_node_once
    (s s' : State) (n : addr) (f : nat) (ds : list Ref) :
  held s = [] ->
  consistentb (heap s) = true ->
  GetDescendants f n s = Ret ds s' ->
  s' = s /\
  NoDup (map raddr ds) /\
  ~ In n (map raddr ds) /\
  (forall x, In x ds ->
     rkind x = KBase /\ raddr x < length (heap s) /\
     parent_of (heap s) (raddr x) <> None) /\
  length ds < length (heap s).
Proof.
  intros Hheld Hcons Hd.
  apply GetDescendants_inv in Hd as [Hd ->]; [|exact Hheld].
  pose proof (desc_NoDup _ _ _ _ Hcons Hd) as Hnd.
  assert (Hx : forall x, In x ds ->
            rkind x = KBase /\ raddr x < length (heap s) /\
            parent_of (heap s) (raddr x) <> None).
  { intros x Hin.
    destruct (desc_parent_in f _ n ds x Hcons Hd Hin) as (y & _ & Hxy & Hp).
    destruct (consistentb_links _ [y] Hcons y x (or_introl eq_refl) Hxy)
      as [Hk _].
    split; [exact Hk|]. split; [|congruence].
    unfold parent_of in Hp.
    destruct (heap s !! raddr x) eqn:E; [|discriminate].
    eapply lookup_lt_Some; eauto. }
  split; [reflexivity|].
  pose proof Hnd as Hnd'. apply NoDup_cons in Hnd' as [Hn Hnd'].
  split; [exact Hnd'|]. split; [rewrite <- list_elem_of_In; exact Hn|].
  split; [exact Hx|].
  assert (Hsub : n :: map raddr ds ⊆+ seq 0 (length (heap s))).
  { apply NoDup_submseteq; [exact Hnd|].
    intros y Hy. apply list_elem_of_In, in_seq. apply list_elem_of_In in Hy.
    destruct Hy as [<-|Hy].
    - destruct f as [|f]; [discriminate|]. simpl in Hd.
      destruct (heap s !! n) eqn:E; [|discriminate].
      split; [lia|]. simpl. eapply lookup_lt_Some; eauto.
    - apply in_map_iff in Hy as (x & <- & Hin).
      destruct (Hx x Hin) as (_ & Hlt & _). lia. }
  apply submseteq_length in Hsub.
  cbn [length] in Hsub. rewrite length_map, length_seq in Hsub. lia.
Qed.

Lemma X26_GetDescendants_witness :
  let s := tree_Root_A_B in
  let ds := [iface 1; iface 2] in
  s = s /\
  NoDup (map raddr ds) /\
  ~ In 0 (map raddr ds) /\
  (forall x, In x ds ->
     rkind x = KBase /\ raddr x < length (heap s) /\
     parent_of (heap s) (raddr x) <> None) /\
  length ds < length (heap s).
Proof.
  intros s ds.
  apply (X26_GetDescendants_lists_each_node_once s s 0 3 ds); reflexivity.
Defined.

(** X27.  [SetParent] does not look for cycles.  Take two distinct
    nodes, each with a parent pointer that is nil or names a node other
    than itself, and no node lock held.  Each can be made the parent of the
    other: both calls return.  From then on each lists the other as a
    child, and [GetDescendants] of either node returns under no bound on
    the depth of the recursion. *)
Theorem X27_SetParent_accepts_a_cycle
    (s : State) (a b : addr) :
  held s = [] -> a <> b ->
  parent_okb (heap s) a = true -> parent_okb (heap s) b = true ->
  exists s1 s2,
    SetParent a (Some (iface b)) s = Ret tt s1 /\
    SetParent b (Some (iface a)) s1 = Ret tt s2 /\
    In (iface a) (kids (heap s2) b) /\
    In (iface b) (kids (heap s2) a) /\
    forall f, result (GetDescendants f a s2) = None /\
              result (GetDescendants f b s2) = None.
Proof.
  intros Hheld Hab Hpa Hpb.
  assert (Ha : a < length (heap s)).
  { unfold parent_okb in Hpa.
    destruct (heap s !! a) eqn:E; [|discriminate]. eapply lookup_lt_Some; eauto. }
  assert (Hb : b < length (heap s)).
  { unfold parent_okb in Hpb.
    destruct (heap s !! b) eqn:E; [|discriminate]. eapply lookup_lt_Some; eauto. }
  set (h := heap s) in *.
  set (h1 := SetParent_heap h a (Some (iface b))).
  set (h2 := SetParent_heap h1 b (Some (iface a))).
  assert (Hlen1 : length h1 = length h) by apply length_SetParent_heap.
  assert (Hpb1 : parent_of h1 b = parent_of h b)
    by (apply parent_of_SetParent_heap_ne; congruence).
  assert (Hnb : parent_of h b <> Some (iface b)).
  { pose proof (parent_okb_valid _ _ Hpb) as Hv. intros E.
    destruct (Hv _ E) as [Hne _]. apply Hne. reflexivity. }
  assert (Hrun1 : SetParent a (Some (iface b)) s = Ret tt (mkState h1 [])).
  { apply SetParent_run; [exact Hheld | exact Hpa|].
    unfold target_okb. cbn [raddr iface]. apply andb_true_iff. split.
    - apply negb_true_iff, Nat.eqb_neq. congruence.
    - apply Nat.ltb_lt. exact Hb. }
  assert (Hrun2 : SetParent b (Some (iface a)) (mkState h1 []) = Ret tt (mkState h2 [])).
  { apply SetParent_run; [reflexivity| |]; cbn [heap].
    - unfold parent_okb in *. fold h in Hpb. unfold parent_of in Hpb1.
      destruct (h !! b) as [ob|] eqn:Eb; [|discriminate].
      destruct (h1 !! b) as [ob1|] eqn:Eb1.
      + rewrite Hpb1, Hlen1. exact Hpb.
      + apply lookup_ge_None in Eb1. lia.
    - unfold target_okb. cbn [raddr iface]. apply andb_true_iff. split.
      + apply negb_true_iff, Nat.eqb_neq. congruence.
      + apply Nat.ltb_lt. lia. }
  assert (Hk1 : In (iface a) (kids h1 b)).
  { unfold h1. rewrite kids_SetParent_heap by exact Hb.
    apply in_app_iff. right. rewrite decide_True by reflexivity.
    left. reflexivity. }
  assert (Hkb : In (iface a) (kids h2 b)).
  { unfold h2. rewrite kids_SetParent_heap by lia.
    apply in_app_iff. left.
    rewrite decide_False by (rewrite Hpb1; exact Hnb). exact Hk1. }
  assert (Hka : In (iface b) (kids h2 a)).
  { unfold h2. rewrite kids_SetParent_heap by lia.
    apply in_app_iff. right. rewrite decide_True by reflexivity.
    left. reflexivity. }
  exists (mkState h1 []), (mkState h2 []).
  split; [exact Hrun1|]. split; [exact Hrun2|].
  cbn [heap]. split; [exact Hkb|]. split; [exact Hka|].
  assert (Hcyc : forall x y f,
            In (iface y) (kids h2 x) -> In (iface x) (kids h2 y) ->
            result (GetDescendants f x (mkState h2 [])) = None).
  { intros x y f Hxy Hyx.
    destruct (GetDescendants f x (mkState h2 [])) as [ds s'| | |] eqn:E;
      try reflexivity.
    exfalso. apply GetDescendants_inv in E as [Hd _]; [|reflexivity].
    cbn [heap] in Hd.
    assert (H1 : In (iface y) ds).
    { apply (desc_closed f h2 x ds x); [exact Hd | left; reflexivity | exact Hxy]. }
    assert (H2 : In (iface x) ds).
    { apply (desc_closed f h2 x ds y); [exact Hd | | exact Hyx].
      right. apply in_map_iff. exists (iface y). auto. }
    apply (desc_acyclic f h2 x ds Hd).
    apply in_map_iff. exists (iface x). auto. }
  intros f. split; [apply (Hcyc a b) | apply (Hcyc b a)]; assumption.
Qed.

Lemma X27_SetParent_cycle_witness :
  exists s1 s2,
    SetParent 0 (Some (iface 1)) two_nodes = Ret tt s1 /\
    SetParent 1 (Some (iface 0)) s1 = Ret tt s2 /\
    In (iface 0) (kids (heap s2) 1) /\
    In (iface 1) (kids (heap s2) 0) /\
    forall f, result (GetDescendants f 0 s2) = None /\
              result (GetDescendants f 1 s2) = None.
Proof.
  apply (X27_SetParent_accepts_a_cycle two_nodes 0 1);
    first [reflexivity | discriminate].
Defined.

(** X28.  A node cannot be made its own parent: [SetParent] holds the
    node's mutex while it asks the new parent to add the child, that is the
    same mutex again, and the call never returns. *)
Theorem X28_SetParent_to_itself_never_returns (s : State) (a : addr) :
  held s = [] ->
  parent_okb (heap s) a = true ->
  SetParent a (Some (iface a)) s = Deadlock.
Proof.
  intros Hheld Hpar.
  destruct (heap s !! a) as [oa|] eqn:Ha;
    [|unfold parent_okb in Hpar; rewrite Ha in Hpar; discriminate].
  assert (Hlt : a < length (heap s)) by (eapply lookup_lt_Some; eauto).
  unfold SetParent. unfold bind at 1. unfold lock at 1. rewrite Hheld.
  change (is_held a []) with false. cbv iota.
  unfold bind at 1. unfold load at 1. cbn [heap held]. rewrite Ha.
  assert (Hold :
    match parent oa with
    | Some p =>
        match asBase p with
        | Some pbase => removeChild pbase (iface a)
        | None =>
            let* cs := GetChildren (raddr p) in
            match asBase p with
            | Some pbase2 =>
                update pbase2 (fun po => with_children po
                  (Some (List.filter (fun c => negb (Ref_eqb c (iface a))) cs)))
            | None => ret tt
            end
        end
    | None => ret tt
    end (mkState (heap s) [a]) = Ret tt (mkState (detach (heap s) a) [a])).
  { unfold detach. rewrite Ha. unfold parent_okb in Hpar. rewrite Ha in Hpar.
    destruct (parent oa) as [p|]; [|reflexivity].
    apply andb_true_iff in Hpar as [Hne Hplt].
    apply negb_true_iff in Hne. apply Nat.ltb_lt in Hplt.
    destruct (asBase p) as [pb|] eqn:Hp.
    - apply asBase_Some in Hp. subst p. simpl in Hne, Hplt.
      apply removeChild_alter; [exact Hplt|].
      unfold is_held; simpl. rewrite Hne. reflexivity.
    - destruct (lookup_lt_is_Some_2 _ _ Hplt) as [op Hop].
      unfold bind. rewrite (GetChildren_run _ (raddr p) op); auto.
      unfold is_held; simpl. rewrite Hne. reflexivity. }
  unfold bind at 1. rewrite Hold. clear Hold.
  unfold bind at 1. rewrite update_alter by (simpl; rewrite length_detach; exact Hlt).
  cbn [heap held]. rewrite asBase_iface.
  unfold bind at 1. unfold addChild. unfold bind at 1. unfold lock.
  cbn [heap held]. rewrite is_held_cons_same. reflexivity.
Qed.

Lemma X28_SetParent_to_itself_witness :
  SetParent 1 (Some (iface 1)) tree_Root_A_B = Deadlock.
Proof.
  apply (X28_SetParent_to_itself_never_returns tree_Root_A_B 1); reflexivity.
Defined.

(* ===================================================================== *)
(** ** The datamodel at start-up                                         *)
(* ===================================================================== *)

Lemma update_last (h : Heap) hd z f :
  update (length h) f (mkState (h ++ [z]) hd) = Ret tt (mkState (h ++ [f z]) hd).
Proof.
  rewrite (update_run _ _ z) by (simpl; apply lookup_last).
  cbn [heap held]. rewrite insert_last. reflexivity.
Qed.

Lemma NewWerkzeug_run s :
  NewWerkzeug s =
    Ret (Some (mkRef KWerkzeug (length (heap s))))
      (mkState (heap s ++ [mkBaseInstance "werkzeug" None (Some []) "Workspace" ""
                             (Some (mkRef KWerkzeug (length (heap s))))])
               (held s)).
Proof.
  unfold NewWerkzeug. unfold bind at 1. unfold alloc.
  do 4 (unfold bind at 1; rewrite update_last). reflexivity.
Qed.

Lemma lookup_tail1 (h : Heap) x y : (h ++ [x; y]) !! S (length h) = Some y.
Proof.
  change (h ++ [x; y]) with (h ++ [x] ++ [y]). rewrite app_assoc.
  apply list_lookup_middle. rewrite length_app. simpl. lia.
Qed.

Lemma alter_tail0 (h : Heap) f x l : alter f (length h) (h ++ x :: l) = h ++ f x :: l.
Proof.
  rewrite alter_app_r_alt by lia. rewrite Nat.sub_diag. reflexivity.
Qed.

Lemma alter_tail1 (h : Heap) f x y l :
  alter f (S (length h)) (h ++ x :: y :: l) = h ++ x :: f y :: l.
Proof.
  rewrite alter_app_r_alt by lia.
  replace (S (length h) - length h) with 1 by lia. reflexivity.
Qed.

(** X29.  [InitManager] on any heap with no lock held returns a manager
    that knows the classes "Instance", "Workspace", "DataModel" and "Part"
    and has its root set.  It allocates exactly two nodes behind the
    existing ones, which it leaves alone: the root, named "Root" of class
    "DataModel", without parent, whose one child is the workspace as a base
    pointer; and the workspace, named "Werkzeug" of class "Workspace",
    whose parent is the root.  [GetRoot] on the manager returns the root. *)
Theorem X29_InitManager_builds_root_and_workspace (s : State) :
  held s = [] ->
  let r := length (heap s) in
  InitManager s
    = Ret (datamodel_manager r)
        (mkState (heap s ++ [root_record r; workspace_record r]) []) /\
  GetRoot (datamodel_manager r)
    (mkState (heap s ++ [root_record r; workspace_record r]) [])
    = Ret (Some (iface r), datamodel_manager r)
        (mkState (heap s ++ [root_record r; workspace_record r]) []) /\
  (consistentb (heap s) = true ->
   consistentb (heap s ++ [root_record r; workspace_record r]) = true).
Proof.
  intros Hheld r. destruct s as [h hd]. simpl in Hheld. subst hd.
  cbn [heap] in *. subst r.
  split; [|split; [reflexivity|]].
  - unfold InitManager.
    unfold bind at 1. rewrite RegisterClass_run by (reflexivity || discriminate).
    cbn [fst snd].
    unfold bind at 1. rewrite RegisterClass_run by (reflexivity || discriminate).
    cbn [fst snd].
    unfold bind at 1. rewrite RegisterClass_run by (reflexivity || discriminate).
    cbn [fst snd].
    set (m3 := with_registry _ _).
    unfold bind at 1.
    rewrite (CreateNamed_run m3 "DataModel" "Root" ctor_DataModel
               (mkState h []) (mkState (h ++ [NewBaseInstance_obj "DataModel"]) [])
               (iface (length h)) (NewBaseInstance_obj "DataModel"));
      [ | discriminate | vm_compute; reflexivity | reflexivity | apply lookup_last ].
    cbn [heap held raddr iface asBase rkind]. rewrite insert_last.
    change (with_name (backfilled "DataModel" (NewBaseInstance_obj "DataModel")) "Root")
      with (mkBaseInstance "Root" None (Some []) "DataModel" "" None).
    set (ro := mkBaseInstance "Root" None (Some []) "DataModel" "" None).
    unfold bind at 1. rewrite SetRoot_run by reflexivity.
    set (m4 := mkInstanceManager Unlocked (registry m3) (Some (iface (length h)))).
    unfold bind at 1.
    rewrite (CreateNamed_run m4 "Workspace" "Werkzeug" NewWerkzeug
               (mkState (h ++ [ro]) [])
               (mkState ((h ++ [ro]) ++
                  [mkBaseInstance "werkzeug" None (Some []) "Workspace" ""
                     (Some (mkRef KWerkzeug (length (h ++ [ro]))))]) [])
               (mkRef KWerkzeug (length (h ++ [ro])))
               (mkBaseInstance "werkzeug" None (Some []) "Workspace" ""
                  (Some (mkRef KWerkzeug (length (h ++ [ro]))))));
      [ | discriminate | vm_compute; reflexivity | apply NewWerkzeug_run
        | apply lookup_last ].
    cbn [heap held raddr asBase rkind]. rewrite insert_last.
    assert (Hl : length (h ++ [ro]) = S (length h))
      by (rewrite length_app; simpl; lia).
    rewrite Hl. rewrite <- app_assoc. cbn [app].
    change (with_name
              (mkBaseInstance "werkzeug" None (Some []) "Workspace" ""
                 (Some (mkRef KWerkzeug (S (length h))))) "Werkzeug")
      with (mkBaseInstance "Werkzeug" None (Some []) "Workspace" ""
              (Some (mkRef KWerkzeug (S (length h))))).
    set (wo := mkBaseInstance "Werkzeug" None (Some []) "Workspace" ""
                 (Some (mkRef KWerkzeug (S (length h))))).
    unfold bind at 1.
    rewrite SetParent_run.
    + cbn [heap]. unfold ret. f_equal. f_equal.
      unfold SetParent_heap, detach, attach. rewrite lookup_tail1.
      cbn [parent wo asBase iface rkind raddr].
      rewrite alter_tail1, alter_tail0. reflexivity.
    + reflexivity.
    + cbn [heap]. unfold parent_okb. rewrite lookup_tail1. reflexivity.
    + cbn [heap]. unfold target_okb. cbn [raddr iface].
      apply andb_true_iff. split.
      * apply negb_true_iff, Nat.eqb_neq. lia.
      * apply Nat.ltb_lt. rewrite length_app. simpl. lia.
  - intros Hcons.
    set (r := length h). set (h' := h ++ [root_record r; workspace_record r]).
    assert (Hk : forall q, kids h' q =
              if decide (q = r) then [iface (S r)]
              else if decide (q < r) then kids h q else []).
    { intros q. unfold kids, h'.
      destruct (decide (q = r)) as [->|Hne].
      - rewrite list_lookup_middle by reflexivity. reflexivity.
      - destruct (decide (q < r)) as [Hlt|Hge].
        + rewrite lookup_app_l by exact Hlt. reflexivity.
        + destruct (decide (q = S r)) as [->|Hne2].
          * unfold r. rewrite lookup_tail1. reflexivity.
          * rewrite lookup_ge_None_2; [reflexivity|].
            rewrite length_app. simpl. unfold r in *. lia. }
    assert (Hp : forall x, x < r -> parent_of h' x = parent_of h x).
    { intros x Hx. unfold parent_of, h'. rewrite lookup_app_l by exact Hx.
      reflexivity. }
    apply consistentb_intro.
    + intros q c Hc. rewrite Hk in Hc.
      destruct (decide (q = r)) as [->|Hne].
      * destruct Hc as [<-|[]]. split; [reflexivity|].
        unfold parent_of, h', r. cbn [raddr iface]. rewrite lookup_tail1.
        reflexivity.
      * destruct (decide (q < r)) as [Hlt|Hge]; [|destruct Hc].
        destruct (consistentb_link h q c Hcons Hc) as [Hcb Hcp].
        split; [rewrite Hcb; reflexivity|].
        rewrite Hp; [exact Hcp|].
        unfold parent_of in Hcp.
        destruct (h !! raddr c) eqn:E; [|discriminate].
        eapply lookup_lt_Some; eauto.
    + intros q. rewrite Hk.
      destruct (decide (q = r)); [reflexivity|].
      destruct (decide (q < r)); [|reflexivity].
      apply (consistentb_node _ q Hcons).
Qed.

Lemma X29_InitManager_witness :
  let s := mkState [mkBaseInstance "Root" None (Some []) "Instance" "" None] [] in
  InitManager s
    = Ret (datamodel_manager 1)
        (mkState (heap s ++ [root_record 1; workspace_record 1]) []) /\
  GetRoot (datamodel_manager 1)
    (mkState (heap s ++ [root_record 1; workspace_record 1]) [])
    = Ret (Some (iface 1), datamodel_manager 1)
        (mkState (heap s ++ [root_record 1; workspace_record 1]) []) /\
  (consistentb (heap s) = true ->
   consistentb (heap s ++ [root_record 1; workspace_record 1]) = true).
Proof.
  intros s. apply (X29_InitManager_builds_root_and_workspace s). reflexivity.
Defined.

(** X30.  The start of the server program.  After the package
    initialiser, [InitManager], and the creation of the part "baseplate"
    under the child of class "Workspace" of the root, the heap is
    consistent and holds the chain root, workspace, baseplate; the handle
    [CreateInstance] returned is a [Part] pointer; the full name of the
    part is "Root.Werkzeug.baseplate"; [FindByPath] on that name finds the
    node of the part, but hands it out as its base pointer, which is not
    equal to the handle [CreateInstance] returned and does not pass the
    assertion to the [Part] pointer type; [GetRenderables] from the root,
    what the render loop asks for in every frame, is the baseplate alone;
    and the node the package initialiser made is part of none of this. *)
Theorem X30_startup_renders_the_baseplate :
  exists m s created found,
    startup (mkState [] []) = Ret (m, Some created) s /\
    created = mkRef KPart 3 /\
    consistentb (heap s) = true /\
    GetRoot m s = Ret (Some (iface 1), m) s /\
    FindFirstChildOfClass 1 "Workspace" s = Ret (Some (iface 2)) s /\
    GetFullName 3 (raddr created) s = Ret "Root.Werkzeug.baseplate" s /\
    FindByPath m "Root.Werkzeug.baseplate" s = Ret (Some found, m) s /\
    raddr found = raddr created /\
    found = iface 3 /\ found <> created /\
    asPart found = None /\ asPart created = Some 3 /\
    GetDescendants 3 1 s = Ret [iface 2; iface 3] s /\
    GetRenderables 3 1 s = Ret [3] s /\
    GetDescendants 1 0 s = Ret [] s.
Proof.
  exists startup_manager, startup_state, (mkRef KPart 3), (iface 3).
  split; [exact startup_run|].
  repeat split; first [discriminate | vm_compute; reflexivity].
Qed.
